(** * jupyblog: URL tracking annotation ([jupyblog/utm.py])

    A shallow embedding of [find_urls], [is_image], [add_utm_to_url] and
    [add_utm_to_all_urls], together with the parts of the Python standard
    library they call: [str] methods, [re.findall], [pathlib.PurePosixPath],
    [urllib.parse] ([urlparse], [geturl], [parse_qsl], [urlencode]) and the
    UTF-8 codec.  The library functions follow CPython 3.11.

    Of [jupyblog/config.py], the file is embedded up to [get_config]: the
    methods of [Config], [find_file_recursively] and [get_config], over
    [pathlib.Path] on POSIX.  The file system, the import system, and the
    reading of the YAML text into a [Config] are parameters.

    A Python [str] is a sequence of Unicode code points; it is modelled as a
    list of numbers.  Exceptions are modelled by the [result] type. *)

From Stdlib Require Import String Ascii.
From Stdlib Require Import List NArith Bool Arith Lia ZArith.
Import ListNotations.

Local Open Scope N_scope.
Local Open Scope list_scope.

(** ** Python values *)

(** A code point, [0 .. 0x10FFFF] for the characters of a Python [str]. *)
Definition char := N.
Definition str := list char.

(** The code point of an 8-bit character literal. *)
Definition ch (a : ascii) : char := N_of_ascii a.

(** A string literal as a [str]. *)
Fixpoint lit (s : string) : str :=
  match s with
  | EmptyString => []
  | String a s' => ch a :: lit s'
  end.

Inductive exn : Type :=
| ValueError
| UnicodeEncodeError.

Inductive result (A : Type) : Type :=
| Ok (a : A)
| Raise (e : exn).

Arguments Ok {A} a.
Arguments Raise {A} e.

Definition bind {A B : Type} (m : result A) (f : A -> result B) : result B :=
  match m with
  | Ok a => f a
  | Raise e => Raise e
  end.

Notation "x <- m ;; k" := (bind m (fun x => k))
  (at level 61, m at next level, right associativity).

(** [[f(x) for x in xs]] where [f] may raise: the first exception wins. *)
Fixpoint mapM {A B : Type} (f : A -> result B) (xs : list A) : result (list B) :=
  match xs with
  | [] => Ok []
  | x :: xs' => y <- f x ;; ys <- mapM f xs' ;; Ok (y :: ys)
  end.

(** ** [str] methods *)

Module Py.

Definition C_TAB : char := 9.
Definition C_LF : char := 10.
Definition C_CR : char := 13.
Definition C_SPACE : char := 32.
Definition C_HASH : char := 35.     (* # *)
Definition C_PERCENT : char := 37.  (* % *)
Definition C_AMP : char := 38.      (* & *)
Definition C_LPAR : char := 40.     (* ( *)
Definition C_RPAR : char := 41.     (* ) *)
Definition C_PLUS : char := 43.     (* + *)
Definition C_DOT : char := 46.      (* . *)
Definition C_SLASH : char := 47.    (* / *)
Definition C_COLON : char := 58.    (* : *)
Definition C_SEMI : char := 59.     (* ; *)
Definition C_EQ : char := 61.       (* = *)
Definition C_QUEST : char := 63.    (* ? *)
Definition C_AT : char := 64.       (* @ *)
Definition C_LBRACK : char := 91.   (* [ *)
Definition C_RBRACK : char := 93.   (* ] *)

(** [a == b] on strings. *)
Fixpoint eqb (a b : str) : bool :=
  match a, b with
  | [], [] => true
  | x :: a', y :: b' => (x =? y) && eqb a' b'
  | _, _ => false
  end.

(** [c in s] for a single character. *)
Definition contains (c : char) (s : str) : bool := existsb (N.eqb c) s.

(** [s.startswith(p)]. *)
Fixpoint startswith (p s : str) : bool :=
  match p, s with
  | [], _ => true
  | x :: p', y :: s' => (x =? y) && startswith p' s'
  | _ :: _, [] => false
  end.

(** [not s]: the string is empty. *)
Definition is_empty (s : str) : bool :=
  match s with [] => true | _ => false end.

(** [s.endswith(p)]. *)
Definition endswith (p s : str) : bool := startswith (rev p) (rev s).

(** [s.isascii()]. *)
Definition isascii (s : str) : bool := forallb (fun c => c <? 128) s.

(** [s.find(c)] for a single character: [None] stands for [-1]. *)
Fixpoint find (c : char) (s : str) : option nat :=
  match s with
  | [] => None
  | x :: s' => if x =? c then Some O
               else match find c s' with
                    | Some i => Some (S i)
                    | None => None
                    end
  end.

(** [s.partition(c)] for a single character: the part before the first
    [c], whether [c] was found, and the part after it. *)
Fixpoint partition (c : char) (s : str) : str * bool * str :=
  match s with
  | [] => ([], false, [])
  | x :: s' => if x =? c then ([], true, s')
               else let '(a, f, b) := partition c s' in (x :: a, f, b)
  end.

(** [s.rpartition(c)[2]]: the part after the last [c], all of [s] when
    there is none. *)
Fixpoint after_last (c : char) (s : str) : str :=
  match s with
  | [] => []
  | x :: s' => if contains c s' then after_last c s'
               else if x =? c then s' else s
  end.

(** [s.split(c)] for a single-character separator. *)
Fixpoint split (c : char) (s : str) : list str :=
  match s with
  | [] => [[]]
  | x :: s' =>
      if x =? c then [] :: split c s'
      else match split c s' with
           | h :: r => (x :: h) :: r
           | [] => [[x]]
           end
  end.

(** [sep.join(parts)] for a single-character separator. *)
Fixpoint join (c : char) (parts : list str) : str :=
  match parts with
  | [] => []
  | [p] => p
  | p :: ps => p ++ c :: join c ps
  end.

(** [s.lstrip(chars)], the set of characters given as a predicate. *)
Fixpoint lstrip (strip : char -> bool) (s : str) : str :=
  match s with
  | [] => []
  | x :: s' => if strip x then lstrip strip s' else s
  end.

(** [s.replace(c, "")] for a single character. *)
Definition remove (c : char) (s : str) : str :=
  filter (fun x => negb (x =? c)) s.

(** [s.replace(a, b)] for single characters. *)
Definition replace_char (a b : char) (s : str) : str :=
  map (fun x => if x =? a then b else x) s.

(** [s.replace(old, new)]: every non-overlapping occurrence of [old],
    found from left to right, is replaced.  [skip] counts the characters
    of a matched occurrence that are still to be dropped.  With an empty
    [old], [new] is inserted before every character and at the end. *)
Fixpoint replace_from (old new : str) (skip : nat) (s : str) : str :=
  match s with
  | [] => []
  | x :: s' =>
      match skip with
      | S n => replace_from old new n s'
      | O => if startswith old s
             then new ++ replace_from old new (length old - 1) s'
             else x :: replace_from old new O s'
      end
  end.

Fixpoint intersperse (new : str) (s : str) : str :=
  match s with
  | [] => new
  | x :: s' => new ++ x :: intersperse new s'
  end.

Definition replace (old new s : str) : str :=
  match old with
  | [] => intersperse new s
  | _ :: _ => replace_from old new O s
  end.

(** [c.isspace()]: the characters Unicode classifies as white space,
    and the four ASCII separators [0x1C .. 0x1F]. *)
Definition isspace (c : char) : bool :=
  ((9 <=? c) && (c <=? 13)) || ((28 <=? c) && (c <=? 32))
  || (c =? 133) || (c =? 160) || (c =? 5760)
  || ((8192 <=? c) && (c <=? 8202))
  || (c =? 8232) || (c =? 8233) || (c =? 8239) || (c =? 8287)
  || (c =? 12288).

Definition isupper_ascii (c : char) : bool := (65 <=? c) && (c <=? 90).
Definition islower_ascii (c : char) : bool := (97 <=? c) && (c <=? 122).
Definition isdigit_ascii (c : char) : bool := (48 <=? c) && (c <=? 57).

(** [s.lower()] on a string of ASCII letters, digits and punctuation. *)
Definition lower (s : str) : str :=
  map (fun c => if isupper_ascii c then c + 32 else c) s.

End Py.

(** ** Python dictionaries

    A [dict] keeps its keys in insertion order, and [urlencode] walks it in
    that order: it is an association list without repeated keys. *)

Module Dict.

Definition t := list (str * str).

(** [d[k] = v]: an existing key keeps its position. *)
Fixpoint set (k v : str) (d : t) : t :=
  match d with
  | [] => [(k, v)]
  | (k', v') :: d' => if Py.eqb k' k then (k', v) :: d'
                      else (k', v') :: set k v d'
  end.

(** [d.get(k)]. *)
Fixpoint get (k : str) (d : t) : option str :=
  match d with
  | [] => None
  | (k', v') :: d' => if Py.eqb k' k then Some v' else get k d'
  end.

(** [d.update(pairs)], one [d[k] = v] per pair, in order. *)
Definition update (d : t) (pairs : list (str * str)) : t :=
  fold_left (fun d kv => set (fst kv) (snd kv) d) pairs d.

(** [dict(pairs)]. *)
Definition of_pairs (pairs : list (str * str)) : t := update [] pairs.

(** [{**a, **b}]. *)
Definition merge (a b : t) : t := update (update [] a) b.

Definition keys (d : t) : list str := map fst d.

End Dict.

(** ** [re]: the fragment used by [find_urls]

    A pattern is a sequence of items, each a set of characters with a
    quantifier; matching is greedy with backtracking, as in [sre]. *)

Module Re.

Inductive quant : Type :=
| One    (* x  *)
| Opt    (* x? *)
| Plus.  (* x+ *)

Definition item : Type := (char -> bool) * quant.
Definition pattern : Type := list item.

(** A literal character. *)
Definition chr (c : char) : item := (N.eqb c, One).

(** After one or more characters of [cs]: take as many more as possible,
    giving them back one at a time while the rest of the pattern, [k],
    fails. *)
Fixpoint more (cs : char -> bool) (k : str -> option str) (s : str)
  : option str :=
  match s with
  | c :: t =>
      if cs c then
        match more cs k t with
        | Some r => Some r
        | None => k s
        end
      else k s
  | [] => k s
  end.

(** Match [p] at the start of [s], then [k]; the result is what is left
    of [s] after the match. *)
Fixpoint match_items (p : pattern) (k : str -> option str) (s : str)
  : option str :=
  match p with
  | [] => k s
  | (cs, One) :: p' =>
      match s with
      | c :: t => if cs c then match_items p' k t else None
      | [] => None
      end
  | (cs, Opt) :: p' =>
      match (match s with
             | c :: t => if cs c then match_items p' k t else None
             | [] => None
             end) with
      | Some r => Some r
      | None => match_items p' k s
      end
  | (cs, Plus) :: p' =>
      match s with
      | c :: t => if cs c then more cs (match_items p' k) t else None
      | [] => None
      end
  end.

(** [pattern.match(s)]: the matched prefix of [s]. *)
Definition match_prefix (p : pattern) (s : str) : option str :=
  match match_items p Some s with
  | Some rest => Some (firstn (length s - length rest) s)
  | None => None
  end.

(** [re.findall(p, s)] for a pattern without groups: the matches, from
    left to right, the search resuming where the last match ended.
    [skip] counts the characters of the last match still to be passed. *)
Fixpoint findall_from (p : pattern) (skip : nat) (s : str) : list str :=
  match skip with
  | S n =>
      match s with
      | [] => []
      | _ :: t => findall_from p n t
      end
  | O =>
      match match_prefix p s with
      | Some m =>
          m :: match s with
               | [] => []
               | _ :: t => findall_from p (length m - 1) t
               end
      | None =>
          match s with
          | [] => []
          | _ :: t => findall_from p O t
          end
      end
  end.

Definition findall (p : pattern) (s : str) : list str := findall_from p O s.

End Re.

(** ** [pathlib.PurePosixPath] *)

Module Pathlib.

(** [_PosixFlavour.splitroot]: the root ([""], ["/"] or ["//"]) and the
    rest of the path. *)
Definition splitroot (part : str) : str * str :=
  match part with
  | c :: _ =>
      if c =? Py.C_SLASH then
        let stripped := Py.lstrip (N.eqb Py.C_SLASH) part in
        if Nat.eqb (length part - length stripped) 2
        then ([Py.C_SLASH; Py.C_SLASH], stripped)
        else ([Py.C_SLASH], stripped)
      else ([], part)
  | [] => ([], part)
  end.

(** A path component is kept unless it is empty or ["."]. *)
Definition kept (x : str) : bool :=
  match x with
  | [] => false
  | _ => negb (Py.eqb x [Py.C_DOT])
  end.

(** [parse_parts] on one string: the root and the parts, the root first
    when there is one. *)
Definition parse_parts (part : str) : str * list str :=
  match part with
  | [] => ([], [])
  | _ =>
      let '(root, rel) := splitroot part in
      let parsed := filter kept (Py.split Py.C_SLASH rel) in
      match root with
      | [] => (root, parsed)
      | _ => (root, root :: parsed)
      end
  end.

(** [PurePosixPath(s).name]: the final path component, if any. *)
Definition name (s : str) : str :=
  let '(root, parts) := parse_parts s in
  if Nat.eqb (length parts) (match root with [] => 0%nat | _ => 1%nat end)
  then []
  else last parts [].

End Pathlib.

(** ** The UTF-8 codec *)

Module Utf8.

(** U+FFFD, the replacement character. *)
Definition REPLACEMENT : char := 0xFFFD.

(** [chr(c).encode('utf-8', 'strict')]: a surrogate cannot be encoded. *)
Definition encode_char (c : char) : result (list N) :=
  if c <? 0x80 then Ok [c]
  else if c <? 0x800 then Ok [0xC0 + c / 64; 0x80 + c mod 64]
  else if (0xD800 <=? c) && (c <=? 0xDFFF) then Raise UnicodeEncodeError
  else if c <? 0x10000 then
    Ok [0xE0 + c / 4096; 0x80 + (c / 64) mod 64; 0x80 + c mod 64]
  else if c <? 0x110000 then
    Ok [0xF0 + c / 262144; 0x80 + (c / 4096) mod 64;
        0x80 + (c / 64) mod 64; 0x80 + c mod 64]
  else Raise UnicodeEncodeError.

(** [s.encode('utf-8', 'strict')]. *)
Fixpoint encode (s : str) : result (list N) :=
  match s with
  | [] => Ok []
  | c :: s' => bs <- encode_char c ;; bs' <- encode s' ;; Ok (bs ++ bs')
  end.

Definition is_continuation (b : N) : bool := (0x80 <=? b) && (b <? 0xC0).

(** [bs.decode('utf-8', 'replace')]: a byte that cannot start a
    character, the valid start of a character cut short by a byte that
    cannot continue it, and a character cut short by the end of the data
    each become one U+FFFD. *)
Fixpoint decode (bs : list N) : str :=
  match bs with
  | [] => []
  | b :: t =>
      if b <? 0x80 then b :: decode t
      else if b <? 0xC2 then REPLACEMENT :: decode t
      else if b <? 0xE0 then
        match t with
        | [] => [REPLACEMENT]
        | b2 :: t2 =>
            if is_continuation b2
            then (b * 64 + b2 - 0x3080) :: decode t2
            else REPLACEMENT :: decode t
        end
      else if b <? 0xF0 then
        match t with
        | [] => [REPLACEMENT]
        | b2 :: t2 =>
            if negb (is_continuation b2)
               || (if b2 <? 0xA0 then b =? 0xE0 else b =? 0xED)
            then REPLACEMENT :: decode t
            else
              match t2 with
              | [] => [REPLACEMENT]
              | b3 :: t3 =>
                  if is_continuation b3
                  then (b * 4096 + b2 * 64 + b3 - 0xE2080) :: decode t3
                  else REPLACEMENT :: decode t2
              end
        end
      else if b <? 0xF5 then
        match t with
        | [] => [REPLACEMENT]
        | b2 :: t2 =>
            if negb (is_continuation b2)
               || (if b2 <? 0x90 then b =? 0xF0 else b =? 0xF4)
            then REPLACEMENT :: decode t
            else
              match t2 with
              | [] => [REPLACEMENT]
              | b3 :: t3 =>
                  if negb (is_continuation b3)
                  then REPLACEMENT :: decode t2
                  else
                    match t3 with
                    | [] => [REPLACEMENT]
                    | b4 :: t4 =>
                        if is_continuation b4
                        then (b * 262144 + b2 * 4096 + b3 * 64 + b4
                              - 0x3C82080) :: decode t4
                        else REPLACEMENT :: decode t3
                    end
              end
        end
      else REPLACEMENT :: decode t
  end.

End Utf8.

(** ** [ipaddress]: which strings are addresses *)

Module Ipaddress.

Definition is_hex_digit (c : char) : bool :=
  Py.isdigit_ascii c
  || ((65 <=? c) && (c <=? 70)) || ((97 <=? c) && (c <=? 102)).

(** The number a string of decimal digits denotes. *)
Definition decimal (s : str) : N :=
  fold_left (fun n c => 10 * n + (c - 48)) s 0.

(** [IPv4Address._parse_octet] succeeds. *)
Definition octet_ok (o : str) : bool :=
  match o with
  | [] => false
  | c :: _ =>
      forallb Py.isdigit_ascii o
      && (length o <=? 3)%nat
      && negb (negb (Py.eqb o [48]) && (c =? 48))
      && (decimal o <=? 255)
  end.

(** [IPv4Address(s)] succeeds. *)
Definition ipv4_ok (s : str) : bool :=
  negb (Py.contains Py.C_SLASH s)
  && match s with
     | [] => false
     | _ => let octets := Py.split Py.C_DOT s in
            (length octets =? 4)%nat && forallb octet_ok octets
     end.

(** [IPv6Address._parse_hextet] succeeds. *)
Definition hextet_ok (h : str) : bool :=
  match h with
  | [] => false
  | _ => forallb is_hex_digit h && (length h <=? 4)%nat
  end.

(** The indices [1 .. len(parts) - 2] of the empty parts. *)
Definition inner_empty (parts : list str) : list nat :=
  filter (fun i => match nth i parts [0] with [] => true | _ => false end)
         (seq 1 (length parts - 2)).

(** [IPv6Address._ip_int_from_string] succeeds. *)
Definition ipv6_parts_ok (ip_str : str) : bool :=
  match ip_str with
  | [] => false
  | _ =>
      let parts := Py.split Py.C_COLON ip_str in
      (3 <=? length parts)%nat
      && (if Py.contains Py.C_DOT (last parts [])
          then ipv4_ok (last parts []) else true)
      && (* a dotted-quad suffix is replaced by its two hextets *)
         let parts :=
           if Py.contains Py.C_DOT (last parts [])
           then removelast parts ++ [[48]; [48]] else parts in
         let n := length parts in
         (n <=? 9)%nat
         && match inner_empty parts with
            | [] =>
                (n =? 8)%nat && forallb hextet_ok parts
            | [skip_index] =>
                let parts_hi := skip_index in
                let parts_lo := (n - skip_index - 1)%nat in
                let lead := Py.is_empty (hd [] parts) in
                let trail := Py.is_empty (last parts []) in
                let parts_hi' := if lead then (parts_hi - 1)%nat else parts_hi in
                let parts_lo' := if trail then (parts_lo - 1)%nat else parts_lo in
                (if lead then (parts_hi' =? 0)%nat else true)
                && (if trail then (parts_lo' =? 0)%nat else true)
                && (parts_hi' + parts_lo' <=? 7)%nat
                && forallb hextet_ok (firstn parts_hi' parts)
                && forallb hextet_ok (skipn (n - parts_lo') parts)
            | _ => false
            end
  end.

(** [IPv6Address(s)] succeeds: no ['/'], a well-formed scope id if any,
    and a well-formed address. *)
Definition ipv6_ok (s : str) : bool :=
  negb (Py.contains Py.C_SLASH s)
  && let '(addr, sep, scope_id) := Py.partition Py.C_PERCENT s in
     (if sep
      then negb (Py.is_empty scope_id)
           && negb (Py.contains Py.C_PERCENT scope_id)
      else true)
     && ipv6_parts_ok addr.

End Ipaddress.

(** ** [urllib.parse] *)

Module Urllib.

(** [ParseResult], the six components of a URL. *)
Record ParseResult : Type := mkParseResult {
  scheme : str;
  netloc : str;
  path : str;
  params : str;
  query : str;
  fragment : str
}.

(** [parsed._replace(query=q)]. *)
Definition replace_query (p : ParseResult) (q : str) : ParseResult :=
  mkParseResult (scheme p) (netloc p) (path p) (params p) q (fragment p).

Definition uses_netloc : list str :=
  map lit ["ftp"; "http"; "gopher"; "nntp"; "telnet"; "imap"; "wais";
           "file"; "mms"; "https"; "shttp"; "snews"; "prospero"; "rtsp";
           "rtspu"; "rsync"; "svn"; "svn+ssh"; "sftp"; "nfs"; "git";
           "git+ssh"; "ws"; "wss"; ""]%string.

Definition uses_params : list str :=
  map lit ["ftp"; "hdl"; "prospero"; "http"; "imap"; "https"; "shttp";
           "rtsp"; "rtspu"; "sip"; "sips"; "mms"; "sftp"; "tel"; ""]%string.

(** [s in l] for a list of strings. *)
Definition mem (s : str) (l : list str) : bool := existsb (Py.eqb s) l.

(** The characters valid in scheme names. *)
Definition scheme_char (c : char) : bool :=
  Py.islower_ascii c || Py.isupper_ascii c || Py.isdigit_ascii c
  || (c =? 43) || (c =? 45) || (c =? 46).

(** [_WHATWG_C0_CONTROL_OR_SPACE]. *)
Definition c0_control_or_space (c : char) : bool := c <=? 32.

(** The longest prefix without a character of [stop], and the rest. *)
Fixpoint break_at (stop : char -> bool) (s : str) : str * str :=
  match s with
  | [] => ([], [])
  | c :: t => if stop c then ([], s)
              else let '(a, b) := break_at stop t in (c :: a, b)
  end.

(** [_splitnetloc(url, 2)]: the authority runs up to the first of
    ['/'], ['?'] and ['#']. *)
Definition splitnetloc (url : str) : str * str :=
  break_at (fun c => (c =? Py.C_SLASH) || (c =? Py.C_QUEST) || (c =? Py.C_HASH))
           (skipn 2 url).

(** [_check_bracketed_host] returns without raising. *)
Definition bracketed_host_ok (hostname : str) : bool :=
  match hostname with
  | 118 :: rest =>
      (* re.match(r"\Av[a-fA-F0-9]+\..+\Z", hostname) *)
      let '(digits, tail) :=
        break_at (fun c => negb (Ipaddress.is_hex_digit c)) rest in
      negb (Py.is_empty digits)
      && match tail with
         | 46 :: any => negb (Py.is_empty any)
                        && negb (Py.contains Py.C_LF any)
         | _ => false
         end
  | _ => negb (Ipaddress.ipv4_ok hostname) && Ipaddress.ipv6_ok hostname
  end.

(** [_check_bracketed_netloc] returns without raising. *)
Definition bracketed_netloc_ok (netloc : str) : bool :=
  let hostname_and_port := Py.after_last Py.C_AT netloc in
  let '(before_bracket, have_open_br, bracketed) :=
    Py.partition Py.C_LBRACK hostname_and_port in
  if have_open_br then
    Py.is_empty before_bracket
    && let '(hostname, _, port) := Py.partition Py.C_RBRACK bracketed in
       (Py.is_empty port || Py.startswith [Py.C_COLON] port)
       && bracketed_host_ok hostname
  else
    let '(hostname, _, _) := Py.partition Py.C_COLON hostname_and_port in
    bracketed_host_ok hostname.

(** The characters whose NFKC normal form contains one of [/?#@:]
    (Unicode 14), for instance U+2100, which normalises to [a/c]. *)
Definition nfkc_delimiters : list char :=
  [0x2047; 0x2048; 0x2049; 0x2100; 0x2101; 0x2105; 0x2106; 0x2A74;
   0xFE13; 0xFE16; 0xFE55; 0xFE56; 0xFE5F; 0xFE6B; 0xFF03; 0xFF0F;
   0xFF1A; 0xFF1F; 0xFF20].

(** [_checknetloc] returns without raising: once [@ : # ?] are set
    aside, normalising the authority brings in none of [/?#@:]. *)
Definition checknetloc_ok (netloc : str) : bool :=
  if Py.is_empty netloc || Py.isascii netloc then true
  else negb (existsb (fun c => existsb (N.eqb c) nfkc_delimiters) netloc).

(** The scheme of [urlsplit]: what comes before the first [':'], when
    that is an ASCII letter followed by scheme characters. *)
Definition split_scheme (url : str) : str * str :=
  match Py.find Py.C_COLON url, url with
  | Some i, c :: _ =>
      if (0 <? i)%nat && (c <? 128)
         && (Py.islower_ascii c || Py.isupper_ascii c)
         && forallb scheme_char (firstn i url)
      then (Py.lower (firstn i url), skipn (S i) url)
      else ([], url)
  | _, _ => ([], url)
  end.

(** [urlsplit(url)]: scheme, authority, rest, query and fragment. *)
Definition urlsplit (url : str) : result (str * str * str * str * str) :=
  let url := Py.lstrip c0_control_or_space url in
  let url := Py.remove Py.C_LF (Py.remove Py.C_CR (Py.remove Py.C_TAB url)) in
  let '(scheme, url) := split_scheme url in
  nu <- (if Py.startswith [Py.C_SLASH; Py.C_SLASH] url then
           let '(netloc, rest) := splitnetloc url in
           let open := Py.contains Py.C_LBRACK netloc in
           let close := Py.contains Py.C_RBRACK netloc in
           if (open && negb close) || (close && negb open)
           then Raise ValueError
           else if open && close && negb (bracketed_netloc_ok netloc)
           then Raise ValueError
           else Ok (netloc, rest)
         else Ok ([], url)) ;;
  let '(netloc, url) := nu in
  let '(url, fragment) :=
    if Py.contains Py.C_HASH url
    then let '(a, _, b) := Py.partition Py.C_HASH url in (a, b)
    else (url, []) in
  let '(url, query) :=
    if Py.contains Py.C_QUEST url
    then let '(a, _, b) := Py.partition Py.C_QUEST url in (a, b)
    else (url, []) in
  if checknetloc_ok netloc
  then Ok (scheme, netloc, url, query, fragment)
  else Raise ValueError.

(** The text before the last [c] and the text after it. *)
Fixpoint rsplit_last (c : char) (s : str) : option (str * str) :=
  match s with
  | [] => None
  | x :: t =>
      match rsplit_last c t with
      | Some (a, b) => Some (x :: a, b)
      | None => if x =? c then Some ([], t) else None
      end
  end.

(** [_splitparams(url)]: the parameters follow the first [';'] of the
    last path segment. *)
Definition splitparams (url : str) : str * str :=
  match rsplit_last Py.C_SLASH url with
  | Some (dir, seg) =>
      let '(a, found, b) := Py.partition Py.C_SEMI seg in
      if found then (dir ++ Py.C_SLASH :: a, b) else (url, [])
  | None =>
      let '(a, found, b) := Py.partition Py.C_SEMI url in
      if found then (a, b) else (removelast url, url)
  end.

(** [urlparse(url)]. *)
Definition urlparse (url : str) : result ParseResult :=
  r <- urlsplit url ;;
  let '(scheme, netloc, url, query, fragment) := r in
  let '(url, params) :=
    if mem scheme uses_params && Py.contains Py.C_SEMI url
    then splitparams url
    else (url, []) in
  Ok (mkParseResult scheme netloc url params query fragment).

(** [urlunsplit((scheme, netloc, url, query, fragment))]. *)
Definition urlunsplit (scheme netloc url query fragment : str) : str :=
  let url :=
    if negb (Py.is_empty netloc)
       || (negb (Py.is_empty scheme) && mem scheme uses_netloc
           && negb (Py.startswith [Py.C_SLASH; Py.C_SLASH] url))
    then
      let url :=
        if negb (Py.is_empty url) && negb (Py.startswith [Py.C_SLASH] url)
        then Py.C_SLASH :: url else url in
      Py.C_SLASH :: Py.C_SLASH :: netloc ++ url
    else url in
  let url := if Py.is_empty scheme then url else scheme ++ Py.C_COLON :: url in
  let url := if Py.is_empty query then url else url ++ Py.C_QUEST :: query in
  let url := if Py.is_empty fragment then url else url ++ Py.C_HASH :: fragment in
  url.

(** [parsed.geturl()], that is [urlunparse(parsed)]. *)
Definition geturl (p : ParseResult) : str :=
  let url :=
    if Py.is_empty (params p) then path p
    else path p ++ Py.C_SEMI :: params p in
  urlunsplit (scheme p) (netloc p) url (query p) (fragment p).

(** The byte a pair of hexadecimal digits denotes. *)
Definition hex_value (c : char) : option N :=
  if Py.isdigit_ascii c then Some (c - 48)
  else if (65 <=? c) && (c <=? 70) then Some (c - 55)
  else if (97 <=? c) && (c <=? 102) then Some (c - 87)
  else None.

(** One of the pieces that follow a ['%']: two hexadecimal digits become
    a byte, anything else keeps its ['%']. *)
Definition unquote_item (item : list N) : list N :=
  match item with
  | h1 :: h2 :: r =>
      match hex_value h1, hex_value h2 with
      | Some a, Some b => (16 * a + b) :: r
      | _, _ => Py.C_PERCENT :: item
      end
  | _ => Py.C_PERCENT :: item
  end.

(** [unquote_to_bytes(s)] on a string of ASCII characters. *)
Definition unquote_to_bytes (s : str) : list N :=
  match Py.split Py.C_PERCENT s with
  | [] => []
  | first :: items => first ++ flat_map unquote_item items
  end.

(** An ASCII run of the string, percent-decoded and read as UTF-8. *)
Definition unquote_run (run : str) : str :=
  match run with
  | [] => []
  | _ => Utf8.decode (unquote_to_bytes run)
  end.

(** The loop of [unquote]: the runs of ASCII characters are decoded, the
    other characters are kept; [run] is the ASCII run being read. *)
Fixpoint unquote_runs (run : str) (s : str) : str :=
  match s with
  | [] => unquote_run run
  | c :: t =>
      if c <? 128 then unquote_runs (run ++ [c]) t
      else unquote_run run ++ c :: unquote_runs [] t
  end.

(** [unquote(s)], with [encoding='utf-8'] and [errors='replace']. *)
Definition unquote (s : str) : str :=
  if Py.contains Py.C_PERCENT s then unquote_runs [] s else s.

(** [unquote_plus(s)]. *)
Definition unquote_plus (s : str) : str :=
  unquote (Py.replace_char Py.C_PLUS Py.C_SPACE s).

(** [parse_qsl(qs)]: fields without ['='] or with an empty value are
    dropped ([keep_blank_values=False], [strict_parsing=False]). *)
Definition parse_field (name_value : str) : list (str * str) :=
  match name_value with
  | [] => []
  | _ =>
      let '(name, found, value) := Py.partition Py.C_EQ name_value in
      if found && negb (Py.is_empty value)
      then [(unquote (Py.replace_char Py.C_PLUS Py.C_SPACE name),
             unquote (Py.replace_char Py.C_PLUS Py.C_SPACE value))]
      else []
  end.

Definition parse_qsl (qs : str) : list (str * str) :=
  match qs with
  | [] => []
  | _ => flat_map parse_field (Py.split Py.C_AMP qs)
  end.

(** [_ALWAYS_SAFE]: letters, digits and [_.-~]. *)
Definition always_safe (b : N) : bool :=
  Py.isupper_ascii b || Py.islower_ascii b || Py.isdigit_ascii b
  || (b =? 95) || (b =? 46) || (b =? 45) || (b =? 126).

(** An uppercase hexadecimal digit. *)
Definition hex_digit (n : N) : char := if n <? 10 then 48 + n else 55 + n.

(** [_Quoter(safe)[b]]: a safe byte stands for itself, another one
    becomes ['%XX']. *)
Definition quoter (safe : N -> bool) (b : N) : str :=
  if always_safe b || safe b then [b]
  else [Py.C_PERCENT; hex_digit (b / 16); hex_digit (b mod 16)].

(** [quote_from_bytes(bs, safe)]. *)
Definition quote_from_bytes (bs : list N) (safe : N -> bool) : str :=
  if forallb (fun b => always_safe b || safe b) bs then bs
  else flat_map (quoter safe) bs.

(** [quote(s, safe)], with [encoding='utf-8'] and [errors='strict']. *)
Definition quote (s : str) (safe : N -> bool) : result str :=
  match s with
  | [] => Ok []
  | _ => bs <- Utf8.encode s ;; Ok (quote_from_bytes bs safe)
  end.

(** [quote_plus(s)], with [safe='']. *)
Definition quote_plus (s : str) : result str :=
  if negb (Py.contains Py.C_SPACE s) then quote s (fun _ => false)
  else q <- quote s (N.eqb Py.C_SPACE) ;;
       Ok (Py.replace_char Py.C_SPACE Py.C_PLUS q).

(** [urlencode(d)] for a dictionary of strings: [k=v] fields joined
    by ['&'], in the order of the dictionary. *)
Definition urlencode (d : Dict.t) : result str :=
  l <- mapM (fun kv => k <- quote_plus (fst kv) ;;
                       v <- quote_plus (snd kv) ;;
                       Ok (k ++ Py.C_EQ :: v)) d ;;
  Ok (Py.join Py.C_AMP l).

End Urllib.

(** ** [jupyblog/utm.py] *)

(** [r"https?://[^\s\(\)]+"] *)
Definition url_char (c : char) : bool :=
  negb (Py.isspace c || (c =? Py.C_LPAR) || (c =? Py.C_RPAR)).

Definition url_pattern : Re.pattern :=
  [Re.chr 104; Re.chr 116; Re.chr 116; Re.chr 112; (N.eqb 115, Re.Opt);
   Re.chr 58; Re.chr 47; Re.chr 47; (url_char, Re.Plus)].

Definition find_urls (text : str) : list str :=
  Re.findall url_pattern text.

Definition image_suffixes : list str :=
  map lit ["png"; "jpg"; "jpeg"; "svg"; "webp"; "gif"]%string.

Definition is_image (image_url_path : str) : bool :=
  let path := Pathlib.name image_url_path in
  existsb (fun suffix => Py.endswith (Py.C_DOT :: suffix) path) image_suffixes.

(** The [url] argument of [add_utm_to_url]: a string, or a URL that is
    already parsed. *)
Inductive url_arg : Type :=
| UrlStr (s : str)
| UrlParsed (p : Urllib.ParseResult).

Definition utm_params (source medium campaign : str) : Dict.t :=
  [(lit "utm_source", source);
   (lit "utm_medium", medium);
   (lit "utm_campaign", campaign)].

(** [{**current_params, **utm}] in [add_utm_to_url]. *)
Definition merged_params (parsed : Urllib.ParseResult)
           (source medium campaign : str) : Dict.t :=
  let current_params := Dict.of_pairs (Urllib.parse_qsl (Urllib.query parsed)) in
  let utm := utm_params source medium campaign in
  Dict.merge current_params utm.

(** [urlparse(url) if isinstance(url, str) else url]. *)
Definition as_parsed (url : url_arg) : result Urllib.ParseResult :=
  match url with
  | UrlStr s => Urllib.urlparse s
  | UrlParsed p => Ok p
  end.

Definition add_utm_to_url (url : url_arg) (source medium campaign : str)
  : result str :=
  parsed <- as_parsed url ;;
  q <- Urllib.urlencode (merged_params parsed source medium campaign) ;;
  let parsed := Urllib.replace_query parsed q in
  Ok (Urllib.geturl parsed).

Definition add_utm_to_all_urls (text source medium campaign : str)
  : result str :=
  urls <- mapM Urllib.urlparse (find_urls text) ;;
  (* ignore static resources *)
  let urls := filter (fun url => negb (is_image (Urllib.path url))) urls in
  entries <- mapM (fun url =>
                     new <- add_utm_to_url (UrlParsed url) source medium campaign ;;
                     Ok (Urllib.geturl url, new)) urls ;;
  let mapping := Dict.of_pairs entries in
  Ok (fold_left (fun text on => Py.replace (fst on) (snd on) text) mapping text).

(** ** [pathlib.Path] *)

Module Path.

(** A path as [pathlib] keeps it: the root ([""], ["/"] or ["//"]) and the
    parts, the root first when there is one. *)
Record t : Type := mk {
  root : str;
  parts : list str
}.

(** The loop of [parse_parts]: the arguments are read from the last one
    back to the first one that has a root; empty arguments are skipped. *)
Fixpoint parse_rev (it : list str) : str * list str :=
  match it with
  | [] => ([], [])
  | part :: it' =>
      if Py.is_empty part then parse_rev it'
      else
        let '(root, rel) := Pathlib.splitroot part in
        let parsed := filter Pathlib.kept (Py.split Py.C_SLASH rel) in
        if Py.is_empty root
        then let '(root', before) := parse_rev it' in (root', before ++ parsed)
        else (root, root :: parsed)
  end.

(** [Path(a, b, ...)] for strings. *)
Definition of_strs (args : list str) : t :=
  let '(root, parts) := parse_rev (rev args) in mk root parts.

(** [Path(s)]. *)
Definition of_str (s : str) : t := of_strs [s].

(** [Path(p)] and [Path(p, s)] for a path [p] and a string [s]: the parts
    of [p] stand for [p] among the arguments. *)
Definition of_path (p : t) : t := of_strs (parts p).

Definition child (p : t) (s : str) : t := of_strs (parts p ++ [s]).

(** [p.parent]: the root is its own parent. *)
Definition parent (p : t) : t :=
  if Nat.eqb (length (parts p)) 1 && negb (Py.is_empty (root p)) then p
  else mk (root p) (removelast (parts p)).

(** [str(p)]. *)
Definition to_str (p : t) : str :=
  let s := if negb (Py.is_empty (root p))
           then root p ++ Py.join Py.C_SLASH (tl (parts p))
           else Py.join Py.C_SLASH (parts p) in
  if Py.is_empty s then [Py.C_DOT] else s.

End Path.

(** ** The operating system and the import system

    What [config.py] asks of the file system and of [importlib] is given
    by records of functions: a call answers with a value or raises. *)

Module Os.

Inductive error : Type :=
| FileNotFoundError
| NotADirectoryError
| ValueError
| TypeError
| Other (name : string).

Inductive outcome (A : Type) : Type :=
| Return (a : A)
| Throw (e : error).

Arguments Return {A} a.
Arguments Throw {A} e.

Definition bind {A B : Type} (m : outcome A) (f : A -> outcome B)
  : outcome B :=
  match m with
  | Return a => f a
  | Throw e => Throw e
  end.

(** The calls on the file system: [os.getcwd()], [Path.resolve()],
    [Path.exists()], [Path.is_dir()], [Path.is_file()] and
    [Path.read_text()]. *)
Record filesystem : Type := {
  getcwd : outcome str;
  resolve : Path.t -> outcome Path.t;
  exists_ : Path.t -> outcome bool;
  is_dir : Path.t -> outcome bool;
  is_file : Path.t -> outcome bool;
  read_text : Path.t -> outcome str
}.

(** The import system: [_find_and_load(name)] and [getattr(module, attr)]. *)
Record importer (module object : Type) : Type := {
  find_and_load : str -> outcome module;
  getattr : module -> str -> outcome object
}.

Arguments find_and_load {module object} i name.
Arguments getattr {module object} i m attr.

(** [importlib.import_module(name)], without a package: a relative name
    and an empty name are refused before anything is looked up. *)
Definition import_module {module object : Type}
           (imp : importer module object) (name : str) : outcome module :=
  if Py.startswith [Py.C_DOT] name then Throw TypeError
  else if Py.is_empty name then Throw ValueError
  else find_and_load imp name.

End Os.

Notation "x <~ m ;; k" := (Os.bind m (fun x => k))
  (at level 61, m at next level, right associativity).

(** ** [jupyblog/config.py] *)

Module Config.

(** The fields of [Config]. *)
Record t : Type := mk {
  root : str;
  path_to_posts : str;
  path_to_static : str;
  prefix_img : str;
  language_mapping : option Dict.t;
  image_placeholders : bool;
  processor : option str;
  postprocessor : option str
}.

Definition path_to_posts_abs (self : t) : Path.t :=
  Path.of_strs [root self; path_to_posts self].

Definition path_to_static_abs (self : t) : Path.t :=
  Path.of_strs [root self; path_to_static self].

Definition read_footer_template (fs : Os.filesystem) (self : t)
  : Os.outcome (option str) :=
  let path := Path.of_strs [root self; lit "jupyblog-footer.md"] in
  f <~ Os.is_file fs path ;;
  if negb f then Os.Return None
  else text <~ Os.read_text fs path ;; Os.Return (Some text).

(** [dotted_path.rpartition('.')], without the separator. *)
Definition rpartition_dot (dotted_path : str) : str * str :=
  match Urllib.rsplit_last Py.C_DOT dotted_path with
  | Some (mod_, attr) => (mod_, attr)
  | None => ([], dotted_path)
  end.

Definition _load_dotted_path {module object : Type}
           (imp : Os.importer module object) (dotted_path : str)
  : Os.outcome object :=
  let '(mod_, attr) := rpartition_dot dotted_path in
  m <~ Os.import_module imp mod_ ;;
  Os.getattr imp m attr.

(** [if self.processor:] holds for a string that is not empty; without
    it the method returns [None]. *)
Definition load_processor {module object : Type}
           (imp : Os.importer module object) (self : t)
  : Os.outcome (option object) :=
  match processor self with
  | Some (c :: p) => f <~ _load_dotted_path imp (c :: p) ;; Os.Return (Some f)
  | _ => Os.Return None
  end.

Definition load_postprocessor {module object : Type}
           (imp : Os.importer module object) (self : t)
  : Os.outcome (option object) :=
  match postprocessor self with
  | Some (c :: p) => f <~ _load_dotted_path imp (c :: p) ;; Os.Return (Some f)
  | _ => Os.Return None
  end.

End Config.

(** The loop of [find_file_recursively]: [todo] passes are left, [levels]
    is the value the loop variable takes next and [last] the one it
    has. *)
Fixpoint find_file_loop (fs : Os.filesystem) (name : str) (todo : nat)
         (levels : Z) (last : option Z) (current_dir : Path.t)
  : Os.outcome (option Path.t * option Z) :=
  match todo with
  | O => Os.Return (None, last)
  | S todo' =>
      let current_path := Path.child current_dir name in
      found <~ Os.exists_ fs current_path ;;
      if found
      then path_to_file <~ Os.resolve fs current_path ;;
           Os.Return (Some path_to_file, Some levels)
      else find_file_loop fs name todo' (levels + 1)%Z (Some levels)
                          (Path.parent current_dir)
  end.

(** [starting_dir or os.getcwd()]. *)
Definition or_getcwd (fs : Os.filesystem) (starting_dir : option str)
  : Os.outcome str :=
  match starting_dir with
  | Some (c :: d) => Os.Return (c :: d)
  | _ => Os.getcwd fs
  end.

Definition find_file_recursively (fs : Os.filesystem) (name : str)
           (max_levels_up : Z) (starting_dir : option str)
  : Os.outcome (option Path.t * option Z) :=
  current_dir <~ or_getcwd fs starting_dir ;;
  current_dir <~ Os.resolve fs (Path.of_str current_dir) ;;
  find_file_loop fs name (Z.to_nat max_levels_up) 0%Z None current_dir.

(** [get_config(name)].  [make_config text root] stands for the [Config]
    built from the keys of [yaml.safe_load(text)] and from [root]. *)
Definition get_config (fs : Os.filesystem)
           (make_config : str -> str -> Os.outcome Config.t) (name : str)
  : Os.outcome Config.t :=
  found <~ find_file_recursively fs name 6 None ;;
  match fst found with
  | None => Os.Throw Os.FileNotFoundError
  | Some path =>
      text <~ Os.read_text fs (Path.of_path path) ;;
      cfg <~ make_config text (Path.to_str (Path.parent path)) ;;
      posts <~ Os.is_dir fs (Config.path_to_posts_abs cfg) ;;
      if posts
      then static <~ Os.is_dir fs (Config.path_to_static_abs cfg) ;;
           if static then Os.Return cfg
           else Os.Throw Os.NotADirectoryError
      else Os.Throw Os.NotADirectoryError
  end.

(** * The vocabulary of the statements *)

(** The final path segment, in the sense of [PurePosixPath]: the last
    segment between ['/'] that is neither empty nor ["."]; a trailing
    ['/'] or ["/."] does not start a new one. *)
Definition final_segment (p : str) : str :=
  last (filter Pathlib.kept (Py.split Py.C_SLASH p)) [].

(** The scheme tokens. *)
Definition is_token (tok : str) : Prop :=
  tok = lit "http://" \/ tok = lit "https://".

(** [s] starts with a URL: a token with a URL character after it. *)
Definition starts_url (s : str) : Prop :=
  exists tok c rest, is_token tok /\ url_char c = true /\ s = tok ++ c :: rest.

(** The URL occurrences of a text, from left to right.  An occurrence is a
    token followed by a run of characters other than white space, ['('] and
    [')'] that has at least one character and is as long as possible; it
    starts at the first position after the previous occurrence where a URL
    starts. *)
Inductive Located : str -> list str -> Prop :=
| Located_nil (text : str) :
    (forall pre suf, text = pre ++ suf -> ~ starts_url suf) ->
    Located text []
| Located_cons (pre tok run rest : str) (urls : list str) :
    is_token tok ->
    run <> [] ->
    Forall (fun c => url_char c = true) run ->
    (forall c rest', rest = c :: rest' -> url_char c = false) ->
    (forall a b, pre = a ++ b -> b <> [] ->
                 ~ starts_url (b ++ tok ++ run ++ rest)) ->
    Located rest urls ->
    Located (pre ++ tok ++ run ++ rest) ((tok ++ run) :: urls).

(** The longest run of URL characters at the start of [s], and what
    follows it. *)
Fixpoint take_run (s : str) : str :=
  match s with
  | c :: t => if url_char c then c :: take_run t else []
  | [] => []
  end.

Fixpoint drop_run (s : str) : str :=
  match s with
  | c :: t => if url_char c then drop_run t else s
  | [] => []
  end.

(** The Unicode scalar values: the code points that are not surrogates. *)
Definition scalar (c : char) : Prop :=
  c < 0xD800 \/ (0xDFFF < c /\ c < 0x110000).

(** What [quote_plus] writes for a byte. *)
Definition qp_byte (b : N) : str :=
  if Urllib.always_safe b then [b]
  else if b =? 32 then [43]
  else [37; Urllib.hex_digit (b / 16); Urllib.hex_digit (b mod 16)].

(** The characters [quote_plus] writes: the safe ones, ['+'] and ['%']. *)
Definition quoted_char (c : char) : bool :=
  Urllib.always_safe c || (c =? 43) || (c =? 37).

(** [f] is the field [urlencode] writes for the entry [kv]. *)
Definition encodes (kv : str * str) (f : str) : Prop :=
  exists qk qv, Urllib.quote_plus (fst kv) = Ok qk
                /\ Urllib.quote_plus (snd kv) = Ok qv
                /\ f = qk ++ lit "=" ++ qv.

(** A field of a query without a value: [name=] or a bare [name]. *)
Definition blank_field (f : str) : Prop :=
  ~ In Py.C_EQ f \/ exists name, ~ In Py.C_EQ name /\ f = name ++ lit "=".

(** A string without tab, line feed and carriage return, which [urlsplit]
    removes. *)
Definition clean (s : str) : Prop :=
  Forall (fun c => c <> Py.C_TAB /\ c <> Py.C_LF /\ c <> Py.C_CR) s.

(** A scheme as [urlsplit] returns it: empty, or a lowercase letter
    followed by lowercase letters, digits, ['+'], ['-'] and ['.']. *)
Definition scheme_wf (s : str) : Prop :=
  match s with
  | [] => True
  | c :: _ =>
      Py.islower_ascii c = true
      /\ Forall (fun x => Urllib.scheme_char x = true
                          /\ Py.isupper_ascii x = false) s
  end.

(** The characters that end the authority. *)
Definition netloc_stop (c : char) : bool :=
  (c =? Py.C_SLASH) || (c =? Py.C_QUEST) || (c =? Py.C_HASH).

(** The authorities [urlsplit] accepts: brackets come in pairs and hold
    an IPv6 or IPvFuture address, and NFKC normalisation brings in no
    delimiter. *)
Definition netloc_accepted (netloc : str) : bool :=
  let open := Py.contains Py.C_LBRACK netloc in
  let close := Py.contains Py.C_RBRACK netloc in
  negb ((open && negb close) || (close && negb open))
  && negb (open && close && negb (Urllib.bracketed_netloc_ok netloc))
  && Urllib.checknetloc_ok netloc.

(** The path with its parameters, as [urlunparse] writes them. *)
Definition with_params (path params : str) : str :=
  if Py.is_empty params then path else path ++ Py.C_SEMI :: params.

(** The path and the parameters [urlparse] reads. *)
Definition split_params (scheme url : str) : str * str :=
  if Urllib.mem scheme Urllib.uses_params && Py.contains Py.C_SEMI url
  then Urllib.splitparams url
  else (url, []).

(** A URL with an authority, written out. *)
Definition assemble (scheme netloc url query fragment : str) : str :=
  (if Py.is_empty scheme then [] else scheme ++ [Py.C_COLON])
  ++ Py.C_SLASH :: Py.C_SLASH :: netloc ++ url
  ++ (if Py.is_empty query then [] else Py.C_QUEST :: query)
  ++ (if Py.is_empty fragment then [] else Py.C_HASH :: fragment).

(** The components of a URL with an authority, as [urlsplit] returns them
    and as it reads them back. *)
Record split_wf (scheme netloc url query fragment : str) : Prop := {
  wf_scheme : scheme_wf scheme;
  wf_netloc_nonempty : netloc <> [];
  wf_netloc_chars : Forall (fun c => netloc_stop c = false) netloc;
  wf_netloc_accepted : netloc_accepted netloc = true;
  wf_url_root : url = [] \/ exists url', url = Py.C_SLASH :: url';
  wf_url_quest : ~ In Py.C_QUEST url;
  wf_url_hash : ~ In Py.C_HASH url;
  wf_query_hash : ~ In Py.C_HASH query;
  wf_clean_scheme : clean scheme;
  wf_clean_netloc : clean netloc;
  wf_clean_url : clean url;
  wf_clean_query : clean query;
  wf_clean_fragment : clean fragment
}.

(** A parsed URL with an authority, as [urlparse] returns it. *)
Definition parsed_wf (p : Urllib.ParseResult) : Prop :=
  split_wf (Urllib.scheme p) (Urllib.netloc p)
           (with_params (Urllib.path p) (Urllib.params p))
           (Urllib.query p) (Urllib.fragment p)
  /\ split_params (Urllib.scheme p)
                  (with_params (Urllib.path p) (Urllib.params p))
     = (Urllib.path p, Urllib.params p).

(** A text without lone surrogates: every character is a Unicode scalar
    value. *)
Definition well_formed (s : str) : Prop := Forall scalar s.

(** The directory [k] levels above [d]. *)
Definition ancestor (d : Path.t) (k : nat) : Path.t :=
  Nat.iter k Path.parent d.

(** A file system for the instances: a blog in [/home/u/blog] with its
    configuration file, no links, and the working directory two levels
    below the blog. *)
Definition demo_dirs : list str :=
  map lit ["/"; "/home"; "/home/u"; "/home/u/blog"; "/home/u/blog/posts";
           "/home/u/blog/posts/draft"; "/home/u/blog/static"]%string.

Definition demo_files : list (str * str) :=
  [(lit "/home/u/blog/jupyblog.yaml",
    lit "path_to_posts: posts; path_to_static: static")].

Definition demo_fs : Os.filesystem := {|
  Os.getcwd := Os.Return (lit "/home/u/blog/posts/draft");
  Os.resolve := fun p => Os.Return p;
  Os.exists_ := fun p =>
    Os.Return (Urllib.mem (Path.to_str p) (demo_dirs ++ map fst demo_files));
  Os.is_dir := fun p => Os.Return (Urllib.mem (Path.to_str p) demo_dirs);
  Os.is_file := fun p =>
    Os.Return (Urllib.mem (Path.to_str p) (map fst demo_files));
  Os.read_text := fun p =>
    match Dict.get (Path.to_str p) demo_files with
    | Some text => Os.Return text
    | None => Os.Throw Os.FileNotFoundError
    end
|}.

(** The configuration the file of [demo_fs] stands for. *)
Definition demo_make_config (text root : str) : Os.outcome Config.t :=
  Os.Return (Config.mk root (lit "posts") (lit "static") [] None false
                       None None).

(** An import system for the instances: a module is its name, and an
    attribute its dotted name. *)
Definition demo_importer : Os.importer str str := {|
  Os.find_and_load := fun name => Os.Return name;
  Os.getattr := fun m attr => Os.Return (m ++ Py.C_DOT :: attr)
|}.

(** [k in s]: the string [k] occurs in [s]. *)
Fixpoint occursb (k s : str) : bool :=
  Py.startswith k s
  || match s with
     | [] => false
     | _ :: s' => occursb k s'
     end.

(** A text as words, each with the character that follows it, and a last
    word. *)
Definition spaced (items : list (str * char)) (last : str) : str :=
  fold_right (fun wc text => fst wc ++ snd wc :: text) last items.

(** A word that is a URL: a token and a run of URL characters. *)
Definition url_word (w : str) : Prop :=
  exists tok run,
    is_token tok /\ run <> []
    /\ Forall (fun c => url_char c = true) run
    /\ w = tok ++ run.

(** The URL parses and its path is an image. *)
Definition is_image_url (u : str) : bool :=
  match Urllib.urlparse u with
  | Ok p => is_image (Urllib.path p)
  | Raise _ => false
  end.

(** What becomes of a word: a word without a URL and an image stay, and
    a URL written the way [geturl] writes it is annotated. *)
Definition word_rewritten (source medium campaign w new : str) : Prop :=
  (find_urls w = [] /\ new = w)
  \/ (url_word w /\ is_image_url w = true /\ new = w)
  \/ (url_word w /\ is_image_url w = false
      /\ exists p, Urllib.urlparse w = Ok p
                   /\ Urllib.geturl p = w
                   /\ add_utm_to_url (UrlParsed p) source medium campaign
                      = Ok new).

(** The words of such a text. *)
Definition words (items : list (str * char)) (last : str) : list str :=
  map fst items ++ [last].

(** The loop of [add_utm_to_all_urls] over the mapping. *)
Definition replace_all (mapping : Dict.t) (text : str) : str :=
  fold_left (fun text on => Py.replace (fst on) (snd on) text) mapping text.

(** The mapping of [add_utm_to_all_urls] when the URLs of the text that
    are not images are written the way [geturl] writes them and [g] gives
    their annotated form. *)
Definition url_mapping (g : str -> str) (text : str) : Dict.t :=
  Dict.of_pairs
    (map (fun u => (u, g u))
         (filter (fun u => negb (is_image_url u)) (find_urls text))).

(** White space: the code points that [\s] matches in a [str] pattern. *)
Definition white_space : list char :=
  [9; 10; 11; 12; 13; 28; 29; 30; 31; 32; 133; 160; 5760;
   8192; 8193; 8194; 8195; 8196; 8197; 8198; 8199; 8200; 8201; 8202;
   8232; 8233; 8239; 8287; 12288].

(** The characters that end a URL: white space, ['('] and [')']. *)
Definition ends_url (c : char) : Prop :=
  In c white_space \/ c = ch "("%char \/ c = ch ")"%char.

(** [s] starts with an occurrence: [http://] or [https://] and, after it,
    a character that does not end a URL. *)
Definition occurrence_start (s : str) : Prop :=
  exists tok c rest,
    (tok = lit "http://" \/ tok = lit "https://")
    /\ ~ ends_url c /\ s = tok ++ c :: rest.

(** The occurrences of URLs in a text, from left to right.  An occurrence
    is [http://] or [https://] followed by a run of characters that do not
    end a URL; the run has at least one character and goes on as far as
    it can.  The first occurrence starts at the first position of the
    text where one can start, and the next ones are those of the text
    after it: occurrences do not overlap. *)
Inductive Occurrences : str -> list str -> Prop :=
| Occurrences_nil (text : str) :
    (forall pre suf, text = pre ++ suf -> ~ occurrence_start suf) ->
    Occurrences text []
| Occurrences_cons (pre tok run rest : str) (urls : list str) :
    tok = lit "http://" \/ tok = lit "https://" ->
    run <> [] ->
    Forall (fun c => ~ ends_url c) run ->
    (forall c rest', rest = c :: rest' -> ends_url c) ->
    (forall a b, pre = a ++ b -> b <> [] ->
                 ~ occurrence_start (b ++ tok ++ run ++ rest)) ->
    Occurrences rest urls ->
    Occurrences (pre ++ tok ++ run ++ rest) ((tok ++ run) :: urls).

(** What may follow the segment that names a path: any number of ["/"] and
    ["/."]. *)
Inductive Trailing : str -> Prop :=
| Trailing_nil : Trailing []
| Trailing_slash (t : str) : Trailing t -> Trailing (t ++ lit "/")
| Trailing_dot (t : str) : Trailing t -> Trailing (t ++ lit "/.").

(** * Properties *)

(** ** Strings *)

Section StrLemmas.

Lemma eqb_eq (a b : str) : Py.eqb a b = true <-> a = b.
Proof.
  revert b; induction a as [|x a IH]; intros [|y b]; simpl;
    try (split; [discriminate | congruence]); [tauto|].
  rewrite andb_true_iff, N.eqb_eq, IH.
  split; [intros [-> ->] | intros [= -> ->]]; auto.
Qed.

Lemma eqb_refl (a : str) : Py.eqb a a = true.
Proof. apply eqb_eq; reflexivity. Qed.

Lemma eqb_neq (a b : str) : Py.eqb a b = false <-> a <> b.
Proof.
  rewrite <- eqb_eq. destruct (Py.eqb a b); split; congruence.
Qed.

Lemma contains_In (c : char) (s : str) : Py.contains c s = true <-> In c s.
Proof.
  unfold Py.contains. rewrite existsb_exists. split.
  - intros (x & Hx & E). apply N.eqb_eq in E. subst; auto.
  - intros H. exists c. split; auto. apply N.eqb_refl.
Qed.

Lemma contains_app (c : char) (a b : str) :
  Py.contains c (a ++ b) = Py.contains c a || Py.contains c b.
Proof. unfold Py.contains. apply existsb_app. Qed.

Lemma contains_false (c : char) (s : str) :
  Py.contains c s = false <-> ~ In c s.
Proof.
  rewrite <- contains_In. destruct (Py.contains c s); split; congruence.
Qed.

Lemma startswith_app (p s : str) : Py.startswith p (p ++ s) = true.
Proof.
  induction p as [|x p IH]; simpl; auto. rewrite N.eqb_refl; auto.
Qed.

Lemma startswith_iff (p s : str) :
  Py.startswith p s = true <-> exists r, s = p ++ r.
Proof.
  split.
  - revert s; induction p as [|x p IH]; intros s H; simpl in *.
    + exists s; auto.
    + destruct s as [|y s]; [discriminate|].
      apply andb_true_iff in H as [E H]. apply N.eqb_eq in E. subst y.
      destruct (IH _ H) as [r ->]. exists r; auto.
  - intros [r ->]. apply startswith_app.
Qed.

Lemma endswith_iff (p s : str) :
  Py.endswith p s = true <-> exists r, s = r ++ p.
Proof.
  unfold Py.endswith. rewrite startswith_iff. split.
  - intros [r H]. exists (rev r).
    rewrite <- (rev_involutive s), H, rev_app_distr, rev_involutive; auto.
  - intros [r ->]. exists (rev r). apply rev_app_distr.
Qed.

Lemma split_nonempty (c : char) (s : str) : Py.split c s <> [].
Proof.
  induction s as [|x s IH]; simpl; [discriminate|].
  destruct (x =? c); [discriminate|].
  destruct (Py.split c s); [congruence | discriminate].
Qed.

Lemma split_cons_sep (c : char) (s : str) :
  Py.split c (c :: s) = [] :: Py.split c s.
Proof. simpl. rewrite N.eqb_refl. reflexivity. Qed.

Lemma split_cons_other (c x : char) (s : str) :
  x <> c ->
  Py.split c (x :: s) = (x :: hd [] (Py.split c s)) :: tl (Py.split c s).
Proof.
  intros Hx. simpl. apply N.eqb_neq in Hx. rewrite Hx.
  pose proof (split_nonempty c s).
  destruct (Py.split c s); [congruence | reflexivity].
Qed.

Lemma split_no_sep (c : char) (s : str) :
  ~ In c s -> Py.split c s = [s].
Proof.
  induction s as [|x s IH]; intros H; simpl; auto.
  destruct (N.eqb_spec x c) as [->|Hx]; [exfalso; apply H; left; auto|].
  rewrite IH; auto. intros Hc; apply H; right; auto.
Qed.

(** Splitting [a ++ c :: b] at [c] splits [a] and [b]. *)
Lemma split_app_sep (c : char) (a b : str) :
  Py.split c (a ++ c :: b) = Py.split c a ++ Py.split c b.
Proof.
  induction a as [|x a IH].
  - simpl. rewrite N.eqb_refl. reflexivity.
  - simpl. destruct (x =? c); [rewrite IH; reflexivity|].
    rewrite IH. pose proof (split_nonempty c a).
    destruct (Py.split c a); [congruence | reflexivity].
Qed.

(** Splitting [a ++ b] when [a] has no separator. *)
Lemma split_app_no_sep (c : char) (a b : str) :
  ~ In c a ->
  Py.split c (a ++ b) = (a ++ hd [] (Py.split c b)) :: tl (Py.split c b).
Proof.
  induction a as [|x a IH]; intros H.
  - simpl. pose proof (split_nonempty c b).
    destruct (Py.split c b); [congruence | reflexivity].
  - simpl app. rewrite split_cons_other by (intros ->; apply H; left; auto).
    rewrite IH by (intros Hc; apply H; right; auto). reflexivity.
Qed.

Lemma partition_not_found (c : char) (s : str) :
  ~ In c s -> Py.partition c s = (s, false, []).
Proof.
  induction s as [|x s IH]; intros H; simpl; auto.
  destruct (N.eqb_spec x c) as [->|Hx]; [exfalso; apply H; left; auto|].
  rewrite IH; auto. intros Hc; apply H; right; auto.
Qed.

Lemma partition_found (c : char) (a b : str) :
  ~ In c a -> Py.partition c (a ++ c :: b) = (a, true, b).
Proof.
  induction a as [|x a IH]; intros H; simpl.
  - rewrite N.eqb_refl; auto.
  - destruct (N.eqb_spec x c) as [->|Hx]; [exfalso; apply H; left; auto|].
    rewrite IH; auto. intros Hc; apply H; right; auto.
Qed.

(** What [partition] returns describes the string. *)
Lemma partition_spec (c : char) (s a b : str) (f : bool) :
  Py.partition c s = (a, f, b) ->
  ~ In c a /\ (if f then s = a ++ c :: b else s = a /\ b = []).
Proof.
  revert a b f; induction s as [|x s IH]; intros a b f; simpl.
  - intros [= <- <- <-]. auto.
  - destruct (N.eqb_spec x c) as [->|Hx].
    + intros [= <- <- <-]. auto.
    + destruct (Py.partition c s) as [[a' f'] b'] eqn:E.
      intros [= <- <- <-]. destruct (IH _ _ _ eq_refl) as [Ha Hs].
      split; [intros [?|?]; congruence|].
      destruct f'; [rewrite Hs; auto | destruct Hs as [-> ->]; auto].
Qed.

Lemma rsplit_last_app (c : char) (a b : str) :
  ~ In c b -> Urllib.rsplit_last c (a ++ c :: b) = Some (a, b).
Proof.
  intros Hb.
  assert (H0 : Urllib.rsplit_last c b = None).
  { induction b as [|x b IH]; simpl; auto.
    rewrite IH by (intros H; apply Hb; right; auto).
    destruct (N.eqb_spec x c) as [->|]; auto.
    exfalso. apply Hb. left; auto. }
  induction a as [|x a IH]; simpl.
  - rewrite H0, N.eqb_refl. reflexivity.
  - rewrite IH. reflexivity.
Qed.

Lemma rsplit_last_spec (c : char) (s : str) :
  match Urllib.rsplit_last c s with
  | Some (a, b) => s = a ++ c :: b /\ ~ In c b
  | None => ~ In c s
  end.
Proof.
  induction s as [|x s IH]; simpl; auto.
  destruct (Urllib.rsplit_last c s) as [[a b]|].
  - destruct IH as [-> Hb]. auto.
  - destruct (N.eqb_spec x c) as [->|Hx]; auto.
    intros [E|H]; auto.
Qed.

End StrLemmas.

(** ** The image classifier *)

Section ImageClassifier.

Lemma kept_split_lstrip (p : str) :
  filter Pathlib.kept (Py.split Py.C_SLASH (Py.lstrip (N.eqb Py.C_SLASH) p))
  = filter Pathlib.kept (Py.split Py.C_SLASH p).
Proof.
  induction p as [|x p IH]; auto.
  cbn [Py.lstrip].
  destruct (N.eqb_spec Py.C_SLASH x) as [<-|Hx]; auto.
Qed.

Lemma last_cons_nonempty {A : Type} (x : A) (l : list A) (d : A) :
  l <> [] -> last (x :: l) d = last l d.
Proof. destruct l; [congruence | reflexivity]. Qed.

(** [PurePosixPath(p).name] is the final segment of [p]. *)
Lemma name_final_segment (p : str) : Pathlib.name p = final_segment p.
Proof.
  unfold Pathlib.name, Pathlib.parse_parts, final_segment.
  destruct p as [|c p']; [reflexivity|].
  set (p := c :: p').
  assert (Hroot : forall root : str, root <> [] ->
    (if Nat.eqb (length (root :: filter Pathlib.kept (Py.split Py.C_SLASH
                              (Py.lstrip (N.eqb Py.C_SLASH) p)))) 1
     then []
     else last (root :: filter Pathlib.kept (Py.split Py.C_SLASH
                              (Py.lstrip (N.eqb Py.C_SLASH) p))) [])
    = last (filter Pathlib.kept (Py.split Py.C_SLASH p)) []).
  { intros root _. rewrite kept_split_lstrip.
    destruct (filter Pathlib.kept (Py.split Py.C_SLASH p)) eqn:E; auto. }
  unfold Pathlib.splitroot, p at 1.
  destruct (c =? Py.C_SLASH).
  - fold p. destruct (Nat.eqb _ 2); apply Hroot; discriminate.
  - fold p. destruct (filter Pathlib.kept (Py.split Py.C_SLASH p)); auto.
Qed.

Lemma is_image_iff (p : str) :
  is_image p = true <->
  exists suffix, In suffix image_suffixes
                 /\ Py.endswith (Py.C_DOT :: suffix) (final_segment p) = true.
Proof.
  unfold is_image. rewrite name_final_segment, existsb_exists. tauto.
Qed.

Lemma final_segment_last (dir seg : str) :
  ~ In Py.C_SLASH seg -> Pathlib.kept seg = true ->
  final_segment (dir ++ Py.C_SLASH :: seg) = seg.
Proof.
  intros Hs Hk. unfold final_segment.
  rewrite split_app_sep, (split_no_sep _ seg Hs), filter_app. simpl.
  rewrite Hk. apply last_last.
Qed.

Lemma final_segment_single (seg : str) :
  ~ In Py.C_SLASH seg -> Pathlib.kept seg = true -> final_segment seg = seg.
Proof.
  intros Hs Hk. unfold final_segment.
  rewrite (split_no_sep _ seg Hs). simpl. rewrite Hk. reflexivity.
Qed.

End ImageClassifier.

Section NamedSegment.

Lemma final_segment_dropped (p tail : str) :
  ~ In Py.C_SLASH tail -> Pathlib.kept tail = false ->
  final_segment (p ++ Py.C_SLASH :: tail) = final_segment p.
Proof.
  intros Hs Hk. unfold final_segment.
  rewrite split_app_sep, (split_no_sep _ tail Hs), filter_app.
  cbn [filter]. rewrite Hk, app_nil_r. reflexivity.
Qed.

Lemma is_image_dropped (p tail : str) :
  ~ In Py.C_SLASH tail -> Pathlib.kept tail = false ->
  is_image (p ++ Py.C_SLASH :: tail) = is_image p.
Proof.
  intros Hs Hk. unfold is_image.
  rewrite !name_final_segment, final_segment_dropped; auto.
Qed.

Lemma kept_iff (seg : str) :
  Pathlib.kept seg = true <-> seg <> [] /\ seg <> lit ".".
Proof.
  unfold Pathlib.kept. destruct seg as [|c seg].
  - split; [discriminate | intros [H _]; congruence].
  - rewrite negb_true_iff, eqb_neq. split.
    + intros H. split; [discriminate | exact H].
    + intros [_ H]. exact H.
Qed.

Lemma not_kept (seg : str) :
  Pathlib.kept seg = false -> seg = [] \/ seg = lit ".".
Proof.
  unfold Pathlib.kept. destruct seg as [|c seg]; [auto|].
  rewrite negb_false_iff, eqb_eq. auto.
Qed.

(** The segment that names the path is followed by nothing but ["/"] and
    ["/."], and stands at the start of the path or after a ['/']. *)
Lemma final_segment_found (n : nat) (p seg : str) :
  (length p <= n)%nat ->
  final_segment p = seg -> seg <> [] ->
  exists dir tail,
    p = dir ++ seg ++ tail
    /\ (dir = [] \/ exists d, dir = d ++ lit "/")
    /\ Trailing tail
    /\ ~ In Py.C_SLASH seg.
Proof.
  revert p. induction n as [|n IH]; intros p Hn E Hseg.
  - destruct p; [|simpl in Hn; lia].
    exfalso. apply Hseg. rewrite <- E. reflexivity.
  - pose proof (rsplit_last_spec Py.C_SLASH p) as S.
    destruct (Urllib.rsplit_last Py.C_SLASH p) as [[a b]|].
    + destruct S as [-> Hb]. destruct (Pathlib.kept b) eqn:Hk.
      * rewrite final_segment_last in E by auto. subst b.
        exists (a ++ lit "/"), []. rewrite app_nil_r, <- app_assoc.
        repeat split; eauto using Trailing_nil.
      * rewrite final_segment_dropped in E by auto.
        destruct (IH a) as (dir & tail & -> & Hd & Ht & Hs); auto.
        { rewrite length_app in Hn. simpl in Hn. lia. }
        exists dir, (tail ++ Py.C_SLASH :: b). rewrite <- !app_assoc.
        repeat split; auto.
        destruct (not_kept b Hk) as [-> | ->].
        -- apply (Trailing_slash tail Ht).
        -- apply (Trailing_dot tail Ht).
    + destruct (Pathlib.kept p) eqn:Hk.
      * rewrite final_segment_single in E by auto. subst p.
        exists [], []. rewrite app_nil_r. repeat split; auto using Trailing_nil.
      * exfalso. apply Hseg. rewrite <- E.
        destruct (not_kept p Hk) as [-> | ->]; reflexivity.
Qed.

Lemma final_segment_trailing (dir seg tail : str) :
  Trailing tail ->
  dir = [] \/ (exists d, dir = d ++ lit "/") ->
  ~ In Py.C_SLASH seg -> seg <> [] -> seg <> lit "." ->
  final_segment (dir ++ seg ++ tail) = seg.
Proof.
  intros Ht Hd Hs Hne Hdot.
  assert (Hk : Pathlib.kept seg = true) by (apply kept_iff; auto).
  induction Ht as [|t _ IH|t _ IH].
  - rewrite app_nil_r. destruct Hd as [-> | [d ->]].
    + apply final_segment_single; auto.
    + rewrite <- app_assoc. apply final_segment_last; auto.
  - replace (dir ++ seg ++ t ++ lit "/")
      with ((dir ++ seg ++ t) ++ Py.C_SLASH :: [])
      by (rewrite <- !app_assoc; reflexivity).
    rewrite final_segment_dropped; [exact IH | intros [] | reflexivity].
  - replace (dir ++ seg ++ t ++ lit "/.")
      with ((dir ++ seg ++ t) ++ Py.C_SLASH :: [Py.C_DOT])
      by (rewrite <- !app_assoc; reflexivity).
    rewrite final_segment_dropped; [exact IH | | reflexivity].
    intros [H|[]]. discriminate H.
Qed.

Lemma suffix_plain (suffix : str) :
  In suffix image_suffixes -> suffix <> [] /\ ~ In Py.C_SLASH suffix.
Proof.
  unfold image_suffixes. cbn [map In].
  intros H. repeat (destruct H as [<-|H]; [split; [discriminate|]|]);
    try (intros Hin; cbn [lit In] in Hin;
         repeat (destruct Hin as [Hin|Hin]; [discriminate Hin|]);
         exact Hin).
  destruct H.
Qed.

End NamedSegment.

(** C8, amended.  [is_image p] holds exactly when the last segment of [p]
    that is neither empty nor ["."] ends with ['.'] followed by one of
    [png], [jpg], [jpeg], [svg], [webp], [gif]: the path is a directory
    part, empty or ending in ['/'], then [stem.suffix] without a ['/'],
    then nothing but ["/"] and ["/."].  The comparison is
    case-sensitive, and what stands before the segment is irrelevant: a
    suffix carried by a directory before it does not make an image. *)
Theorem C8_is_image_named_segment :
  (forall p : str,
      is_image p = true <->
      exists dir stem suffix tail,
        In suffix (map lit ["png"; "jpg"; "jpeg"; "svg"; "webp"; "gif"]%string)
        /\ p = dir ++ (stem ++ lit "." ++ suffix) ++ tail
        /\ ~ In (ch "/"%char) stem
        /\ (dir = [] \/ exists d, dir = d ++ lit "/")
        /\ Trailing tail)
  /\ (forall dir seg : str,
         ~ In (ch "/"%char) seg -> seg <> [] -> seg <> lit "." ->
         is_image (dir ++ lit "/" ++ seg) = is_image seg)
  /\ is_image (lit "/a.PNG") = false
  /\ is_image (lit "/a.png/b") = false.
Proof.
  split; [|split; [|split; reflexivity]].
  - intros p. rewrite is_image_iff. split.
    + intros (suffix & Hin & He). apply endswith_iff in He as [stem He].
      destruct (final_segment_found (length p) p _ (le_n _) He)
        as (dir & tail & Ep & Hd & Ht & Hs).
      { destruct stem; discriminate. }
      exists dir, stem, suffix, tail. repeat split; auto.
      intros H. apply Hs. apply in_or_app. left. exact H.
    + intros (dir & stem & suffix & tail & Hin & -> & Hs & Hd & Ht).
      exists suffix. split; [exact Hin|].
      destruct (suffix_plain suffix Hin) as [Hne Hsl].
      rewrite final_segment_trailing; auto.
      * apply endswith_iff. exists stem. reflexivity.
      * intros H. apply in_app_or in H as [H|H]; [exact (Hs H)|].
        destruct H as [H|H]; [discriminate H | exact (Hsl H)].
      * destruct stem; discriminate.
      * destruct stem as [|x stem]; [|destruct stem; discriminate].
        destruct suffix; [congruence | discriminate].
  - intros dir seg Hs Hne Hdot.
    assert (Hk : Pathlib.kept seg = true) by (apply kept_iff; auto).
    unfold is_image. rewrite !name_final_segment.
    change (dir ++ lit "/" ++ seg) with (dir ++ Py.C_SLASH :: seg).
    rewrite final_segment_last, final_segment_single; auto.
Qed.

(** ** The URL locator *)

Section Locator.

Arguments url_char : simpl never.

Lemma take_drop_run (s : str) : take_run s ++ drop_run s = s.
Proof.
  induction s as [|c t IH]; simpl; auto.
  destruct (url_char c); simpl; congruence.
Qed.

Lemma take_run_all (s : str) : Forall (fun c => url_char c = true) (take_run s).
Proof.
  induction s as [|c t IH]; simpl; auto.
  destruct (url_char c) eqn:E; auto.
Qed.

Lemma drop_run_stop (s : str) (c : char) (rest : str) :
  drop_run s = c :: rest -> url_char c = false.
Proof.
  induction s as [|x t IH]; simpl; [discriminate|].
  destruct (url_char x) eqn:E; auto. intros [= -> _]. auto.
Qed.

Lemma take_run_app (run rest : str) :
  Forall (fun c => url_char c = true) run ->
  (forall c rest', rest = c :: rest' -> url_char c = false) ->
  take_run (run ++ rest) = run /\ drop_run (run ++ rest) = rest.
Proof.
  intros Hall Hstop. induction Hall as [|c run Hc _ IH]; simpl.
  - destruct rest as [|c rest']; auto. simpl.
    rewrite (Hstop c rest' eq_refl). auto.
  - rewrite Hc. destruct IH as [-> ->]. auto.
Qed.

(** The greedy loop of [x+] with nothing after it in the pattern. *)
Lemma more_run (s : str) : Re.more url_char Some s = Some (drop_run s).
Proof.
  induction s as [|c t IH]; simpl; auto.
  destruct (url_char c); auto. rewrite IH. reflexivity.
Qed.

Lemma length_drop_run (s : str) :
  (length s - length (drop_run s))%nat = length (take_run s).
Proof.
  rewrite <- (take_drop_run s) at 1. rewrite length_app. lia.
Qed.

Lemma firstn_take_run (pre s : str) :
  firstn (length (pre ++ s) - length (drop_run s)) (pre ++ s)
  = pre ++ take_run s.
Proof.
  pose proof (take_drop_run s) as Hs.
  assert (L : (length (pre ++ s) - length (drop_run s))%nat
              = (length (pre ++ take_run s) + 0)%nat).
  { apply (f_equal (@length _)) in Hs. rewrite length_app in Hs.
    rewrite !length_app. lia. }
  rewrite L.
  replace (pre ++ s) with ((pre ++ take_run s) ++ drop_run s)
    by (rewrite <- app_assoc, Hs; reflexivity).
  rewrite firstn_app_2. simpl. apply app_nil_r.
Qed.

(** What the pattern matches at the start of a string. *)
Lemma match_prefix_url (tok : str) (c : char) (t : str) :
  is_token tok -> url_char c = true ->
  Re.match_prefix url_pattern (tok ++ c :: t) = Some (tok ++ c :: take_run t).
Proof.
  intros Htok Hc. unfold Re.match_prefix.
  assert (Hm : Re.match_items url_pattern Some (tok ++ c :: t)
               = Some (drop_run t)).
  { destruct Htok as [-> | ->]; cbn; rewrite Hc, more_run; reflexivity. }
  rewrite Hm.
  change (tok ++ c :: t) with (tok ++ [c] ++ t). rewrite app_assoc.
  rewrite firstn_take_run. rewrite <- app_assoc. reflexivity.
Qed.

Lemma match_items_starts_url (s r : str) :
  Re.match_items url_pattern Some s = Some r -> starts_url s.
Proof.
  unfold url_pattern, Re.chr. cbn [Re.match_items].
  repeat (destruct s as [|? s]; [discriminate|];
          match goal with
          | |- context [N.eqb ?k ?x] =>
              destruct (N.eqb_spec k x) as [<-|]; [|discriminate]
          end).
  destruct s as [|x s]; [discriminate|].
  destruct (N.eqb_spec 115 x) as [<-|Hx].
  - repeat (destruct s as [|? s]; [discriminate|];
          match goal with
          | |- context [N.eqb ?k ?x] =>
              destruct (N.eqb_spec k x) as [<-|]; [|discriminate]
          end).
    destruct s as [|c s]; [discriminate|].
    destruct (url_char c) eqn:Hc; [|discriminate].
    intros _. exists (lit "https://"), c, s. repeat split; auto.
    right; reflexivity.
  - destruct (N.eqb_spec 58 x) as [<-|]; [|discriminate].
    repeat (destruct s as [|? s]; [discriminate|];
          match goal with
          | |- context [N.eqb ?k ?x] =>
              destruct (N.eqb_spec k x) as [<-|]; [|discriminate]
          end).
    destruct s as [|c s]; [discriminate|].
    destruct (url_char c) eqn:Hc; [|discriminate].
    intros _. exists (lit "http://"), c, s. repeat split; auto.
    left; reflexivity.
Qed.

Lemma match_prefix_none (s : str) :
  ~ starts_url s -> Re.match_prefix url_pattern s = None.
Proof.
  intros H. unfold Re.match_prefix.
  destruct (Re.match_items url_pattern Some s) eqn:E; auto.
  exfalso. apply H. eapply match_items_starts_url; eauto.
Qed.

Lemma starts_url_dec (s : str) : {starts_url s} + {~ starts_url s}.
Proof.
  destruct (Re.match_items url_pattern Some s) eqn:E.
  - left. eapply match_items_starts_url; eauto.
  - right. intros (tok & c & t & Htok & Hc & ->).
    pose proof (match_prefix_url tok c t Htok Hc) as Hm.
    unfold Re.match_prefix in Hm. rewrite E in Hm. discriminate.
Qed.

Lemma findall_skip (p : Re.pattern) (a s : str) :
  Re.findall_from p (length a) (a ++ s) = Re.findall_from p O s.
Proof. induction a as [|x a IH]; simpl; auto. Qed.

Lemma findall_from_cons (p : Re.pattern) (x : char) (t : str) :
  Re.findall_from p O (x :: t)
  = match Re.match_prefix p (x :: t) with
    | Some m => m :: Re.findall_from p (length m - 1) t
    | None => Re.findall_from p O t
    end.
Proof. reflexivity. Qed.

Lemma findall_no_url (text : str) :
  (forall pre suf, text = pre ++ suf -> ~ starts_url suf) ->
  Re.findall_from url_pattern O text = [].
Proof.
  induction text as [|x t IH]; intros H.
  - cbn [Re.findall_from]. rewrite match_prefix_none; auto.
    apply (H [] []); reflexivity.
  - cbn [Re.findall_from]. rewrite match_prefix_none.
    + apply IH. intros pre suf ->. apply (H (x :: pre) suf). reflexivity.
    + apply (H [] (x :: t)). reflexivity.
Qed.

Lemma token_length (tok : str) :
  is_token tok -> exists h tok', tok = h :: tok'.
Proof. intros [-> | ->]; eexists _, _; reflexivity. Qed.

Lemma findall_at_url (tok run rest : str) :
  is_token tok -> run <> [] ->
  Forall (fun c => url_char c = true) run ->
  (forall c rest', rest = c :: rest' -> url_char c = false) ->
  Re.findall_from url_pattern O (tok ++ run ++ rest)
  = (tok ++ run) :: Re.findall_from url_pattern O rest.
Proof.
  intros Htok Hne Hall Hstop.
  destruct run as [|c run]; [congruence|].
  inversion Hall as [|? ? Hc Hall']; subst.
  destruct (take_run_app run rest Hall' Hstop) as [Htake _].
  destruct (token_length tok Htok) as (h & tok' & ->).
  change ((h :: tok') ++ (c :: run) ++ rest)
    with (h :: (tok' ++ (c :: run) ++ rest)).
  rewrite findall_from_cons.
  change (h :: (tok' ++ (c :: run) ++ rest))
    with ((h :: tok') ++ c :: (run ++ rest)).
  rewrite (match_prefix_url (h :: tok') c (run ++ rest) Htok Hc), Htake.
  f_equal.
  replace (length ((h :: tok') ++ c :: run) - 1)%nat
    with (length (tok' ++ c :: run)) by (simpl; lia).
  replace (tok' ++ (c :: run) ++ rest) with ((tok' ++ c :: run) ++ rest)
    by (rewrite <- app_assoc; reflexivity).
  apply findall_skip.
Qed.

(** The located occurrences are what [find_urls] returns. *)
Lemma located_find_urls (text : str) (urls : list str) :
  Located text urls -> find_urls text = urls.
Proof.
  unfold find_urls, Re.findall.
  induction 1 as [text H | pre tok run rest urls Htok Hne Hall Hstop Hleft _ IH].
  - apply findall_no_url; auto.
  - induction pre as [|x pre IHpre].
    + simpl app. rewrite findall_at_url by auto. rewrite IH. reflexivity.
    + cbn [app Re.findall_from]. rewrite match_prefix_none.
      * apply IHpre. intros a b -> Hb. apply (Hleft (x :: a) b); auto.
      * apply (Hleft [] (x :: pre)); [reflexivity | discriminate].
Qed.

(** Either no URL starts in [text], or there is a first place where one
    does. *)
Lemma first_url (text : str) :
  (forall pre suf, text = pre ++ suf -> ~ starts_url suf)
  \/ (exists pre suf, text = pre ++ suf /\ starts_url suf
        /\ forall a b, pre = a ++ b -> b <> [] -> ~ starts_url (b ++ suf)).
Proof.
  induction text as [|x t IH].
  - left. intros pre suf E. destruct pre, suf; try discriminate.
    intros (tok & c & r & _ & _ & E'). destruct tok; discriminate.
  - destruct (starts_url_dec (x :: t)) as [Hs | Hn].
    + right. exists [], (x :: t). repeat split; auto.
      intros a b E. destruct a, b; try discriminate. congruence.
    + destruct IH as [IH | (pre & suf & -> & Hs & Hleft)].
      * left. intros [|y pre] suf E.
        -- simpl in E. subst suf. auto.
        -- injection E as -> ->. apply (IH pre suf); reflexivity.
      * right. exists (x :: pre), suf. repeat split; auto.
        intros [|y a] b E Hb.
        -- simpl in E. subst b. exact Hn.
        -- injection E as -> ->. apply (Hleft a b); auto.
Qed.

Lemma located_exists (n : nat) (text : str) :
  (length text <= n)%nat -> exists urls, Located text urls.
Proof.
  revert text; induction n as [|n IH]; intros text Hlen.
  - exists []. apply Located_nil. intros pre suf ->.
    rewrite length_app in Hlen.
    intros (tok & c & r & Htok & _ & ->).
    destruct (token_length tok Htok) as (h & tok' & ->).
    simpl in Hlen. lia.
  - destruct (first_url text) as [Hno | (pre & suf & -> & Hs & Hleft)].
    + exists []. apply Located_nil; auto.
    + destruct Hs as (tok & c & t & Htok & Hc & ->).
      destruct (IH (drop_run t)) as [urls Hurls].
      { destruct (token_length tok Htok) as (h & tok' & ->).
        rewrite !length_app in Hlen. simpl in Hlen.
        rewrite <- (take_drop_run t), !length_app in Hlen. lia. }
      exists ((tok ++ c :: take_run t) :: urls).
      replace (pre ++ tok ++ c :: t)
        with (pre ++ tok ++ (c :: take_run t) ++ drop_run t)
        by (simpl; rewrite take_drop_run; reflexivity).
      apply Located_cons; auto.
      * discriminate.
      * constructor; auto. apply take_run_all.
      * intros c' r' E. eapply drop_run_stop; eauto.
      * intros a b E Hb. simpl. rewrite take_drop_run. apply (Hleft a b); auto.
Qed.

(** [find_urls] returns located occurrences. *)
Lemma find_urls_located (text : str) : Located text (find_urls text).
Proof.
  destruct (located_exists (length text) text (le_n _)) as [urls H].
  rewrite (located_find_urls _ _ H). exact H.
Qed.

End Locator.

Section Occurrence.

Lemma isspace_white_space (c : char) :
  Py.isspace c = true <-> In c white_space.
Proof.
  split.
  - unfold Py.isspace.
    rewrite !orb_true_iff, !andb_true_iff, !N.leb_le, !N.eqb_eq.
    intros H. unfold white_space. cbn [In]. lia.
  - unfold white_space. cbn [In]. intros H.
    repeat (destruct H as [<-|H]; [reflexivity|]). destruct H.
Qed.

Lemma url_char_ends (c : char) : url_char c = false <-> ends_url c.
Proof.
  unfold url_char, ends_url, Py.C_LPAR, Py.C_RPAR.
  rewrite negb_false_iff, !orb_true_iff, isspace_white_space, !N.eqb_eq.
  change (ch "("%char) with 40. change (ch ")"%char) with 41. tauto.
Qed.

Lemma url_char_not_ends (c : char) : url_char c = true <-> ~ ends_url c.
Proof.
  rewrite <- url_char_ends. destruct (url_char c); split; congruence.
Qed.

Lemma occurrence_start_iff (s : str) : occurrence_start s <-> starts_url s.
Proof.
  split; intros (tok & c & rest & Htok & Hc & E); exists tok, c, rest;
    (split; [exact Htok|]); (split; [|exact E]);
    apply url_char_not_ends; exact Hc.
Qed.

Lemma occurrences_located (text : str) (urls : list str) :
  Occurrences text urls <-> Located text urls.
Proof.
  split.
  - induction 1 as [text H | pre tok run rest urls Htok Hne Hall Hstop Hleft _ IH].
    + apply Located_nil. intros pre suf E Hs.
      apply (H pre suf E). apply occurrence_start_iff. exact Hs.
    + apply Located_cons; auto.
      * eapply Forall_impl; [|exact Hall]. intros c. apply url_char_not_ends.
      * intros c rest' E. apply url_char_ends. exact (Hstop c rest' E).
      * intros a b E Hb Hs. apply (Hleft a b E Hb).
        apply occurrence_start_iff. exact Hs.
  - induction 1 as [text H | pre tok run rest urls Htok Hne Hall Hstop Hleft _ IH].
    + apply Occurrences_nil. intros pre suf E Hs.
      apply (H pre suf E). apply occurrence_start_iff. exact Hs.
    + apply Occurrences_cons; auto.
      * eapply Forall_impl; [|exact Hall]. intros c. apply url_char_not_ends.
      * intros c rest' E. apply url_char_ends. exact (Hstop c rest' E).
      * intros a b E Hb Hs. apply (Hleft a b E Hb).
        apply occurrence_start_iff. exact Hs.
Qed.

End Occurrence.

(** C7, amended.  [find_urls] returns exactly the occurrences of URLs in the
    text, in their order and with duplicates: each is [http://] or
    [https://] followed by the longest run of characters other than white
    space, ['('] and [')'], with at least one character in the run, and
    each is looked for from the end of the one before, so that
    occurrences do not overlap. *)
Theorem C7_find_urls_occurrences (text : str) (urls : list str) :
  Occurrences text urls <-> find_urls text = urls.
Proof.
  rewrite occurrences_located. split; [apply located_find_urls|].
  intros <-. apply find_urls_located.
Qed.

(** ** Dictionaries *)

Section DictLemmas.

Lemma get_set_same (k v : str) (d : Dict.t) :
  Dict.get k (Dict.set k v d) = Some v.
Proof.
  induction d as [|[k' v'] d IH]; simpl.
  - rewrite eqb_refl; reflexivity.
  - destruct (Py.eqb k' k) eqn:E; simpl; rewrite E; auto.
Qed.

Lemma get_set_other (k k' v : str) (d : Dict.t) :
  k <> k' -> Dict.get k' (Dict.set k v d) = Dict.get k' d.
Proof.
  intros Hk. induction d as [|[k0 v0] d IH]; simpl.
  - apply eqb_neq in Hk. rewrite Hk; reflexivity.
  - destruct (Py.eqb k0 k) eqn:E; simpl.
    + apply eqb_eq in E. subst k0. apply eqb_neq in Hk. rewrite Hk; auto.
    + destruct (Py.eqb k0 k'); auto.
Qed.

Lemma keys_set (k v : str) (d : Dict.t) :
  Dict.keys (Dict.set k v d)
  = if existsb (Py.eqb k) (Dict.keys d) then Dict.keys d
    else Dict.keys d ++ [k].
Proof.
  induction d as [|[k0 v0] d IH]; simpl; auto.
  destruct (Py.eqb k0 k) eqn:E; simpl.
  - apply eqb_eq in E. subst k0. rewrite eqb_refl; reflexivity.
  - assert (E' : Py.eqb k k0 = false).
    { apply eqb_neq. apply eqb_neq in E. congruence. }
    rewrite E', IH. simpl. destruct (existsb _ _); reflexivity.
Qed.

Lemma mem_keys (k : str) (l : list str) :
  existsb (Py.eqb k) l = true <-> In k l.
Proof.
  rewrite existsb_exists. split.
  - intros (x & Hx & E). apply eqb_eq in E. subst; auto.
  - intros H. exists k. split; auto. apply eqb_refl.
Qed.

Lemma NoDup_keys_set (k v : str) (d : Dict.t) :
  NoDup (Dict.keys d) -> NoDup (Dict.keys (Dict.set k v d)).
Proof.
  intros H. rewrite keys_set.
  destruct (existsb (Py.eqb k) (Dict.keys d)) eqn:E; auto.
  apply NoDup_app; auto.
  - constructor; [intros []|constructor].
  - intros x Hx [<-|[]]. apply mem_keys in Hx. congruence.
Qed.

Lemma NoDup_keys_update (d : Dict.t) (pairs : list (str * str)) :
  NoDup (Dict.keys d) -> NoDup (Dict.keys (Dict.update d pairs)).
Proof.
  unfold Dict.update. revert d.
  induction pairs as [|[k v] pairs IH]; intros d H; simpl; auto.
  apply IH. apply NoDup_keys_set; auto.
Qed.

Lemma In_set (k v k' v' : str) (d : Dict.t) :
  In (k', v') (Dict.set k v d) -> (k', v') = (k, v) \/ In (k', v') d.
Proof.
  induction d as [|[k0 v0] d IH]; simpl.
  - intros [E|[]]; auto.
  - destruct (Py.eqb k0 k) eqn:E; simpl.
    + apply eqb_eq in E. subst k0. intros [E'|H]; auto.
    + intros [E'|H]; auto. destruct (IH H); auto.
Qed.

Lemma In_update (d : Dict.t) (pairs : list (str * str)) (kv : str * str) :
  In kv (Dict.update d pairs) -> In kv d \/ In kv pairs.
Proof.
  unfold Dict.update. revert d.
  induction pairs as [|[k v] pairs IH]; intros d; simpl; auto.
  intros H. destruct (IH _ H) as [H'|H']; auto.
  destruct kv as [k' v']. destruct (In_set _ _ _ _ _ H'); auto.
Qed.

Lemma In_get (k v : str) (d : Dict.t) :
  NoDup (Dict.keys d) -> (In (k, v) d <-> Dict.get k d = Some v).
Proof.
  induction d as [|[k0 v0] d IH]; simpl; intros H.
  - split; [intros [] | discriminate].
  - inversion H as [|? ? Hnot Hnd]; subst.
    destruct (Py.eqb k0 k) eqn:E.
    + apply eqb_eq in E. subst k0. split.
      * intros [[= ->]|Hin]; auto.
        exfalso. apply Hnot. apply (in_map fst) in Hin. exact Hin.
      * intros [= ->]. auto.
    + apply eqb_neq in E. rewrite <- (IH Hnd). split; auto.
      intros [[= ? ?]|Hin]; [congruence | auto].
Qed.

Lemma get_update_skip (k : str) (d : Dict.t) (pairs : list (str * str)) :
  ~ In k (map fst pairs) ->
  Dict.get k (Dict.update d pairs) = Dict.get k d.
Proof.
  unfold Dict.update. revert d.
  induction pairs as [|[k0 v0] pairs IH]; intros d H; simpl; auto.
  rewrite IH by (intros Hin; apply H; right; auto).
  apply get_set_other. intros ->. apply H. left; auto.
Qed.

(** The last assignment to a key is the one that counts. *)
Lemma get_update_last (k v : str) (d : Dict.t) (l1 l2 : list (str * str)) :
  ~ In k (map fst l2) ->
  Dict.get k (Dict.update d (l1 ++ (k, v) :: l2)) = Some v.
Proof.
  intros H. unfold Dict.update. rewrite fold_left_app. simpl.
  fold (Dict.update (Dict.set k v
          (fold_left (fun d kv => Dict.set (fst kv) (snd kv) d) l1 d)) l2).
  rewrite get_update_skip by auto. apply get_set_same.
Qed.

Lemma update_nil_dict (d : Dict.t) :
  NoDup (Dict.keys d) -> Dict.update [] d = d.
Proof.
  intros H. enough (G : forall d0, NoDup (Dict.keys (d0 ++ d)) ->
                          Dict.update d0 d = d0 ++ d).
  { apply (G []). exact H. }
  clear H. unfold Dict.update.
  induction d as [|[k v] d IH]; intros d0 H; simpl.
  - rewrite app_nil_r; reflexivity.
  - assert (E : Dict.set k v d0 = d0 ++ [(k, v)]).
    { unfold Dict.keys in H. rewrite map_app in H. simpl in H.
      apply NoDup_remove_2 in H.
      assert (Hk : ~ In k (map fst d0)) by (intros Hin; apply H, in_or_app; auto).
      clear - Hk. induction d0 as [|[k0 v0] d0 IH]; simpl; auto.
      destruct (Py.eqb k0 k) eqn:E.
      - apply eqb_eq in E. subst. exfalso. apply Hk. left; auto.
      - rewrite IH; auto. intros Hin; apply Hk; right; auto. }
    rewrite E, IH; rewrite <- app_assoc; auto.
Qed.

Lemma of_pairs_NoDup (pairs : list (str * str)) :
  NoDup (Dict.keys (Dict.of_pairs pairs)).
Proof. apply NoDup_keys_update. constructor. Qed.

Lemma merge_eq (a b : Dict.t) :
  NoDup (Dict.keys a) -> Dict.merge a b = Dict.update a b.
Proof. intros H. unfold Dict.merge. rewrite update_nil_dict; auto. Qed.

End DictLemmas.

(** ** The merged query parameters *)

Section Merged.

Variables (parsed : Urllib.ParseResult) (source medium campaign : str).

Lemma merged_params_eq :
  merged_params parsed source medium campaign
  = Dict.update (Dict.of_pairs (Urllib.parse_qsl (Urllib.query parsed)))
                (utm_params source medium campaign).
Proof. unfold merged_params. apply merge_eq, of_pairs_NoDup. Qed.

Lemma merged_NoDup :
  NoDup (Dict.keys (merged_params parsed source medium campaign)).
Proof. rewrite merged_params_eq. apply NoDup_keys_update, of_pairs_NoDup. Qed.

Lemma merged_get_utm :
  Dict.get (lit "utm_source") (merged_params parsed source medium campaign)
  = Some source
  /\ Dict.get (lit "utm_medium") (merged_params parsed source medium campaign)
     = Some medium
  /\ Dict.get (lit "utm_campaign") (merged_params parsed source medium campaign)
     = Some campaign.
Proof.
  rewrite merged_params_eq. unfold utm_params.
  repeat split.
  - apply (get_update_last _ _ _ []). simpl. intros [E|[E|[]]]; discriminate.
  - apply (get_update_last _ _ _ [_]). simpl. intros [E|[]]; discriminate.
  - apply (get_update_last _ _ _ [_; _]). simpl. intros [].
Qed.

(** An entry of the merged parameters is a tracking parameter or comes
    from the query. *)
Lemma merged_In (k v : str) :
  In (k, v) (merged_params parsed source medium campaign) ->
  In (k, v) (utm_params source medium campaign)
  \/ In (k, v) (Urllib.parse_qsl (Urllib.query parsed)).
Proof.
  rewrite merged_params_eq. intros H.
  apply In_update in H as [H|H]; auto.
  apply In_update in H as [[]|H]; auto.
Qed.

(** A query parameter that is not assigned again later, and that is not
    named like a tracking parameter, is in the merged parameters. *)
Lemma merged_get_last (l1 l2 : list (str * str)) (k v : str) :
  Urllib.parse_qsl (Urllib.query parsed) = l1 ++ (k, v) :: l2 ->
  ~ In k (map fst l2) ->
  ~ In k (map fst (utm_params source medium campaign)) ->
  Dict.get k (merged_params parsed source medium campaign) = Some v.
Proof.
  intros E H2 Hu. rewrite merged_params_eq, get_update_skip by auto.
  unfold Dict.of_pairs. rewrite E. apply get_update_last; auto.
Qed.

End Merged.


(** ** The UTF-8 codec and percent-encoding *)

Ltac btest :=
  repeat match goal with
  | |- context [N.ltb ?a ?b] =>
      first [ replace (N.ltb a b) with true by (symmetry; apply N.ltb_lt; lia)
            | replace (N.ltb a b) with false by (symmetry; apply N.ltb_ge; lia) ]
  | |- context [N.leb ?a ?b] =>
      first [ replace (N.leb a b) with true by (symmetry; apply N.leb_le; lia)
            | replace (N.leb a b) with false by (symmetry; apply N.leb_gt; lia) ]
  | |- context [N.eqb ?a ?b] =>
      first [ replace (N.eqb a b) with true by (symmetry; apply N.eqb_eq; lia)
            | replace (N.eqb a b) with false by (symmetry; apply N.eqb_neq; lia) ]
  end.

Lemma decode1 b rest : b < 0x80 -> Utf8.decode (b :: rest) = b :: Utf8.decode rest.
Proof. intros. cbn [Utf8.decode]. btest. reflexivity. Qed.

Lemma decode2 b b2 rest :
  0xC2 <= b -> b < 0xE0 -> 0x80 <= b2 -> b2 < 0xC0 ->
  Utf8.decode (b :: b2 :: rest) = (b * 64 + b2 - 0x3080) :: Utf8.decode rest.
Proof. intros. cbn [Utf8.decode]. unfold Utf8.is_continuation. btest. reflexivity. Qed.

Lemma decode3 b b2 b3 rest :
  0xE0 <= b -> b < 0xF0 -> 0x80 <= b2 -> b2 < 0xC0 -> 0x80 <= b3 -> b3 < 0xC0 ->
  (b = 0xE0 -> 0xA0 <= b2) -> (b = 0xED -> b2 < 0xA0) ->
  Utf8.decode (b :: b2 :: b3 :: rest) = (b * 4096 + b2 * 64 + b3 - 0xE2080) :: Utf8.decode rest.
Proof. intros. cbn [Utf8.decode]. unfold Utf8.is_continuation.
  destruct (N.ltb_spec b2 0xA0); btest; reflexivity. Qed.

Lemma decode4 b b2 b3 b4 rest :
  0xF0 <= b -> b < 0xF5 -> 0x80 <= b2 -> b2 < 0xC0 -> 0x80 <= b3 -> b3 < 0xC0 -> 0x80 <= b4 -> b4 < 0xC0 ->
  (b = 0xF0 -> 0x90 <= b2) -> (b = 0xF4 -> b2 < 0x90) ->
  Utf8.decode (b :: b2 :: b3 :: b4 :: rest) = (b * 262144 + b2 * 4096 + b3 * 64 + b4 - 0x3C82080) :: Utf8.decode rest.
Proof. intros. cbn [Utf8.decode]. unfold Utf8.is_continuation.
  destruct (N.ltb_spec b2 0x90); btest; reflexivity. Qed.

Lemma divmod64 (c : N) : c = 64 * (c / 64) + c mod 64 /\ c mod 64 < 64.
Proof. split; [apply N.div_mod; discriminate | apply N.mod_lt; discriminate]. Qed.


Lemma encode_char_cases (c : char) (bs : list N) :
  Utf8.encode_char c = Ok bs ->
  scalar c /\
  ((c < 0x80 /\ bs = [c])
   \/ (exists b b2, bs = [b; b2] /\ 0xC2 <= b < 0xE0 /\ 0x80 <= b2 < 0xC0
                    /\ b * 64 + b2 - 0x3080 = c)
   \/ (exists b b2 b3, bs = [b; b2; b3] /\ 0xE0 <= b < 0xF0
                       /\ 0x80 <= b2 < 0xC0 /\ 0x80 <= b3 < 0xC0
                       /\ (b = 0xE0 -> 0xA0 <= b2) /\ (b = 0xED -> b2 < 0xA0)
                       /\ b * 4096 + b2 * 64 + b3 - 0xE2080 = c)
   \/ (exists b b2 b3 b4, bs = [b; b2; b3; b4] /\ 0xF0 <= b < 0xF5
                       /\ 0x80 <= b2 < 0xC0 /\ 0x80 <= b3 < 0xC0
                       /\ 0x80 <= b4 < 0xC0
                       /\ (b = 0xF0 -> 0x90 <= b2) /\ (b = 0xF4 -> b2 < 0x90)
                       /\ b * 262144 + b2 * 4096 + b3 * 64 + b4 - 0x3C82080 = c)).
Proof.
  unfold Utf8.encode_char, scalar.
  replace (c / 262144) with (c / 64 / 64 / 64)
    by (rewrite !N.Div0.div_div; reflexivity).
  replace (c / 4096) with (c / 64 / 64)
    by (rewrite !N.Div0.div_div; reflexivity).
  destruct (divmod64 c) as [E1 R1].
  destruct (divmod64 (c / 64)) as [E2 R2].
  destruct (divmod64 (c / 64 / 64)) as [E3 R3].
  revert E1 R1 E2 R2 E3 R3.
  generalize (c mod 64) ((c / 64) mod 64) ((c / 64 / 64) mod 64) (c / 64 / 64 / 64).
  generalize (c / 64 / 64). generalize (c / 64).
  intros q1 q2 r1 r2 r3 q3 E1 R1 E2 R2 E3 R3.
  destruct (N.ltb_spec c 0x80).
  { intros [= <-]. split; [lia|]. left. split; auto. }
  destruct (N.ltb_spec c 0x800).
  { intros [= <-]. split; [lia|]. right; left. exists (0xC0 + q1), (0x80 + r1).
    split; [reflexivity | lia]. }
  destruct (N.leb_spec 0xD800 c); destruct (N.leb_spec c 0xDFFF);
    cbn [andb]; try discriminate; try lia.
  - destruct (N.ltb_spec c 0x10000).
    { intros [= <-]. split; [lia|]. right; right; left.
      exists (0xE0 + q2), (0x80 + r2), (0x80 + r1). split; [reflexivity | lia]. }
    destruct (N.ltb_spec c 0x110000); [|discriminate].
    intros [= <-]. split; [lia|]. right; right; right.
    exists (0xF0 + q3), (0x80 + r3), (0x80 + r2), (0x80 + r1).
    split; [reflexivity | lia].
  - destruct (N.ltb_spec c 0x10000); [|lia].
    intros [= <-]. split; [lia|]. right; right; left.
    exists (0xE0 + q2), (0x80 + r2), (0x80 + r1). split; [reflexivity | lia].
Qed.

Lemma decode_encode_char (c : char) (bs : list N) (rest : list N) :
  Utf8.encode_char c = Ok bs ->
  Utf8.decode (bs ++ rest) = c :: Utf8.decode rest.
Proof.
  intros H. apply encode_char_cases in H as [_ H].
  destruct H as [[H ->] | [(b & b2 & -> & ? & ? & <-)
    | [(b & b2 & b3 & -> & ? & ? & ? & ? & ? & <-)
      | (b & b2 & b3 & b4 & -> & ? & ? & ? & ? & ? & ? & <-)]]].
  - apply decode1; auto.
  - apply decode2; lia.
  - apply decode3; lia.
  - apply decode4; lia.
Qed.

Lemma encode_cons (c : char) (s : str) (bs : list N) :
  Utf8.encode (c :: s) = Ok bs ->
  exists b1 b2, Utf8.encode_char c = Ok b1 /\ Utf8.encode s = Ok b2
                /\ bs = b1 ++ b2.
Proof.
  simpl. destruct (Utf8.encode_char c) as [b1|]; [|discriminate].
  destruct (Utf8.encode s) as [b2|]; [|discriminate].
  simpl. intros [= <-]. eauto.
Qed.

(** Decoding what was encoded gives the string back. *)
Lemma decode_encode (s : str) (bs : list N) :
  Utf8.encode s = Ok bs -> Utf8.decode bs = s.
Proof.
  revert bs; induction s as [|c s IH]; intros bs H.
  - injection H as <-. reflexivity.
  - apply encode_cons in H as (b1 & b2 & H1 & H2 & ->).
    rewrite (decode_encode_char _ _ _ H1), (IH _ H2). reflexivity.
Qed.

Lemma encode_char_scalar (c : char) :
  scalar c -> exists bs, Utf8.encode_char c = Ok bs.
Proof.
  unfold scalar, Utf8.encode_char. intros H.
  destruct (N.ltb_spec c 0x80); eauto.
  destruct (N.ltb_spec c 0x800); eauto.
  destruct (N.leb_spec 0xD800 c); destruct (N.leb_spec c 0xDFFF);
    cbn [andb]; try lia;
      (destruct (N.ltb_spec c 0x10000); eauto;
       destruct (N.ltb_spec c 0x110000); eauto; lia).
Qed.

(** A string without surrogates can be encoded. *)
Lemma encode_scalar (s : str) :
  Forall scalar s -> exists bs, Utf8.encode s = Ok bs.
Proof.
  induction 1 as [|c s Hc _ [bs' IH]]; simpl; eauto.
  destruct (encode_char_scalar c Hc) as [bs ->]. rewrite IH. simpl. eauto.
Qed.

Lemma encode_is_scalar (s : str) (bs : list N) :
  Utf8.encode s = Ok bs -> Forall scalar s.
Proof.
  revert bs; induction s as [|c s IH]; intros bs H; auto.
  apply encode_cons in H as (b1 & b2 & H1 & H2 & ->).
  constructor; eauto. apply encode_char_cases in H1. tauto.
Qed.

(** The bytes of an encoded character: one ASCII byte for an ASCII
    character, bytes from [0x80] to [0xFF] otherwise. *)
Lemma encode_char_bytes (c : char) (bs : list N) :
  Utf8.encode_char c = Ok bs ->
  (c < 0x80 /\ bs = [c])
  \/ (0x80 <= c /\ Forall (fun b => 0x80 <= b < 0x100) bs).
Proof.
  intros H. apply encode_char_cases in H as [_ H].
  destruct H as [[H ->] | [(b & b2 & -> & ? & ? & <-)
    | [(b & b2 & b3 & -> & ? & ? & ? & ? & ? & <-)
      | (b & b2 & b3 & b4 & -> & ? & ? & ? & ? & ? & ? & <-)]]];
    [left; auto | right; split; [lia | repeat constructor; lia] ..].
Qed.

Lemma encode_bytes (s : str) (bs : list N) :
  Utf8.encode s = Ok bs -> Forall (fun b => b < 0x100) bs.
Proof.
  revert bs; induction s as [|c s IH]; intros bs H.
  - injection H as <-. constructor.
  - apply encode_cons in H as (b1 & b2 & H1 & H2 & ->).
    apply Forall_app. split; eauto.
    destruct (encode_char_bytes _ _ H1) as [[? ->] | [_ Hb]].
    + repeat constructor. lia.
    + eapply Forall_impl; [|exact Hb]. simpl. intros; lia.
Qed.

(** The ASCII bytes of the encoding are the ASCII characters of the
    string. *)
Lemma encode_In_ascii (a : N) (s : str) (bs : list N) :
  a < 0x80 -> Utf8.encode s = Ok bs -> (In a bs <-> In a s).
Proof.
  intros Ha. revert bs; induction s as [|c s IH]; intros bs H.
  - injection H as <-. tauto.
  - apply encode_cons in H as (b1 & b2 & H1 & H2 & ->).
    rewrite in_app_iff, (IH _ H2). simpl.
    destruct (encode_char_bytes _ _ H1) as [[? ->] | [Hc Hb]].
    + simpl. tauto.
    + rewrite Forall_forall in Hb. split.
      * intros [Hin|Hin]; auto. apply Hb in Hin. lia.
      * intros [<-|Hin]; auto. lia.
Qed.

Lemma encode_ascii (s : str) (bs : list N) :
  Utf8.encode s = Ok bs -> Forall (fun b => b < 0x80) bs -> bs = s.
Proof.
  revert bs; induction s as [|c s IH]; intros bs H Hb.
  - injection H as <-. reflexivity.
  - apply encode_cons in H as (b1 & b2 & H1 & H2 & ->).
    apply Forall_app in Hb as [Hb1 Hb2].
    destruct (encode_char_bytes _ _ H1) as [[? ->] | [Hc Hb]].
    + simpl. f_equal. auto.
    + exfalso. destruct b1 as [|b b1].
      * apply encode_char_cases in H1 as [_ H1].
        destruct H1 as [[? [=]] | [(? & ? & [=] & _) | [(? & ? & ? & [=] & _)
          | (? & ? & ? & ? & [=] & _)]]].
      * inversion Hb; inversion Hb1; subst. lia.
Qed.

Ltac split_tests :=
  repeat match goal with
  | |- context [match ?t with [] => _ | _ :: _ => _ end] => destruct t
  | |- context [N.ltb ?a ?b] => destruct (N.ltb_spec a b)
  | |- context [N.leb ?a ?b] => destruct (N.leb_spec a b)
  | |- context [N.eqb ?a ?b] => destruct (N.eqb_spec a b)
  | _ => progress cbn [andb orb negb]
  end.

Lemma decode_scalar_n (n : nat) (bs : list N) :
  (length bs <= n)%nat -> Forall scalar (Utf8.decode bs).
Proof.
  assert (Hrep : scalar Utf8.REPLACEMENT).
  { right. unfold Utf8.REPLACEMENT. lia. }
  revert bs; induction n as [|n IH]; intros bs Hlen.
  - destruct bs; [constructor | simpl in Hlen; lia].
  - destruct bs as [|b t]; [constructor|].
    cbn [Utf8.decode]. unfold Utf8.is_continuation.
    split_tests;
      (apply Forall_cons;
       [ first [exact Hrep | unfold scalar; lia]
       | first [apply Forall_nil | apply IH; simpl in *; lia] ]).
Qed.

(** Decoding never produces a surrogate. *)
Lemma decode_scalar (bs : list N) : Forall scalar (Utf8.decode bs).
Proof. apply (decode_scalar_n (length bs)). apply le_n. Qed.

Lemma always_safe_bound (b : N) : Urllib.always_safe b = true -> b < 128.
Proof.
  unfold Urllib.always_safe, Py.isupper_ascii, Py.islower_ascii,
    Py.isdigit_ascii.
  split_tests; intros Hs; try discriminate Hs; lia.
Qed.

Lemma always_safe_not (b : N) :
  b = 32 \/ b = 37 \/ b = 38 \/ b = 43 \/ b = 61 \/ b = 35 \/ b = 63
  \/ b = 9 \/ b = 10 \/ b = 13 \/ b = 40 \/ b = 41 ->
  Urllib.always_safe b = false.
Proof. intros H. decompose [or] H; subst; reflexivity. Qed.

(** A property of the sixteen nibbles is checked on each of them. *)
Lemma nibble_cases (f : N -> bool) (n : N) :
  forallb f (map N.of_nat (seq 0 16)) = true -> n < 16 -> f n = true.
Proof.
  intros Hf Hn. rewrite forallb_forall in Hf. apply Hf.
  apply in_map_iff. exists (N.to_nat n).
  split; [apply N2Nat.id | apply in_seq; lia].
Qed.

Lemma hex_digit_safe (n : N) :
  n < 16 -> Urllib.always_safe (Urllib.hex_digit n) = true.
Proof.
  apply (nibble_cases (fun k => Urllib.always_safe (Urllib.hex_digit k))).
  vm_compute. reflexivity.
Qed.

Lemma hex_value_digit (n : N) :
  n < 16 -> Urllib.hex_value (Urllib.hex_digit n) = Some n.
Proof.
  intros H.
  pose proof (nibble_cases
                (fun k => match Urllib.hex_value (Urllib.hex_digit k) with
                          | Some m => m =? k
                          | None => false
                          end) n) as C.
  cbv beta in C.
  destruct (Urllib.hex_value (Urllib.hex_digit n)) as [m|].
  - f_equal. apply N.eqb_eq. apply C; [vm_compute; reflexivity | exact H].
  - discriminate C; [vm_compute; reflexivity | exact H].
Qed.

Lemma byte_nibbles (b : N) :
  b < 256 -> b / 16 < 16 /\ b mod 16 < 16 /\ 16 * (b / 16) + b mod 16 = b.
Proof.
  intros H. pose proof (N.div_mod b 16). pose proof (N.mod_lt b 16).
  assert (b / 16 < 16) by (apply N.Div0.div_lt_upper_bound; lia).
  lia.
Qed.

Lemma qp_byte_chars (b : N) :
  b < 256 -> Forall (fun c => quoted_char c = true) (qp_byte b).
Proof.
  intros H. unfold qp_byte, quoted_char.
  destruct (byte_nibbles b H) as (H1 & H2 & _).
  destruct (Urllib.always_safe b) eqn:E.
  - repeat constructor. rewrite E. reflexivity.
  - destruct (b =? 32); repeat constructor.
    all: rewrite hex_digit_safe by auto; reflexivity.
Qed.

Lemma quoter_qp_byte (b : N) :
  b <> 32 -> Urllib.quoter (fun _ => false) b = qp_byte b.
Proof.
  intros H. unfold Urllib.quoter, qp_byte. rewrite orb_false_r.
  destruct (Urllib.always_safe b); auto.
  apply N.eqb_neq in H. rewrite H. reflexivity.
Qed.

Lemma hex_digit_ge (n : N) : 48 <= Urllib.hex_digit n.
Proof. unfold Urllib.hex_digit. destruct (n <? 10); lia. Qed.

Lemma quoter_space_qp_byte (b : N) :
  Py.replace_char Py.C_SPACE Py.C_PLUS (Urllib.quoter (N.eqb Py.C_SPACE) b)
  = qp_byte b.
Proof.
  unfold Urllib.quoter, qp_byte, Py.replace_char.
  pose proof (hex_digit_ge (b / 16)). pose proof (hex_digit_ge (b mod 16)).
  destruct (Urllib.always_safe b) eqn:E; cbn [orb].
  - cbn [map]. destruct (N.eqb_spec b Py.C_SPACE) as [->|]; [discriminate E|].
    reflexivity.
  - destruct (N.eqb_spec Py.C_SPACE b) as [<-|Hb]; [reflexivity|].
    destruct (N.eqb_spec b 32) as [->|]; [exfalso; apply Hb; reflexivity|].
    cbn [map].
    destruct (N.eqb_spec (Urllib.hex_digit (b / 16)) Py.C_SPACE) as [E1|];
      [unfold Py.C_SPACE in E1; lia|].
    destruct (N.eqb_spec (Urllib.hex_digit (b mod 16)) Py.C_SPACE) as [E2|];
      [unfold Py.C_SPACE in E2; lia|].
    reflexivity.
Qed.

Lemma quoter_all_safe (safe : N -> bool) (bs : list N) :
  forallb (fun b => Urllib.always_safe b || safe b) bs = true ->
  flat_map (Urllib.quoter safe) bs = bs.
Proof.
  induction bs as [|b bs IH]; simpl; auto.
  intros H. apply andb_true_iff in H as [Hb H].
  unfold Urllib.quoter at 1. rewrite Hb. simpl. f_equal. auto.
Qed.

Lemma quote_from_bytes_eq (safe : N -> bool) (bs : list N) :
  Urllib.quote_from_bytes bs safe = flat_map (Urllib.quoter safe) bs.
Proof.
  unfold Urllib.quote_from_bytes.
  destruct (forallb _ bs) eqn:E; auto.
  symmetry. apply quoter_all_safe; auto.
Qed.

Lemma replace_char_app (a b : char) (x y : str) :
  Py.replace_char a b (x ++ y) = Py.replace_char a b x ++ Py.replace_char a b y.
Proof. apply map_app. Qed.

Lemma replace_char_flat_map (a b : char) (f : N -> str) (bs : list N) :
  Py.replace_char a b (flat_map f bs)
  = flat_map (fun x => Py.replace_char a b (f x)) bs.
Proof.
  induction bs as [|x bs IH]; cbn [flat_map]; auto.
  rewrite replace_char_app, IH. reflexivity.
Qed.

(** [quote_plus] encodes the string and writes each byte with
    [qp_byte]. *)
Lemma quote_plus_eq (s : str) :
  Urllib.quote_plus s
  = (bs <- Utf8.encode s ;; Ok (flat_map qp_byte bs)).
Proof.
  unfold Urllib.quote_plus, Urllib.quote.
  destruct (Py.contains Py.C_SPACE s) eqn:Hsp; cbn [negb].
  - destruct s as [|c s]; [discriminate|].
    destruct (Utf8.encode (c :: s)) as [bs|]; [|reflexivity].
    cbn [bind]. rewrite quote_from_bytes_eq, replace_char_flat_map.
    f_equal. apply flat_map_ext. intros b. apply quoter_space_qp_byte.
  - destruct s as [|c s]; [reflexivity|].
    destruct (Utf8.encode (c :: s)) as [bs|] eqn:E; [|reflexivity].
    cbn [bind]. rewrite quote_from_bytes_eq. f_equal.
    apply contains_false in Hsp.
    assert (Hbs : ~ In 32 bs).
    { intros Hin. apply Hsp. apply (encode_In_ascii 32 _ _ eq_refl E). exact Hin. }
    clear E. induction bs as [|b bs IH]; simpl; auto.
    rewrite quoter_qp_byte by (intros ->; apply Hbs; left; auto).
    f_equal. apply IH. intros Hin; apply Hbs; right; auto.
Qed.

Lemma quote_plus_inv (s qs : str) :
  Urllib.quote_plus s = Ok qs ->
  exists bs, Utf8.encode s = Ok bs /\ qs = flat_map qp_byte bs.
Proof.
  rewrite quote_plus_eq. destruct (Utf8.encode s) as [bs|]; [|discriminate].
  intros [= <-]. eauto.
Qed.

(** A string without surrogates can be quoted. *)
Lemma quote_plus_scalar (s : str) :
  Forall scalar s -> exists qs, Urllib.quote_plus s = Ok qs.
Proof.
  intros H. rewrite quote_plus_eq.
  destruct (encode_scalar s H) as [bs ->]. simpl. eauto.
Qed.

(** A quoted string is made of safe characters, ['+'] and ['%']. *)
Lemma quote_plus_chars (s qs : str) :
  Urllib.quote_plus s = Ok qs -> Forall (fun c => quoted_char c = true) qs.
Proof.
  intros H. apply quote_plus_inv in H as (bs & H & ->).
  apply encode_bytes in H.
  induction H as [|b bs Hb _ IH]; simpl; [constructor|].
  apply Forall_app. split; auto. apply qp_byte_chars; auto.
Qed.

Lemma unquote_to_bytes_cons (c : char) (z : str) :
  c <> Py.C_PERCENT ->
  Urllib.unquote_to_bytes (c :: z) = c :: Urllib.unquote_to_bytes z.
Proof.
  intros Hc. unfold Urllib.unquote_to_bytes.
  rewrite split_cons_other by auto.
  pose proof (split_nonempty Py.C_PERCENT z).
  destruct (Py.split Py.C_PERCENT z); [congruence | reflexivity].
Qed.

Lemma hex_value_not_percent (h : char) (a : N) :
  Urllib.hex_value h = Some a -> h <> Py.C_PERCENT.
Proof. intros H ->. discriminate H. Qed.

Lemma unquote_to_bytes_percent (h1 h2 : char) (a b : N) (z : str) :
  Urllib.hex_value h1 = Some a -> Urllib.hex_value h2 = Some b ->
  Urllib.unquote_to_bytes (Py.C_PERCENT :: h1 :: h2 :: z)
  = (16 * a + b) :: Urllib.unquote_to_bytes z.
Proof.
  intros H1 H2. unfold Urllib.unquote_to_bytes.
  rewrite split_cons_sep.
  rewrite (split_cons_other _ h1) by (eapply hex_value_not_percent; eauto).
  rewrite (split_cons_other _ h2) by (eapply hex_value_not_percent; eauto).
  pose proof (split_nonempty Py.C_PERCENT z).
  destruct (Py.split Py.C_PERCENT z) as [|x0 xs]; [congruence|].
  cbn [hd tl flat_map app Urllib.unquote_item]. rewrite H1, H2. reflexivity.
Qed.

(** On a string of ASCII characters the loop of [unquote] decodes one
    run. *)
Lemma unquote_runs_ascii (run z : str) :
  Forall (fun c => c < 128) z ->
  Urllib.unquote_runs run z = Urllib.unquote_run (run ++ z).
Proof.
  intros H. revert run. induction H as [|c z Hc _ IH]; intros run.
  - rewrite app_nil_r. reflexivity.
  - cbn [Urllib.unquote_runs]. apply N.ltb_lt in Hc. rewrite Hc.
    rewrite IH, <- app_assoc. reflexivity.
Qed.

(** The bytes of a quoted string, its ['+'] read as spaces. *)
Lemma unquote_to_bytes_quoted (bs : list N) :
  Forall (fun b => b < 256) bs ->
  Urllib.unquote_to_bytes
    (Py.replace_char Py.C_PLUS Py.C_SPACE (flat_map qp_byte bs)) = bs.
Proof.
  induction 1 as [|b bs Hb _ IH]; [reflexivity|].
  cbn [flat_map]. rewrite replace_char_app.
  destruct (byte_nibbles b Hb) as (H1 & H2 & H3).
  unfold qp_byte at 1. destruct (Urllib.always_safe b) eqn:E.
  - unfold Py.replace_char at 1. cbn [map app].
    destruct (N.eqb_spec b Py.C_PLUS) as [->|]; [discriminate E|].
    rewrite unquote_to_bytes_cons by (intros ->; discriminate E).
    rewrite IH. reflexivity.
  - destruct (N.eqb_spec b 32) as [->|].
    + cbn [Py.replace_char map app N.eqb Pos.eqb Py.C_PLUS Py.C_SPACE].
      rewrite unquote_to_bytes_cons by discriminate.
      fold Py.C_PLUS Py.C_SPACE. fold (Py.replace_char Py.C_PLUS Py.C_SPACE).
      rewrite IH. reflexivity.
    + pose proof (hex_digit_ge (b / 16)). pose proof (hex_digit_ge (b mod 16)).
      unfold Py.replace_char at 1. cbn [map app].
      destruct (N.eqb_spec (Urllib.hex_digit (b / 16)) Py.C_PLUS) as [E1|];
        [unfold Py.C_PLUS in E1; lia|].
      destruct (N.eqb_spec (Urllib.hex_digit (b mod 16)) Py.C_PLUS) as [E2|];
        [unfold Py.C_PLUS in E2; lia|].
      change (37 =? Py.C_PLUS) with false. cbn iota.
      rewrite (unquote_to_bytes_percent _ _ (b / 16) (b mod 16))
        by (apply hex_value_digit; auto).
      rewrite IH, H3. reflexivity.
Qed.

Lemma quoted_ascii (bs : list N) :
  Forall (fun b => b < 256) bs ->
  Forall (fun c => c < 128)
         (Py.replace_char Py.C_PLUS Py.C_SPACE (flat_map qp_byte bs)).
Proof.
  intros H. unfold Py.replace_char. apply Forall_map.
  assert (Hq : Forall (fun c => quoted_char c = true) (flat_map qp_byte bs)).
  { induction H as [|b bs Hb _ IH]; simpl; [constructor|].
    apply Forall_app. split; auto. apply qp_byte_chars; auto. }
  eapply Forall_impl; [|exact Hq]. intros c Hc. cbv beta.
  destruct (c =? Py.C_PLUS); [reflexivity|].
  unfold quoted_char in Hc.
  apply orb_true_iff in Hc as [Hc|Hc];
    [apply orb_true_iff in Hc as [Hc|Hc]|].
  - apply always_safe_bound; auto.
  - apply N.eqb_eq in Hc. subst. reflexivity.
  - apply N.eqb_eq in Hc. subst. reflexivity.
Qed.

(** Without a ['%'], a quoted string is the bytes themselves. *)
Lemma quoted_no_percent (bs : list N) :
  ~ In Py.C_PERCENT (Py.replace_char Py.C_PLUS Py.C_SPACE (flat_map qp_byte bs)) ->
  Py.replace_char Py.C_PLUS Py.C_SPACE (flat_map qp_byte bs) = bs
  /\ Forall (fun b => b < 128) bs.
Proof.
  induction bs as [|b bs IH]; [split; [reflexivity | constructor]|].
  cbn [flat_map]. rewrite replace_char_app. intros H.
  assert (H' : ~ In Py.C_PERCENT
                 (Py.replace_char Py.C_PLUS Py.C_SPACE (flat_map qp_byte bs)))
    by (intros Hin; apply H, in_or_app; auto).
  destruct (IH H') as [-> Hbs].
  unfold qp_byte in *. destruct (Urllib.always_safe b) eqn:E.
  - unfold Py.replace_char at 1. cbn [map app].
    destruct (N.eqb_spec b Py.C_PLUS) as [->|]; [discriminate E|].
    split; auto. constructor; auto. apply always_safe_bound; auto.
  - destruct (N.eqb_spec b 32) as [->|].
    + split; [reflexivity|]. constructor; auto. reflexivity.
    + exfalso. apply H. apply in_or_app. left. left. reflexivity.
Qed.

(** Reading back what [quote_plus] wrote gives the string. *)
Lemma unquote_quote_plus (s qs : str) :
  Urllib.quote_plus s = Ok qs ->
  Urllib.unquote (Py.replace_char Py.C_PLUS Py.C_SPACE qs) = s.
Proof.
  intros H. apply quote_plus_inv in H as (bs & He & ->).
  pose proof (encode_bytes _ _ He) as Hb.
  unfold Urllib.unquote.
  destruct (Py.contains Py.C_PERCENT _) eqn:Hp.
  - rewrite unquote_runs_ascii by (apply quoted_ascii; auto).
    cbn [app]. unfold Urllib.unquote_run.
    destruct (Py.replace_char _ _ _) eqn:Hz; [discriminate Hp|].
    rewrite <- Hz, unquote_to_bytes_quoted by auto.
    apply decode_encode; auto.
  - apply contains_false in Hp. destruct (quoted_no_percent _ Hp) as [-> Hs].
    apply encode_ascii; auto.
Qed.

(** [quote_plus] is injective. *)
Lemma quote_plus_inj (a b qs : str) :
  Urllib.quote_plus a = Ok qs -> Urllib.quote_plus b = Ok qs -> a = b.
Proof.
  intros Ha Hb. rewrite <- (unquote_quote_plus _ _ Ha).
  apply unquote_quote_plus; auto.
Qed.


(** ** The encoded query *)

Section Encoded.

Lemma mapM_inv {A B : Type} (f : A -> result B) (xs : list A) (ys : list B) :
  mapM f xs = Ok ys -> Forall2 (fun x y => f x = Ok y) xs ys.
Proof.
  revert ys; induction xs as [|x xs IH]; intros ys; simpl.
  - intros [= <-]. constructor.
  - destruct (f x) as [y|] eqn:E; [|discriminate]. simpl.
    destruct (mapM f xs) as [ys'|]; [|discriminate]. simpl.
    intros [= <-]. constructor; auto.
Qed.

Lemma mapM_ok {A B : Type} (f : A -> result B) (xs : list A) :
  Forall (fun x => exists y, f x = Ok y) xs -> exists ys, mapM f xs = Ok ys.
Proof.
  induction 1 as [|x xs [y Hy] _ [ys IH]]; simpl; eauto.
  rewrite Hy, IH. simpl. eauto.
Qed.

Lemma mapM_ext_in {A B : Type} (f g : A -> result B) (xs : list A) :
  (forall x, In x xs -> f x = g x) -> mapM f xs = mapM g xs.
Proof.
  induction xs as [|x xs IH]; intros H; simpl; auto.
  rewrite H by (left; auto). rewrite IH; auto.
  intros y Hy. apply H. right; auto.
Qed.

Lemma join_cons (c : char) (p : str) (ps : list str) :
  ps <> [] -> Py.join c (p :: ps) = p ++ c :: Py.join c ps.
Proof. intros H. destruct ps; [exfalso; apply H; reflexivity | reflexivity]. Qed.

(** Splitting what was joined gives the pieces back. *)
Lemma split_join (c : char) (l : list str) :
  l <> [] -> Forall (fun f => ~ In c f) l -> Py.split c (Py.join c l) = l.
Proof.
  intros Hne H. revert Hne.
  induction H as [|f l Hf Hl IH]; intros Hne;
    [exfalso; apply Hne; reflexivity|].
  destruct l as [|g l].
  - simpl. apply split_no_sep; auto.
  - rewrite join_cons by discriminate.
    rewrite split_app_sep, (split_no_sep _ f Hf), IH by discriminate.
    reflexivity.
Qed.

Lemma quoted_char_not (c : char) :
  quoted_char c = true ->
  c <> Py.C_AMP /\ c <> Py.C_EQ /\ c <> Py.C_HASH /\ c <> Py.C_QUEST
  /\ c <> Py.C_TAB /\ c <> Py.C_LF /\ c <> Py.C_CR /\ url_char c = true
  /\ c < 128.
Proof.
  intros H.
  assert (Hb : c < 128).
  { unfold quoted_char in H.
    apply orb_true_iff in H as [H|H];
      [apply orb_true_iff in H as [H|H]|].
    - apply always_safe_bound; auto.
    - apply N.eqb_eq in H. subst. reflexivity.
    - apply N.eqb_eq in H. subst. reflexivity. }
  repeat split; try (intros ->; discriminate H); auto.
  assert (Hc : forall n, (n < 128)%nat -> quoted_char (N.of_nat n) = true ->
                         url_char (N.of_nat n) = true).
  { intros n Hn. do 128 (destruct n as [|n]; [vm_compute; intros; congruence|]).
    lia. }
  rewrite <- (N2Nat.id c). apply Hc; [lia | rewrite N2Nat.id; auto].
Qed.

Lemma quote_plus_no (c : char) (s qs : str) :
  Urllib.quote_plus s = Ok qs -> quoted_char c = false -> ~ In c qs.
Proof.
  intros H Hc Hin. apply quote_plus_chars in H.
  rewrite Forall_forall in H. apply H in Hin. congruence.
Qed.

(** A field is a quoted key, ['='] and a quoted value. *)
Lemma encodes_chars (kv : str * str) (f : str) :
  encodes kv f ->
  Forall (fun c => quoted_char c = true \/ c = Py.C_EQ) f.
Proof.
  intros (qk & qv & Hk & Hv & ->).
  apply quote_plus_chars in Hk, Hv.
  apply Forall_app; split; [|constructor; [right; reflexivity|]];
    (eapply Forall_impl; [|eassumption]); auto.
Qed.

Lemma encodes_no_amp (kv : str * str) (f : str) :
  encodes kv f -> ~ In Py.C_AMP f.
Proof.
  intros H Hin. apply encodes_chars in H. rewrite Forall_forall in H.
  destruct (H _ Hin) as [Hq | Hq]; discriminate Hq.
Qed.

(** The fields of an encoded dictionary. *)
Lemma urlencode_inv (d : Dict.t) (q : str) :
  Urllib.urlencode d = Ok q ->
  exists l, Forall2 encodes d l /\ q = Py.join Py.C_AMP l.
Proof.
  unfold Urllib.urlencode.
  destruct (mapM _ d) as [l|] eqn:E; [|discriminate]. simpl.
  intros [= <-]. exists l. split; auto.
  apply mapM_inv in E. eapply Forall2_impl; [|exact E].
  intros [k v] f. simpl.
  destruct (Urllib.quote_plus k) as [qk|] eqn:Ek; [|discriminate].
  destruct (Urllib.quote_plus v) as [qv|] eqn:Ev; [|discriminate].
  simpl. intros [= <-]. exists qk, qv. repeat split; auto.
Qed.

Lemma urlencode_fields (d : Dict.t) (q : str) :
  Urllib.urlencode d = Ok q -> d <> [] ->
  Forall2 encodes d (Py.split Py.C_AMP q).
Proof.
  intros H Hd. apply urlencode_inv in H as (l & Hl & ->).
  rewrite split_join; auto.
  - intros ->. inversion Hl. congruence.
  - clear Hd. induction Hl; constructor; auto. eapply encodes_no_amp; eauto.
Qed.

Lemma urlencode_chars (d : Dict.t) (q : str) :
  Urllib.urlencode d = Ok q ->
  Forall (fun c => quoted_char c = true \/ c = Py.C_EQ \/ c = Py.C_AMP) q.
Proof.
  intros H. apply urlencode_inv in H as (l & Hl & ->).
  induction Hl as [|kv f d l Hf Hl IH]; [constructor|].
  assert (Hf' : Forall (fun c => quoted_char c = true \/ c = Py.C_EQ
                                 \/ c = Py.C_AMP) f).
  { apply encodes_chars in Hf. eapply Forall_impl; [|exact Hf].
    simpl. tauto. }
  destruct l as [|g l]; [simpl; auto|].
  rewrite join_cons by discriminate. apply Forall_app. split; auto.
Qed.

(** A dictionary of strings without surrogates can be encoded. *)
Lemma urlencode_scalar (d : Dict.t) :
  Forall (fun kv => Forall scalar (fst kv) /\ Forall scalar (snd kv)) d ->
  exists q, Urllib.urlencode d = Ok q.
Proof.
  intros H. unfold Urllib.urlencode.
  destruct (mapM_ok (fun kv => k <- Urllib.quote_plus (fst kv) ;;
                               v <- Urllib.quote_plus (snd kv) ;;
                               Ok (k ++ Py.C_EQ :: v)) d) as [l ->].
  - eapply Forall_impl; [|exact H]. intros [k v] [Hk Hv]. simpl in *.
    destruct (quote_plus_scalar k Hk) as [qk ->].
    destruct (quote_plus_scalar v Hv) as [qv ->]. simpl. eauto.
  - simpl. eauto.
Qed.

Lemma Forall2_In_l {A B : Type} (R : A -> B -> Prop) (xs : list A)
      (ys : list B) (x : A) :
  Forall2 R xs ys -> In x xs -> exists y, In y ys /\ R x y.
Proof.
  induction 1 as [|x0 y0 xs ys Hr _ IH]; intros []; subst.
  - exists y0. split; [left|]; auto.
  - destruct (IH H) as (y & Hy & Hxy). exists y. split; [right|]; auto.
Qed.

Lemma Forall2_In_r {A B : Type} (R : A -> B -> Prop) (xs : list A)
      (ys : list B) (y : B) :
  Forall2 R xs ys -> In y ys -> exists x, In x xs /\ R x y.
Proof.
  induction 1 as [|x0 y0 xs ys Hr _ IH]; intros []; subst.
  - exists x0. split; [left|]; auto.
  - destruct (IH H) as (x & Hx & Hxy). exists x. split; [right|]; auto.
Qed.

(** Two strings cut at their first [c] agree piece by piece. *)
Lemma app_sep_inj (c : char) (a b x y : str) :
  ~ In c a -> ~ In c b -> a ++ c :: x = b ++ c :: y -> a = b /\ x = y.
Proof.
  revert b; induction a as [|h a IH]; intros [|h' b] Ha Hb E; simpl in *.
  - injection E as ->. auto.
  - injection E as <- _. exfalso. apply Hb. left; auto.
  - injection E as -> _. exfalso. apply Ha. left; auto.
  - injection E as -> E. destruct (IH b) as [-> ->]; auto.
Qed.

Lemma utm_key_quoted (source medium campaign k v : str) :
  In (k, v) (utm_params source medium campaign) ->
  Urllib.quote_plus k = Ok k /\ ~ In Py.C_EQ k.
Proof.
  intros [[= <- _]|[[= <- _]|[[= <- _]|[]]]];
    (split; [reflexivity|]); intros Hin; apply contains_In in Hin;
      discriminate Hin.
Qed.

End Encoded.

Section QueryTheorems.

Lemma parse_field_In (f k v : str) :
  In (k, v) (Urllib.parse_field f) ->
  exists name value,
    f = name ++ lit "=" ++ value /\ ~ In Py.C_EQ name /\ value <> []
    /\ k = Urllib.unquote_plus name /\ v = Urllib.unquote_plus value.
Proof.
  unfold Urllib.parse_field. destruct f as [|c f]; [intros []|].
  destruct (Py.partition Py.C_EQ (c :: f)) as [[name found] value] eqn:E.
  apply partition_spec in E as [Hn Hf].
  destruct found; [|intros []].
  destruct value as [|x value]; [intros []|]. cbn [Py.is_empty negb andb].
  intros [E|[]]. injection E as <- <-. exists name, (x :: value).
  repeat split; auto. discriminate.
Qed.

Lemma parse_field_blank (f : str) : blank_field f -> Urllib.parse_field f = [].
Proof.
  unfold Urllib.parse_field. destruct f as [|c f]; auto.
  intros [H | (name & Hn & E)].
  - rewrite partition_not_found by auto. reflexivity.
  - rewrite E. change (lit "=") with [Py.C_EQ].
    rewrite partition_found by auto. reflexivity.
Qed.

Lemma parse_field_value (name value : str) :
  ~ In Py.C_EQ name -> value <> [] ->
  Urllib.parse_field (name ++ lit "=" ++ value)
  = [(Urllib.unquote_plus name, Urllib.unquote_plus value)].
Proof.
  intros Hn Hv. unfold Urllib.parse_field.
  destruct (name ++ lit "=" ++ value) eqn:E; [destruct name; discriminate|].
  rewrite <- E. change (lit "=" ++ value) with (Py.C_EQ :: value).
  rewrite partition_found by auto.
  destruct value; [congruence | reflexivity].
Qed.

Lemma parse_qsl_eq (q : str) :
  Urllib.parse_qsl q = flat_map Urllib.parse_field (Py.split Py.C_AMP q).
Proof. destruct q; reflexivity. Qed.

(** The query that is a list of fields is parsed field by field. *)
Lemma parse_qsl_join (fs : list str) :
  Forall (fun f => ~ In Py.C_AMP f) fs ->
  Urllib.parse_qsl (Py.join Py.C_AMP fs) = flat_map Urllib.parse_field fs.
Proof.
  intros H. rewrite parse_qsl_eq. destruct fs as [|f fs]; [reflexivity|].
  rewrite split_join; auto. discriminate.
Qed.

Lemma add_utm_inv (url : url_arg) (source medium campaign out : str) :
  add_utm_to_url url source medium campaign = Ok out ->
  exists parsed q,
    as_parsed url = Ok parsed
    /\ Urllib.urlencode (merged_params parsed source medium campaign) = Ok q
    /\ out = Urllib.geturl (Urllib.replace_query parsed q).
Proof.
  unfold add_utm_to_url.
  destruct (as_parsed url) as [parsed|]; [|discriminate]. simpl.
  destruct (Urllib.urlencode _) as [q|] eqn:E; [|discriminate]. simpl.
  intros [= <-]. eauto.
Qed.

Lemma merged_fields (parsed : Urllib.ParseResult)
      (source medium campaign q : str) :
  Urllib.urlencode (merged_params parsed source medium campaign) = Ok q ->
  Forall2 encodes (merged_params parsed source medium campaign)
          (Py.split Py.C_AMP q).
Proof.
  intros H. apply urlencode_fields; auto.
  destruct (merged_get_utm parsed source medium campaign) as [Hs _].
  intros E. rewrite E in Hs. discriminate.
Qed.

Lemma merged_In_utm (parsed : Urllib.ParseResult)
      (source medium campaign k v : str) :
  In (k, v) (utm_params source medium campaign) ->
  In (k, v) (merged_params parsed source medium campaign).
Proof.
  intros H. apply In_get; [apply merged_NoDup|].
  destruct (merged_get_utm parsed source medium campaign) as (Hs & Hm & Hc).
  destruct H as [[= <- <-]|[[= <- <-]|[[= <- <-]|[]]]]; auto.
Qed.

(** The field of a tracking parameter is in the encoded query, and it is
    the only field with that name. *)
Lemma utm_field (parsed : Urllib.ParseResult)
      (source medium campaign q k v : str) :
  Urllib.urlencode (merged_params parsed source medium campaign) = Ok q ->
  In (k, v) (utm_params source medium campaign) ->
  exists qv,
    Urllib.quote_plus v = Ok qv
    /\ In (k ++ lit "=" ++ qv) (Py.split Py.C_AMP q)
    /\ forall f, In f (Py.split Py.C_AMP q) ->
                 Py.startswith (k ++ lit "=") f = true ->
                 f = k ++ lit "=" ++ qv.
Proof.
  intros Hq Hu. pose proof (merged_fields _ _ _ _ _ Hq) as Hf.
  pose proof (merged_In_utm parsed _ _ _ _ _ Hu) as Hin.
  destruct (utm_key_quoted _ _ _ _ _ Hu) as [Hk Hkeq].
  destruct (Forall2_In_l _ _ _ _ Hf Hin) as (f & Hfin & qk & qv & Hqk & Hqv & ->).
  simpl in Hqk, Hqv. rewrite Hk in Hqk. injection Hqk as <-.
  exists qv. repeat split; auto.
  intros f Hfin' Hst.
  destruct (Forall2_In_r _ _ _ _ Hf Hfin') as ([k' v'] & Hin' & qk' & qv' & Hqk' & Hqv' & ->).
  simpl in Hqk', Hqv'.
  apply startswith_iff in Hst as [r Hr]. rewrite <- app_assoc in Hr.
  change (lit "=" ++ qv') with (Py.C_EQ :: qv') in Hr.
  change (lit "=" ++ r) with (Py.C_EQ :: r) in Hr.
  apply app_sep_inj in Hr as [-> _]; auto.
  2:{ eapply quote_plus_no; eauto. }
  assert (k' = k) by (eapply quote_plus_inj; eauto). subst k'.
  assert (Some v' = Some v) as [= ->].
  { apply (In_get _ _ _ (merged_NoDup parsed source medium campaign)) in Hin.
    apply (In_get _ _ _ (merged_NoDup parsed source medium campaign)) in Hin'.
    congruence. }
  congruence.
Qed.

End QueryTheorems.

(** C3. The query of the URL that [add_utm_to_url] returns has, for each of
    [utm_source], [utm_medium] and [utm_campaign], a field with the value
    the caller supplied, and no other field with that name: a field of
    that name in the query of the input is overridden. *)
Theorem C3_tracking_values_override
        (url : url_arg) (source medium campaign out : str) :
  add_utm_to_url url source medium campaign = Ok out ->
  exists parsed q,
    as_parsed url = Ok parsed
    /\ out = Urllib.geturl (Urllib.replace_query parsed q)
    /\ forall k v,
         In (k, v) [(lit "utm_source", source); (lit "utm_medium", medium);
                    (lit "utm_campaign", campaign)] ->
         exists qv,
           Urllib.quote_plus v = Ok qv
           /\ In (k ++ lit "=" ++ qv) (Py.split Py.C_AMP q)
           /\ forall f, In f (Py.split Py.C_AMP q) ->
                        Py.startswith (k ++ lit "=") f = true ->
                        f = k ++ lit "=" ++ qv.
Proof.
  intros H. apply add_utm_inv in H as (parsed & q & Hp & Hq & ->).
  exists parsed, q. repeat split; auto.
  intros k v Hin. eapply utm_field; eauto.
Qed.

(** C10. Every field of the query that [add_utm_to_url] writes is a
    tracking parameter or comes from a [name=value] field of the input
    query whose value is not empty; and a field without a value, [name=]
    or a bare [name], is omitted entirely: the output is the one the URL
    without that field would give. *)
Theorem C10_blank_parameters_omitted
        (url : url_arg) (parsed : Urllib.ParseResult)
        (source medium campaign out : str) :
  as_parsed url = Ok parsed ->
  add_utm_to_url url source medium campaign = Ok out ->
  (exists q,
      out = Urllib.geturl (Urllib.replace_query parsed q)
      /\ forall f, In f (Py.split Py.C_AMP q) ->
           exists k v,
             encodes (k, v) f
             /\ (In (k, v) (utm_params source medium campaign)
                 \/ exists name value,
                      In (name ++ lit "=" ++ value)
                         (Py.split Py.C_AMP (Urllib.query parsed))
                      /\ ~ In Py.C_EQ name /\ value <> []
                      /\ k = Urllib.unquote_plus name
                      /\ v = Urllib.unquote_plus value))
  /\ (forall (fs1 fs2 : list str) (f : str),
         Urllib.query parsed = Py.join Py.C_AMP (fs1 ++ f :: fs2) ->
         Forall (fun g => ~ In Py.C_AMP g) (fs1 ++ f :: fs2) ->
         blank_field f ->
         add_utm_to_url
           (UrlParsed (Urllib.replace_query parsed
                         (Py.join Py.C_AMP (fs1 ++ fs2))))
           source medium campaign = Ok out).
Proof.
  intros Hp H. pose proof H as H0.
  apply add_utm_inv in H as (parsed' & q & Hp' & Hq & ->).
  rewrite Hp in Hp'. injection Hp' as <-. split.
  - exists q. split; auto. intros f Hf.
    destruct (Forall2_In_r _ _ _ _ (merged_fields _ _ _ _ _ Hq) Hf)
      as ([k v] & Hin & He).
    exists k, v. split; auto.
    apply merged_In in Hin as [Hin|Hin]; auto. right.
    rewrite parse_qsl_eq in Hin. apply in_flat_map in Hin as (g & Hg & Hin).
    apply parse_field_In in Hin as (name & value & -> & Hn & Hv & -> & ->).
    exists name, value. auto.
  - intros fs1 fs2 f Eq Hamp Hblank.
    unfold add_utm_to_url. cbn [as_parsed bind].
    assert (Em : merged_params
                   (Urllib.replace_query parsed (Py.join Py.C_AMP (fs1 ++ fs2)))
                   source medium campaign
                 = merged_params parsed source medium campaign).
    { unfold merged_params. cbn [Urllib.replace_query Urllib.query].
      rewrite Eq. rewrite !parse_qsl_join; auto.
      - rewrite !flat_map_app. cbn [flat_map].
        rewrite (parse_field_blank f Hblank). reflexivity.
      - apply Forall_app in Hamp as [H1 H2]. inversion H2; subst.
        apply Forall_app; auto. }
    rewrite Em, Hq. reflexivity.
Qed.

(** C5, amended.  A [name=value] field of the query whose value is not
    empty, whose name is not one of the three tracking keys, and whose name
    is not given a value again by a later field, is in the query of the
    output, with the three tracking parameters. *)
Theorem C5_last_valued_parameter_retained
        (url : url_arg) (parsed : Urllib.ParseResult)
        (source medium campaign out : str)
        (fs1 fs2 : list str) (name value : str) :
  as_parsed url = Ok parsed ->
  Py.split Py.C_AMP (Urllib.query parsed)
  = fs1 ++ (name ++ lit "=" ++ value) :: fs2 ->
  ~ In Py.C_EQ name ->
  value <> [] ->
  ~ In (Urllib.unquote_plus name)
       [lit "utm_source"; lit "utm_medium"; lit "utm_campaign"] ->
  (forall f k v, In f fs2 -> In (k, v) (Urllib.parse_field f) ->
                 k <> Urllib.unquote_plus name) ->
  add_utm_to_url url source medium campaign = Ok out ->
  exists q,
    out = Urllib.geturl (Urllib.replace_query parsed q)
    /\ (exists f, In f (Py.split Py.C_AMP q)
                  /\ encodes (Urllib.unquote_plus name,
                              Urllib.unquote_plus value) f)
    /\ (forall k v, In (k, v) (utm_params source medium campaign) ->
                    exists f, In f (Py.split Py.C_AMP q) /\ encodes (k, v) f).
Proof.
  intros Hp Hs Hn Hv Hutm Hlast H.
  apply add_utm_inv in H as (parsed' & q & Hp' & Hq & ->).
  rewrite Hp in Hp'. injection Hp' as <-.
  pose proof (merged_fields _ _ _ _ _ Hq) as Hf.
  exists q. repeat split; auto.
  - eapply Forall2_In_l; eauto.
    apply In_get; [apply merged_NoDup|].
    apply (merged_get_last _ _ _ _
             (flat_map Urllib.parse_field fs1)
             (flat_map Urllib.parse_field fs2)); auto.
    + rewrite parse_qsl_eq, Hs, flat_map_app. cbn [flat_map].
      rewrite parse_field_value by auto. reflexivity.
    + intros Hin. apply in_map_iff in Hin as ([k v] & Ek & Hin).
      apply in_flat_map in Hin as (f & Hfin & Hin).
      simpl in Ek. subst k. eapply Hlast; eauto.
  - intros k v Hin. eapply Forall2_In_l; eauto.
    apply merged_In_utm; auto.
Qed.


(** ** Parsing and serialising URLs *)

Section UrlSplit.

Lemma break_at_spec (stop : char -> bool) (s a b : str) :
  Urllib.break_at stop s = (a, b) ->
  s = a ++ b /\ Forall (fun c => stop c = false) a
  /\ (b = [] \/ exists c b', b = c :: b' /\ stop c = true).
Proof.
  revert a b; induction s as [|x s IH]; intros a b; simpl.
  - intros [= <- <-]. auto.
  - destruct (stop x) eqn:E.
    + intros [= <- <-]. repeat split; eauto.
    + destruct (Urllib.break_at stop s) as [a' b'].
      intros [= <- <-]. destruct (IH _ _ eq_refl) as (-> & Ha & Hb).
      repeat split; auto.
Qed.

Lemma break_at_app (stop : char -> bool) (a b : str) :
  Forall (fun c => stop c = false) a ->
  (b = [] \/ exists c b', b = c :: b' /\ stop c = true) ->
  Urllib.break_at stop (a ++ b) = (a, b).
Proof.
  intros Ha Hb. induction Ha as [|x a Hx _ IH]; simpl.
  - destruct Hb as [-> | (c & b' & -> & Hc)]; simpl; auto. rewrite Hc; auto.
  - rewrite Hx, IH. reflexivity.
Qed.

Lemma clean_app (a b : str) : clean (a ++ b) <-> clean a /\ clean b.
Proof. apply Forall_app. Qed.

Lemma remove_clean (s : str) :
  clean (Py.remove Py.C_LF (Py.remove Py.C_CR (Py.remove Py.C_TAB s))).
Proof.
  unfold clean, Py.remove. apply Forall_forall. intros c Hc.
  apply filter_In in Hc as [Hc H1]. apply filter_In in Hc as [Hc H2].
  apply filter_In in Hc as [Hc H3].
  apply negb_true_iff, N.eqb_neq in H1, H2, H3. auto.
Qed.

Lemma remove_id (s : str) :
  clean s ->
  Py.remove Py.C_LF (Py.remove Py.C_CR (Py.remove Py.C_TAB s)) = s.
Proof.
  unfold Py.remove.
  assert (R : forall c, Forall (fun x => x <> c) s ->
                        filter (fun x => negb (x =? c)) s = s).
  { intros c Hc. induction Hc as [|x l Hx _ IH]; simpl; auto.
    apply N.eqb_neq in Hx. rewrite Hx. simpl. f_equal. exact IH. }
  intros H. rewrite !R; auto; eapply Forall_impl; try exact H; simpl; tauto.
Qed.

Lemma find_app_sep (c : char) (a b : str) :
  ~ In c a -> Py.find c (a ++ c :: b) = Some (length a).
Proof.
  induction a as [|x a IH]; intros H; simpl.
  - rewrite N.eqb_refl. reflexivity.
  - destruct (N.eqb_spec x c) as [->|]; [exfalso; apply H; left; auto|].
    rewrite IH; auto. intros Hin; apply H; right; auto.
Qed.

Lemma find_spec (c : char) (s : str) (i : nat) :
  Py.find c s = Some i ->
  exists a b, s = a ++ c :: b /\ ~ In c a /\ length a = i.
Proof.
  revert i; induction s as [|x s IH]; intros i; simpl; [discriminate|].
  destruct (N.eqb_spec x c) as [->|Hx].
  - intros [= <-]. exists [], s. auto.
  - destruct (Py.find c s) as [j|]; [|discriminate]. intros [= <-].
    destruct (IH _ eq_refl) as (a & b & -> & Ha & <-).
    exists (x :: a), b. repeat split; auto. intros [E|H]; auto.
Qed.

Lemma firstn_app_length {A : Type} (a b : list A) :
  firstn (length a) (a ++ b) = a.
Proof.
  rewrite <- (Nat.add_0_r (length a)), firstn_app_2. simpl. apply app_nil_r.
Qed.

Lemma skipn_app_length {A : Type} (a b : list A) :
  skipn (length a) (a ++ b) = b.
Proof. induction a; simpl; auto. Qed.

Lemma skipn_S_app {A : Type} (a b : list A) (c : A) :
  skipn (S (length a)) (a ++ c :: b) = b.
Proof. induction a; simpl; auto. Qed.

Lemma lower_id (s : str) :
  Forall (fun x => Py.isupper_ascii x = false) s -> Py.lower s = s.
Proof.
  unfold Py.lower. induction 1 as [|x l Hx _ IH]; simpl; auto.
  rewrite Hx, IH. reflexivity.
Qed.

Lemma scheme_char_not (c : char) :
  Urllib.scheme_char c = true ->
  c <> Py.C_COLON /\ c <> Py.C_TAB /\ c <> Py.C_LF /\ c <> Py.C_CR
  /\ c <> Py.C_SLASH.
Proof. intros H. repeat split; intros ->; discriminate H. Qed.

Lemma lower_scheme_wf (s : str) (c : char) :
  (c <? 128) && (Py.islower_ascii c || Py.isupper_ascii c) = true ->
  forallb Urllib.scheme_char (c :: s) = true ->
  scheme_wf (Py.lower (c :: s)).
Proof.
  intros Hc Hs.
  assert (Hl : forall x, Urllib.scheme_char x = true ->
                 Urllib.scheme_char (if Py.isupper_ascii x then x + 32 else x)
                 = true
                 /\ Py.isupper_ascii (if Py.isupper_ascii x then x + 32 else x)
                    = false).
  { intros x Hx. destruct (Py.isupper_ascii x) eqn:E; auto.
    unfold Py.isupper_ascii in E. apply andb_true_iff in E as [E1 E2].
    apply N.leb_le in E1, E2.
    unfold Urllib.scheme_char, Py.islower_ascii, Py.isupper_ascii.
    split.
    - replace (97 <=? x + 32) with true by (symmetry; apply N.leb_le; lia).
      replace (x + 32 <=? 122) with true by (symmetry; apply N.leb_le; lia).
      reflexivity.
    - replace (x + 32 <=? 90) with false by (symmetry; apply N.leb_gt; lia).
      apply andb_false_r. }
  unfold Py.lower. cbn [map scheme_wf]. split.
  - apply andb_true_iff in Hc as [_ Hc].
    destruct (Py.isupper_ascii c) eqn:E; [|rewrite orb_false_r in Hc; auto].
    unfold Py.isupper_ascii in E. apply andb_true_iff in E as [E1 E2].
    apply N.leb_le in E1, E2. unfold Py.islower_ascii.
    replace (97 <=? c + 32) with true by (symmetry; apply N.leb_le; lia).
    replace (c + 32 <=? 122) with true by (symmetry; apply N.leb_le; lia).
    reflexivity.
  - change (Forall (fun x => Urllib.scheme_char x = true
                             /\ Py.isupper_ascii x = false)
                   (map (fun c => if Py.isupper_ascii c then c + 32 else c)
                        (c :: s))).
    apply Forall_map. rewrite forallb_forall in Hs.
    apply Forall_forall. intros x Hx. apply Hl. auto.
Qed.

Lemma lstrip_id (strip : char -> bool) (c : char) (s : str) :
  strip c = false -> Py.lstrip strip (c :: s) = c :: s.
Proof. intros H. simpl. rewrite H. reflexivity. Qed.

Lemma split_scheme_assemble (scheme rest : str) :
  scheme_wf scheme ->
  Urllib.split_scheme
    ((if Py.is_empty scheme then [] else scheme ++ [Py.C_COLON])
     ++ Py.C_SLASH :: rest)
  = (scheme, Py.C_SLASH :: rest).
Proof.
  intros Hs. unfold Urllib.split_scheme. destruct scheme as [|c s].
  - cbn [Py.is_empty app].
    destruct (Py.find Py.C_COLON (Py.C_SLASH :: rest)) as [i|]; auto.
    destruct (0 <? i)%nat; reflexivity.
  - cbn [Py.is_empty]. destruct Hs as [Hc Hall].
    assert (Hno : ~ In Py.C_COLON (c :: s)).
    { intros Hin. rewrite Forall_forall in Hall.
      destruct (Hall _ Hin) as [H _]. discriminate H. }
    rewrite <- app_assoc. cbn [app].
    change (c :: s ++ Py.C_COLON :: Py.C_SLASH :: rest)
      with ((c :: s) ++ Py.C_COLON :: Py.C_SLASH :: rest).
    rewrite find_app_sep by auto.
    cbn match.
    change (c :: s ++ Py.C_COLON :: Py.C_SLASH :: rest)
      with ((c :: s) ++ Py.C_COLON :: Py.C_SLASH :: rest).
    rewrite firstn_app_length.
    rewrite skipn_S_app.
    assert (T : (0 <? length (c :: s))%nat && (c <? 128)
                && (Py.islower_ascii c || Py.isupper_ascii c)
                && forallb Urllib.scheme_char (c :: s) = true).
    { rewrite !andb_true_iff. split; [split; [split|]|].
      - reflexivity.
      - unfold Py.islower_ascii in Hc. apply andb_true_iff in Hc as [_ Hc].
        apply N.leb_le in Hc. apply N.ltb_lt. lia.
      - rewrite Hc. reflexivity.
      - apply forallb_forall. intros x Hx. rewrite Forall_forall in Hall.
        apply Hall; auto. }
    rewrite T. rewrite lower_id; auto.
    eapply Forall_impl; [|exact Hall]. simpl. tauto.
Qed.

Lemma netloc_accepted_inv (n : str) :
  netloc_accepted n = true ->
  (let open := Py.contains Py.C_LBRACK n in
   let close := Py.contains Py.C_RBRACK n in
   (open && negb close) || (close && negb open) = false
   /\ open && close && negb (Urllib.bracketed_netloc_ok n) = false)
  /\ Urllib.checknetloc_ok n = true.
Proof.
  unfold netloc_accepted. cbv zeta.
  rewrite !andb_true_iff, !negb_true_iff. tauto.
Qed.

Lemma clean_assemble (s n u q f : str) :
  clean s -> clean n -> clean u -> clean q -> clean f ->
  clean (assemble s n u q f).
Proof.
  intros Hs Hn Hu Hq Hf. unfold assemble.
  assert (D : forall c, c = Py.C_COLON \/ c = Py.C_SLASH \/ c = Py.C_QUEST
                        \/ c = Py.C_HASH ->
                        c <> Py.C_TAB /\ c <> Py.C_LF /\ c <> Py.C_CR).
  { intros c H. decompose [or] H; subst; repeat split; discriminate. }
  apply clean_app. split.
  - destruct (Py.is_empty s); [constructor|].
    apply clean_app. split; auto. constructor; [apply D; auto | constructor].
  - constructor; [apply D; auto|]. constructor; [apply D; auto|].
    apply clean_app. split; auto. apply clean_app. split; auto.
    apply clean_app. split.
    + destruct (Py.is_empty q); constructor; auto; apply D; auto.
    + destruct (Py.is_empty f); constructor; auto; apply D; auto 6.
Qed.

Lemma is_empty_false (s : str) : Py.is_empty s = false <-> s <> [].
Proof. destruct s; simpl; split; congruence. Qed.

(** [urlsplit] reads an assembled URL back into its components. *)
Lemma urlsplit_assemble (s n u q f : str) :
  split_wf s n u q f ->
  Urllib.urlsplit (assemble s n u q f) = Ok (s, n, u, q, f).
Proof.
  intros W. destruct W.
  unfold Urllib.urlsplit.
  assert (Hstrip : Py.lstrip Urllib.c0_control_or_space (assemble s n u q f)
                   = assemble s n u q f).
  { unfold assemble. destruct s as [|c s]; cbn [Py.is_empty app].
    - apply lstrip_id. reflexivity.
    - apply lstrip_id. destruct wf_scheme0 as [Hc _].
      unfold Py.islower_ascii in Hc. apply andb_true_iff in Hc as [Hc _].
      apply N.leb_le in Hc. unfold Urllib.c0_control_or_space.
      apply N.leb_gt. lia. }
  rewrite Hstrip, remove_id by (apply clean_assemble; auto).
  unfold assemble. rewrite split_scheme_assemble by auto.
  cbn [Py.startswith]. rewrite !N.eqb_refl. cbn [andb].
  unfold Urllib.splitnetloc. cbn [skipn].
  set (rest := u ++ (if Py.is_empty q then [] else Py.C_QUEST :: q)
                 ++ (if Py.is_empty f then [] else Py.C_HASH :: f)).
  assert (Hrest : rest = [] \/ exists c b', rest = c :: b' /\ netloc_stop c = true).
  { unfold rest. destruct wf_url_root0 as [-> | (u' & ->)].
    - destruct q; [destruct f|]; cbn [Py.is_empty app]; eauto.
    - right. exists Py.C_SLASH. eexists. split; reflexivity. }
  fold netloc_stop.
  rewrite (break_at_app netloc_stop n rest) by auto.
  apply netloc_accepted_inv in wf_netloc_accepted0 as [[Hb1 Hb2] Hchk].
  cbv zeta in Hb1, Hb2. rewrite Hb1, Hb2. cbn [bind].
  unfold rest.
  destruct (Py.is_empty f) eqn:Ef.
  - destruct f; [|discriminate Ef]. rewrite app_nil_r.
    destruct (Py.is_empty q) eqn:Eq.
    + destruct q; [|discriminate Eq]. rewrite app_nil_r.
      apply contains_false in wf_url_hash0, wf_url_quest0.
      rewrite wf_url_hash0, wf_url_quest0, Hchk. reflexivity.
    + assert (Hh : Py.contains Py.C_HASH (u ++ Py.C_QUEST :: q) = false).
      { apply contains_false. intros Hin. apply in_app_or in Hin as [H|[H|H]];
          [auto | discriminate H | auto]. }
      rewrite Hh.
      assert (Hq : Py.contains Py.C_QUEST (u ++ Py.C_QUEST :: q) = true).
      { apply contains_In, in_or_app. right. left. reflexivity. }
      rewrite Hq, partition_found, Hchk by auto. reflexivity.
  - set (uq := u ++ (if Py.is_empty q then [] else Py.C_QUEST :: q)).
    assert (Huq : ~ In Py.C_HASH uq).
    { unfold uq. intros Hin. apply in_app_or in Hin as [H|H]; auto.
      destruct q; cbn [Py.is_empty] in H; [destruct H|].
      destruct H as [H|H]; [discriminate H | auto]. }
    replace (u ++ (if Py.is_empty q then [] else Py.C_QUEST :: q)
               ++ Py.C_HASH :: f) with (uq ++ Py.C_HASH :: f)
      by (unfold uq; rewrite <- app_assoc; reflexivity).
    assert (Hh : Py.contains Py.C_HASH (uq ++ Py.C_HASH :: f) = true).
    { apply contains_In, in_or_app. right. left. reflexivity. }
    rewrite Hh, partition_found by auto. unfold uq.
    destruct (Py.is_empty q) eqn:Eq.
    + destruct q; [|discriminate Eq]. rewrite app_nil_r.
      apply contains_false in wf_url_quest0. rewrite wf_url_quest0, Hchk.
      reflexivity.
    + assert (Hq : Py.contains Py.C_QUEST (u ++ Py.C_QUEST :: q) = true).
      { apply contains_In, in_or_app. right. left. reflexivity. }
      rewrite Hq, partition_found, Hchk by auto. reflexivity.
Qed.

Lemma clean_scheme (s : str) :
  Forall (fun x => Urllib.scheme_char x = true) s -> clean s.
Proof.
  intros H. eapply Forall_impl; [|exact H]. intros c Hc.
  repeat split; intros ->; discriminate Hc.
Qed.

Lemma scheme_wf_clean (s : str) : scheme_wf s -> clean s.
Proof.
  destruct s as [|c s]; [constructor|]. intros [_ H].
  apply clean_scheme. eapply Forall_impl; [|exact H]. simpl. tauto.
Qed.

Lemma clean_skipn (n : nat) (s : str) : clean s -> clean (skipn n s).
Proof.
  intros H. rewrite <- (firstn_skipn n s) in H. apply clean_app in H. tauto.
Qed.

Lemma split_scheme_spec (url scheme rest : str) :
  Urllib.split_scheme url = (scheme, rest) ->
  scheme_wf scheme /\ (clean url -> clean rest).
Proof.
  unfold Urllib.split_scheme.
  destruct (Py.find Py.C_COLON url) as [i|] eqn:Ef.
  2:{ intros [= <- <-]. split; [exact I | auto]. }
  destruct url as [|c url]; [intros [= <- <-]; split; [exact I | auto]|].
  destruct ((0 <? i)%nat && (c <? 128)
            && (Py.islower_ascii c || Py.isupper_ascii c)
            && forallb Urllib.scheme_char (firstn i (c :: url))) eqn:T.
  2:{ intros [= <- <-]. split; [exact I | auto]. }
  intros [= <- <-].
  apply andb_true_iff in T as [T T4]. apply andb_true_iff in T as [T T3].
  apply andb_true_iff in T as [T1 T2].
  split; [|intros Hc; exact (clean_skipn (S i) (c :: url) Hc)].
  destruct i as [|i]; [discriminate T1|]. cbn [firstn] in *.
  apply lower_scheme_wf; auto. rewrite T2, T3. reflexivity.
Qed.

(** The components [urlsplit] returns for a URL with an authority. *)
Lemma urlsplit_wf (url s n u q f : str) :
  Urllib.urlsplit url = Ok (s, n, u, q, f) -> n <> [] -> split_wf s n u q f.
Proof.
  unfold Urllib.urlsplit.
  set (url2 := Py.remove Py.C_LF (Py.remove Py.C_CR (Py.remove Py.C_TAB
                 (Py.lstrip Urllib.c0_control_or_space url)))).
  assert (C2 : clean url2) by apply remove_clean.
  destruct (Urllib.split_scheme url2) as [s' url3] eqn:Es.
  apply split_scheme_spec in Es as [Hs C3]. specialize (C3 C2).
  destruct (Py.startswith [Py.C_SLASH; Py.C_SLASH] url3) eqn:E2.
  2:{ cbn [bind]. destruct (Py.contains Py.C_HASH url3);
        [destruct (Py.partition Py.C_HASH url3) as [[a ?] b]|];
        [destruct (Py.contains Py.C_QUEST a);
         [destruct (Py.partition Py.C_QUEST a) as [[a' ?] b']|]
        |destruct (Py.contains Py.C_QUEST url3);
         [destruct (Py.partition Py.C_QUEST url3) as [[a' ?] b']|]];
        cbn [Urllib.checknetloc_ok Py.is_empty orb];
        intros [= <- <- <- <- <-]; congruence. }
  unfold Urllib.splitnetloc. fold netloc_stop.
  destruct (Urllib.break_at netloc_stop (skipn 2 url3)) as [n' rest] eqn:Eb.
  apply break_at_spec in Eb as (Erest & Hn & Hrest).
  assert (C4 : clean n' /\ clean rest).
  { apply clean_app. rewrite <- Erest. apply clean_skipn; auto. }
  destruct C4 as [Cn Cr].
  destruct ((Py.contains Py.C_LBRACK n' && negb (Py.contains Py.C_RBRACK n'))
            || (Py.contains Py.C_RBRACK n' && negb (Py.contains Py.C_LBRACK n')))
    eqn:B1; [discriminate|].
  destruct (Py.contains Py.C_LBRACK n' && Py.contains Py.C_RBRACK n'
            && negb (Urllib.bracketed_netloc_ok n')) eqn:B2; [discriminate|].
  cbn [bind].
  set (r1 := if Py.contains Py.C_HASH rest
             then let '(a, _, b) := Py.partition Py.C_HASH rest in (a, b)
             else (rest, [])).
  assert (H1 : exists a b, r1 = (a, b) /\ ~ In Py.C_HASH a
                           /\ (rest = a /\ b = [] \/ rest = a ++ Py.C_HASH :: b)).
  { unfold r1. destruct (Py.contains Py.C_HASH rest) eqn:E.
    - destruct (Py.partition Py.C_HASH rest) as [[a fd] b] eqn:Ep.
      apply partition_spec in Ep as [Ha Hb]. exists a, b.
      destruct fd; [auto | destruct Hb as [-> ->]; auto].
    - apply contains_false in E. exists rest, []. auto. }
  destruct H1 as (a & frag & -> & Ha & Hfrag).
  set (r2 := if Py.contains Py.C_QUEST a
             then let '(a0, _, b) := Py.partition Py.C_QUEST a in (a0, b)
             else (a, [])).
  assert (H2 : exists u0 q0, r2 = (u0, q0) /\ ~ In Py.C_QUEST u0
                           /\ (a = u0 /\ q0 = [] \/ a = u0 ++ Py.C_QUEST :: q0)).
  { unfold r2. destruct (Py.contains Py.C_QUEST a) eqn:E.
    - destruct (Py.partition Py.C_QUEST a) as [[u0 fd] q0] eqn:Ep.
      apply partition_spec in Ep as [Hu Hb]. exists u0, q0.
      destruct fd; [auto | destruct Hb as [-> ->]; auto].
    - apply contains_false in E. exists a, []. auto. }
  destruct H2 as (u0 & q0 & -> & Hu & Hq).
  destruct (Urllib.checknetloc_ok n') eqn:Hchk; [|discriminate].
  intros [= <- <- <- <- <-] Hne.
  assert (Ca : clean a /\ clean frag).
  { destruct Hfrag as [[<- ->] | E]; [split; [auto | constructor]|].
    rewrite E in Cr. apply clean_app in Cr as [? Cr]. inversion Cr; auto. }
  destruct Ca as [Ca Cf].
  assert (Cu : clean u0 /\ clean q0 /\ ~ In Py.C_HASH u0 /\ ~ In Py.C_HASH q0).
  { destruct Hq as [[<- ->] | E]; [repeat split; auto; constructor|].
    rewrite E in Ca, Ha. apply clean_app in Ca as [? Ca]. inversion Ca; subst.
    repeat split; auto; intros Hin; apply Ha, in_or_app; auto.
    right. right. auto. }
  destruct Cu as (Cu & Cq & Huh & Hqh).
  constructor; auto.
  - unfold netloc_accepted. cbv zeta. rewrite B1, B2, Hchk. reflexivity.
  - destruct Hrest as [-> | (c & b' & -> & Hc)].
    + left. destruct Hfrag as [[<- _] | E]; [|destruct a; discriminate E].
      destruct Hq as [[<- _] | E]; [auto | destruct u0; discriminate E].
    + assert (Ea : a = [] \/ exists a', a = c :: a').
      { destruct Hfrag as [[<- _] | E]; [eauto|].
        destruct a as [|x a]; [auto|]. injection E as <- _. eauto. }
      destruct Ea as [-> | (a' & ->)].
      * left. destruct Hq as [[<- _] | E]; [auto | destruct u0; discriminate E].
      * destruct Hq as [[<- _] | E].
        -- unfold netloc_stop in Hc.
           destruct (N.eqb_spec c Py.C_SLASH) as [->|]; [right; eauto|].
           destruct (N.eqb_spec c Py.C_QUEST) as [->|];
             [exfalso; apply Hu; left; auto|].
           destruct (N.eqb_spec c Py.C_HASH) as [->|];
             [exfalso; apply Ha; left; auto | discriminate Hc].
        -- destruct u0 as [|x u0]; [auto|]. injection E as <- _.
           unfold netloc_stop in Hc.
           destruct (N.eqb_spec c Py.C_SLASH) as [->|]; [right; eauto|].
           destruct (N.eqb_spec c Py.C_QUEST) as [->|];
             [exfalso; apply Hu; left; auto|].
           destruct (N.eqb_spec c Py.C_HASH) as [->|];
             [exfalso; apply Huh; left; auto | discriminate Hc].
  - apply scheme_wf_clean; auto.
Qed.

Lemma urlparse_eq (url : str) :
  Urllib.urlparse url
  = (r <- Urllib.urlsplit url ;;
     let '(s, n, u, q, f) := r in
     let '(path, params) := split_params s u in
     Ok (Urllib.mkParseResult s n path params q f)).
Proof. reflexivity. Qed.

Lemma geturl_eq (p : Urllib.ParseResult) :
  Urllib.geturl p
  = Urllib.urlunsplit (Urllib.scheme p) (Urllib.netloc p)
                      (with_params (Urllib.path p) (Urllib.params p))
                      (Urllib.query p) (Urllib.fragment p).
Proof. reflexivity. Qed.

Lemma urlunsplit_assemble (s n u q f : str) :
  n <> [] -> (u = [] \/ exists u', u = Py.C_SLASH :: u') ->
  Urllib.urlunsplit s n u q f = assemble s n u q f.
Proof.
  intros Hn Hu. unfold Urllib.urlunsplit, assemble.
  destruct n as [|x n]; [congruence|]. cbn [Py.is_empty negb orb].
  assert (E : (if negb (Py.is_empty u)
                  && negb (Py.startswith [Py.C_SLASH] u)
               then Py.C_SLASH :: u else u) = u).
  { destruct Hu as [-> | (u' & ->)]; reflexivity. }
  rewrite E.
  destruct s, q, f; cbn [Py.is_empty app]; rewrite <- ?app_assoc;
    cbn [app]; rewrite ?app_nil_r; rewrite <- ?app_assoc; reflexivity.
Qed.

(** Writing the path and its parameters and reading them again gives them
    back; what is written is what was read, but for a [';'] that ended it
    with no parameters behind. *)
Lemma split_params_spec (s url path params : str) :
  split_params s url = (path, params) ->
  split_params s (with_params path params) = (path, params)
  /\ (with_params path params = url
      \/ (params = [] /\ url = path ++ [Py.C_SEMI])).
Proof.
  unfold split_params.
  destruct (Urllib.mem s Urllib.uses_params) eqn:Em; cbn [andb].
  2:{ intros [= <- <-]. cbn [with_params Py.is_empty]. auto. }
  destruct (Py.contains Py.C_SEMI url) eqn:Ec.
  2:{ intros [= <- <-]. cbn [with_params Py.is_empty].
      rewrite Ec. auto. }
  unfold Urllib.splitparams.
  pose proof (rsplit_last_spec Py.C_SLASH url) as Hr.
  destruct (Urllib.rsplit_last Py.C_SLASH url) as [[dir seg]|].
  - destruct Hr as [-> Hseg].
    destruct (Py.partition Py.C_SEMI seg) as [[a found] b] eqn:Ep.
    apply partition_spec in Ep as [Ha Hb].
    destruct found.
    + subst seg. intros [= <- <-].
      assert (Hsl : ~ In Py.C_SLASH a)
        by (intros Hin; apply Hseg, in_or_app; auto).
      destruct b as [|y b]; cbn [with_params Py.is_empty].
      * split; [|right; split; auto; rewrite <- app_assoc; reflexivity].
        destruct (Py.contains Py.C_SEMI (dir ++ Py.C_SLASH :: a)); auto.
        rewrite rsplit_last_app by auto.
        rewrite partition_not_found by auto. reflexivity.
      * replace ((dir ++ Py.C_SLASH :: a) ++ Py.C_SEMI :: y :: b)
          with (dir ++ Py.C_SLASH :: a ++ Py.C_SEMI :: y :: b)
          by (rewrite <- app_assoc; reflexivity).
        rewrite Ec. rewrite rsplit_last_app by auto.
        rewrite partition_found by auto. auto.
    + destruct Hb as [-> ->]. intros [= <- <-].
      cbn [with_params Py.is_empty]. rewrite Ec.
      rewrite rsplit_last_app by auto.
      rewrite partition_not_found by auto. auto.
  - destruct (Py.partition Py.C_SEMI url) as [[a found] b] eqn:Ep.
    apply partition_spec in Ep as [Ha Hb].
    destruct found.
    + subst url. intros [= <- <-].
      assert (Hsl : ~ In Py.C_SLASH a)
        by (intros Hin; apply Hr, in_or_app; auto).
      destruct b as [|y b]; cbn [with_params Py.is_empty].
      * apply contains_false in Ha. rewrite Ha. auto.
      * rewrite Ec.
        pose proof (rsplit_last_spec Py.C_SLASH (a ++ Py.C_SEMI :: y :: b)) as Hr'.
        destruct (Urllib.rsplit_last Py.C_SLASH (a ++ Py.C_SEMI :: y :: b))
          as [[d g]|].
        -- exfalso. apply Hr. destruct Hr' as [-> _].
           apply in_or_app. right. left. reflexivity.
        -- rewrite partition_found by auto. auto.
    + destruct Hb as [-> _]. apply contains_In in Ec. contradiction.
Qed.

Lemma split_params_chars (s url path params : str) (c : char) :
  split_params s url = (path, params) ->
  In c (with_params path params) -> In c url.
Proof.
  intros H Hin. apply split_params_spec in H as [_ [<- | [-> ->]]]; auto.
  apply in_or_app. left. exact Hin.
Qed.

Lemma split_params_root (s url path params : str) :
  split_params s url = (path, params) ->
  (url = [] \/ exists url', url = Py.C_SLASH :: url') ->
  with_params path params = []
  \/ exists u', with_params path params = Py.C_SLASH :: u'.
Proof.
  intros H Hu. apply split_params_spec in H as [_ [-> | [-> ->]]]; auto.
  cbn [with_params Py.is_empty].
  destruct Hu as [E | (u' & E)]; [destruct path; discriminate E|].
  destruct path as [|x path]; [auto|]. injection E as -> _. eauto.
Qed.

(** The parsed URL [urlparse] returns for a URL with an authority. *)
Lemma urlparse_wf (url : str) (p : Urllib.ParseResult) :
  Urllib.urlparse url = Ok p -> Urllib.netloc p <> [] -> parsed_wf p.
Proof.
  rewrite urlparse_eq.
  destruct (Urllib.urlsplit url) as [[[[[s n] u] q] f]|] eqn:E; [|discriminate].
  cbn [bind]. destruct (split_params s u) as [path params] eqn:Ep.
  intros [= <-] Hn. cbn in Hn.
  destruct (urlsplit_wf _ _ _ _ _ _ E Hn).
  pose proof (split_params_spec _ _ _ _ Ep) as [Hidem Hw].
  split; [|exact Hidem]. cbn.
  constructor; auto.
  - exact (split_params_root _ _ _ _ Ep wf_url_root0).
  - intros Hin. apply wf_url_quest0. exact (split_params_chars _ _ _ _ _ Ep Hin).
  - intros Hin. apply wf_url_hash0. exact (split_params_chars _ _ _ _ _ Ep Hin).
  - apply Forall_forall. intros c Hc.
    unfold clean in wf_clean_url0. rewrite Forall_forall in wf_clean_url0.
    apply wf_clean_url0. exact (split_params_chars _ _ _ _ _ Ep Hc).
Qed.

(** Serialising a parsed URL with a new query, and parsing the result. *)
Lemma urlparse_geturl (p : Urllib.ParseResult) (q : str) :
  parsed_wf p -> ~ In Py.C_HASH q -> clean q ->
  Urllib.geturl (Urllib.replace_query p q)
  = assemble (Urllib.scheme p) (Urllib.netloc p)
             (with_params (Urllib.path p) (Urllib.params p))
             q (Urllib.fragment p)
  /\ Urllib.urlparse (Urllib.geturl (Urllib.replace_query p q))
     = Ok (Urllib.replace_query p q).
Proof.
  intros [W Hidem] Hq Cq.
  assert (E : Urllib.geturl (Urllib.replace_query p q)
              = assemble (Urllib.scheme p) (Urllib.netloc p)
                         (with_params (Urllib.path p) (Urllib.params p))
                         q (Urllib.fragment p)).
  { rewrite geturl_eq. cbn [Urllib.replace_query Urllib.scheme Urllib.netloc
                            Urllib.path Urllib.params Urllib.query
                            Urllib.fragment].
    destruct W. apply urlunsplit_assemble; auto. }
  split; [exact E|]. rewrite E, urlparse_eq.
  rewrite urlsplit_assemble by (destruct W; constructor; auto).
  cbn [bind]. rewrite Hidem. reflexivity.
Qed.

End UrlSplit.

Section Annotator.

Lemma urlencode_clean (d : Dict.t) (q : str) :
  Urllib.urlencode d = Ok q ->
  ~ In Py.C_HASH q /\ clean q /\ Forall (fun c => url_char c = true) q.
Proof.
  intros H. apply urlencode_chars in H.
  assert (G : Forall (fun c => c <> Py.C_HASH
                               /\ (c <> Py.C_TAB /\ c <> Py.C_LF /\ c <> Py.C_CR)
                               /\ url_char c = true) q).
  { eapply Forall_impl; [|exact H]. intros c [Hc | [-> | ->]].
    - apply quoted_char_not in Hc. tauto.
    - repeat split; discriminate.
    - repeat split; discriminate. }
  rewrite Forall_forall in G. repeat split.
  - intros Hin. apply G in Hin. tauto.
  - apply Forall_forall. intros c Hc. apply G in Hc. tauto.
  - apply Forall_forall. intros c Hc. apply G in Hc. tauto.
Qed.

(** The output of [add_utm_to_url] on a URL with an authority, and what
    it parses to. *)
Lemma add_utm_parsed (parsed : Urllib.ParseResult)
      (source medium campaign out : str) :
  parsed_wf parsed ->
  add_utm_to_url (UrlParsed parsed) source medium campaign = Ok out ->
  exists q,
    Urllib.urlencode (merged_params parsed source medium campaign) = Ok q
    /\ out = assemble (Urllib.scheme parsed) (Urllib.netloc parsed)
                      (with_params (Urllib.path parsed) (Urllib.params parsed))
                      q (Urllib.fragment parsed)
    /\ Urllib.geturl (Urllib.replace_query parsed q) = out
    /\ Urllib.urlparse out = Ok (Urllib.replace_query parsed q).
Proof.
  intros W H. apply add_utm_inv in H as (p & q & [= <-] & Hq & ->).
  destruct (urlencode_clean _ _ Hq) as (Hh & Hc & _).
  destruct (urlparse_geturl parsed q W Hh Hc) as [E1 E2].
  exists q. rewrite <- E1. auto.
Qed.

Lemma add_utm_str_parsed (u : str) (parsed : Urllib.ParseResult)
      (source medium campaign : str) :
  Urllib.urlparse u = Ok parsed ->
  add_utm_to_url (UrlStr u) source medium campaign
  = add_utm_to_url (UrlParsed parsed) source medium campaign.
Proof. intros H. unfold add_utm_to_url. cbn [as_parsed]. rewrite H. reflexivity. Qed.

End Annotator.

(** C6, amended.  For a URL with a non-empty authority, the URL that
    [add_utm_to_url] returns parses to the scheme, authority, path,
    parameters and fragment of the input; only the query is new. *)
Theorem C6_components_preserved
        (u : str) (parsed : Urllib.ParseResult)
        (source medium campaign out : str) :
  Urllib.urlparse u = Ok parsed ->
  Urllib.netloc parsed <> [] ->
  add_utm_to_url (UrlStr u) source medium campaign = Ok out ->
  exists parsed',
    Urllib.urlparse out = Ok parsed'
    /\ Urllib.scheme parsed' = Urllib.scheme parsed
    /\ Urllib.netloc parsed' = Urllib.netloc parsed
    /\ Urllib.path parsed' = Urllib.path parsed
    /\ Urllib.params parsed' = Urllib.params parsed
    /\ Urllib.fragment parsed' = Urllib.fragment parsed
    /\ Urllib.urlencode (merged_params parsed source medium campaign)
       = Ok (Urllib.query parsed').
Proof.
  intros Hp Hn H. rewrite (add_utm_str_parsed _ _ _ _ _ Hp) in H.
  apply add_utm_parsed in H as (q & Hq & _ & _ & Hout);
    [|eapply urlparse_wf; eauto].
  exists (Urllib.replace_query parsed q). repeat split; auto.
Qed.


(** ** Annotating one URL *)

Section SingleUrl.

Lemma token_scheme (tok : str) :
  is_token tok ->
  exists s, tok = s ++ lit "://" /\ scheme_wf s /\ s <> []
            /\ ~ In Py.C_COLON s
            /\ Forall (fun c => url_char c = true) tok.
Proof.
  intros [-> | ->]; [exists (lit "http") | exists (lit "https")];
    (split; [reflexivity|]); (split; [|split; [discriminate|split]]).
  - split; [reflexivity|]. repeat constructor.
  - intros H. apply contains_In in H. discriminate H.
  - repeat constructor.
  - split; [reflexivity|]. repeat constructor.
  - intros H. apply contains_In in H. discriminate H.
  - repeat constructor.
Qed.

Lemma assemble_token (s n u q f : str) :
  s <> [] ->
  assemble s n u q f
  = (s ++ lit "://") ++ n ++ u
    ++ (if Py.is_empty q then [] else Py.C_QUEST :: q)
    ++ (if Py.is_empty f then [] else Py.C_HASH :: f).
Proof.
  intros Hs. unfold assemble. destruct s; [congruence|].
  cbn [Py.is_empty]. rewrite <- !app_assoc. reflexivity.
Qed.

Lemma url_char_clean (s : str) :
  Forall (fun c => url_char c = true) s -> clean s.
Proof.
  intros H. eapply Forall_impl; [|exact H]. intros c Hc.
  repeat split; intros ->; discriminate Hc.
Qed.

Lemma utm_quoted :
  Urllib.quote_plus (lit "utm_source") = Ok (lit "utm_source")
  /\ Urllib.quote_plus (lit "utm_medium") = Ok (lit "utm_medium")
  /\ Urllib.quote_plus (lit "utm_campaign") = Ok (lit "utm_campaign").
Proof. repeat split; reflexivity. Qed.

(** The encoded tracking parameters. *)
Lemma urlencode_utm (source medium campaign qs qm qc : str) :
  Urllib.quote_plus source = Ok qs ->
  Urllib.quote_plus medium = Ok qm ->
  Urllib.quote_plus campaign = Ok qc ->
  Urllib.urlencode (utm_params source medium campaign)
  = Ok (lit "utm_source=" ++ qs ++ lit "&utm_medium=" ++ qm
        ++ lit "&utm_campaign=" ++ qc).
Proof.
  intros Hs Hm Hc. unfold Urllib.urlencode, utm_params.
  destruct utm_quoted as (E1 & E2 & E3).
  cbn [mapM fst snd]. rewrite E1, E2, E3, Hs, Hm, Hc. cbn [bind].
  reflexivity.
Qed.

Lemma merged_no_query (parsed : Urllib.ParseResult)
      (source medium campaign : str) :
  Urllib.query parsed = [] ->
  merged_params parsed source medium campaign
  = utm_params source medium campaign.
Proof. intros H. unfold merged_params. rewrite H. reflexivity. Qed.

Lemma replace_from_skip (old new s : str) :
  Py.replace_from old new (length s) s = [].
Proof. induction s as [|x s IH]; simpl; auto. Qed.

Lemma startswith_refl (s : str) : Py.startswith s s = true.
Proof. induction s as [|x s IH]; simpl; auto. rewrite N.eqb_refl; auto. Qed.

(** Replacing a string in itself. *)
Lemma replace_self (s new : str) : s <> [] -> Py.replace s new s = new.
Proof.
  destruct s as [|c s]; [congruence|]. intros _.
  unfold Py.replace. cbn [Py.replace_from].
  rewrite startswith_refl.
  cbn [length Nat.sub]. rewrite Nat.sub_0_r, replace_from_skip.
  apply app_nil_r.
Qed.

(** A text that is one URL. *)
Lemma find_urls_single (tok run : str) :
  is_token tok -> run <> [] -> Forall (fun c => url_char c = true) run ->
  find_urls (tok ++ run) = [tok ++ run].
Proof.
  intros Htok Hne Hrun. apply located_find_urls.
  replace (tok ++ run) with ([] ++ tok ++ run ++ []) at 1
    by (rewrite app_nil_r; reflexivity).
  apply Located_cons; auto.
  - intros c r [=].
  - intros a b E Hb. destruct a, b; try discriminate. congruence.
  - apply Located_nil. intros pre suf E.
    destruct pre, suf; try discriminate.
    intros (t & c & r & _ & _ & E'). destruct t; discriminate.
Qed.

(** [add_utm_to_all_urls] on a text that is one URL, written the way
    [geturl] writes it, and that is not an image. *)
Lemma add_all_single (tok run : str) (parsed : Urllib.ParseResult)
      (source medium campaign new : str) :
  is_token tok -> run <> [] -> Forall (fun c => url_char c = true) run ->
  Urllib.urlparse (tok ++ run) = Ok parsed ->
  Urllib.geturl parsed = tok ++ run ->
  is_image (Urllib.path parsed) = false ->
  add_utm_to_url (UrlParsed parsed) source medium campaign = Ok new ->
  add_utm_to_all_urls (tok ++ run) source medium campaign = Ok new.
Proof.
  intros Htok Hne Hrun Hp Hg Him Hnew. unfold add_utm_to_all_urls.
  rewrite find_urls_single by auto. cbn [mapM]. rewrite Hp. cbn [bind filter].
  rewrite Him. cbn [negb mapM]. rewrite Hnew. cbn [bind]. rewrite Hg.
  cbn [Dict.of_pairs Dict.update fold_left Dict.set fst snd].
  f_equal. apply replace_self. destruct tok; [|discriminate].
  destruct Htok; discriminate.
Qed.

(** [add_utm_to_all_urls] on a text that is one image URL. *)
Lemma add_all_single_image (tok run : str) (parsed : Urllib.ParseResult)
      (source medium campaign : str) :
  is_token tok -> run <> [] -> Forall (fun c => url_char c = true) run ->
  Urllib.urlparse (tok ++ run) = Ok parsed ->
  is_image (Urllib.path parsed) = true ->
  add_utm_to_all_urls (tok ++ run) source medium campaign = Ok (tok ++ run).
Proof.
  intros Htok Hne Hrun Hp Him. unfold add_utm_to_all_urls.
  rewrite find_urls_single by auto. cbn [mapM]. rewrite Hp. cbn [bind filter].
  rewrite Him. reflexivity.
Qed.

End SingleUrl.

(** C1, amended.  For a URL [u] that starts with [http://] or [https://],
    has a non-empty authority that [urlparse] accepts, has no ['?'] and no
    ['#'], and does not end in [';'], [add_utm_to_url] returns [u] followed
    by [?utm_source=S&utm_medium=M&utm_campaign=C], the three values
    written with [quote_plus]; and where [u] is not an image and has no
    white space or parentheses, so does [add_utm_to_all_urls] on the text
    [u]. *)
Theorem C1_utm_appended
        (tok auth rest source medium campaign qs qm qc : str) :
  is_token tok ->
  auth <> [] ->
  Forall (fun c => netloc_stop c = false) auth ->
  netloc_accepted auth = true ->
  (rest = [] \/ exists rest', rest = Py.C_SLASH :: rest') ->
  ~ In Py.C_QUEST rest ->
  ~ In Py.C_HASH rest ->
  (forall r, rest <> r ++ lit ";") ->
  clean (auth ++ rest) ->
  Urllib.quote_plus source = Ok qs ->
  Urllib.quote_plus medium = Ok qm ->
  Urllib.quote_plus campaign = Ok qc ->
  let u := tok ++ auth ++ rest in
  let out := u ++ lit "?utm_source=" ++ qs ++ lit "&utm_medium=" ++ qm
               ++ lit "&utm_campaign=" ++ qc in
  add_utm_to_url (UrlStr u) source medium campaign = Ok out
  /\ (Forall (fun c => url_char c = true) (auth ++ rest) ->
      (forall parsed, Urllib.urlparse u = Ok parsed ->
                      is_image (Urllib.path parsed) = false) ->
      add_utm_to_all_urls u source medium campaign = Ok out).
Proof.
  intros Htok Hauth Hstop Hacc Hroot Hq Hh Hsemi Hclean Hs Hm Hc u out.
  destruct (token_scheme tok Htok) as (s & Etok & Hswf & Hsne & Hscolon & Htokc).
  apply clean_app in Hclean as [Cauth Crest].
  assert (Eu : u = assemble s auth rest [] []).
  { unfold u. rewrite assemble_token by auto. cbn [Py.is_empty].
    rewrite !app_nil_r, Etok. reflexivity. }
  assert (W : split_wf s auth rest [] []).
  { constructor; auto; try (intros []); try constructor.
    apply scheme_wf_clean; auto. }
  pose proof (urlsplit_assemble _ _ _ _ _ W) as Hsplit. rewrite <- Eu in Hsplit.
  destruct (split_params s rest) as [path params] eqn:Ep.
  assert (Hparse : Urllib.urlparse u
                   = Ok (Urllib.mkParseResult s auth path params [] [])).
  { rewrite urlparse_eq, Hsplit. cbn [bind]. rewrite Ep. reflexivity. }
  set (parsed := Urllib.mkParseResult s auth path params [] []) in *.
  assert (Hwp : with_params path params = rest).
  { destruct (split_params_spec _ _ _ _ Ep) as [_ [E | [_ E]]]; auto.
    exfalso. apply (Hsemi path). exact E. }
  assert (Hwf : parsed_wf parsed) by (eapply urlparse_wf; eauto).
  assert (Hq' : Urllib.urlencode (merged_params parsed source medium campaign)
                = Ok (lit "utm_source=" ++ qs ++ lit "&utm_medium=" ++ qm
                      ++ lit "&utm_campaign=" ++ qc)).
  { rewrite merged_no_query by reflexivity. apply urlencode_utm; auto. }
  assert (Hout : add_utm_to_url (UrlParsed parsed) source medium campaign
                 = Ok out).
  { unfold add_utm_to_url. cbn [as_parsed bind]. rewrite Hq'. cbn [bind].
    f_equal. destruct (urlencode_clean _ _ Hq') as (Hh' & Hc' & _).
    destruct (urlparse_geturl parsed _ Hwf Hh' Hc') as [-> _].
    cbn [Urllib.scheme Urllib.netloc Urllib.path Urllib.params
         Urllib.fragment parsed].
    rewrite Hwp, assemble_token by auto. cbn [Py.is_empty app].
    rewrite app_nil_r. unfold out, u. rewrite Etok, <- !app_assoc.
    reflexivity. }
  split.
  - rewrite (add_utm_str_parsed _ _ _ _ _ Hparse). exact Hout.
  - intros Hchars Himg. unfold u in *.
    apply add_all_single with (parsed := parsed); auto.
    + intros E. apply app_eq_nil in E as [E _]. auto.
    + rewrite geturl_eq.
      cbn [Urllib.scheme Urllib.netloc Urllib.path Urllib.params
           Urllib.query Urllib.fragment parsed].
      rewrite Hwp, urlunsplit_assemble by auto. symmetry. exact Eu.
Qed.

(** ** Annotating twice *)

Section Idempotence.

Lemma decode_nonempty (bs : list N) : bs <> [] -> Utf8.decode bs <> [].
Proof.
  destruct bs as [|b t]; [congruence|]. intros _.
  cbn [Utf8.decode]. unfold Utf8.is_continuation.
  split_tests; intros E; discriminate E.
Qed.

Lemma unquote_to_bytes_nonempty (z : str) :
  z <> [] -> Urllib.unquote_to_bytes z <> [].
Proof.
  destruct z as [|c z]; [congruence|]. intros _.
  destruct (N.eqb_spec c Py.C_PERCENT) as [->|Hc].
  - unfold Urllib.unquote_to_bytes. rewrite split_cons_sep.
    pose proof (split_nonempty Py.C_PERCENT z).
    destruct (Py.split Py.C_PERCENT z) as [|item items]; [congruence|].
    cbn [app flat_map]. unfold Urllib.unquote_item.
    destruct item as [|h1 [|h2 r]]; try discriminate.
    destruct (Urllib.hex_value h1); [|discriminate].
    destruct (Urllib.hex_value h2); discriminate.
  - rewrite unquote_to_bytes_cons by auto. discriminate.
Qed.

Lemma unquote_run_nonempty (run : str) :
  run <> [] -> Urllib.unquote_run run <> [].
Proof.
  intros H. unfold Urllib.unquote_run. destruct run as [|c run]; [congruence|].
  apply decode_nonempty, unquote_to_bytes_nonempty. discriminate.
Qed.

Lemma unquote_runs_nonempty (run z : str) :
  run <> [] \/ z <> [] -> Urllib.unquote_runs run z <> [].
Proof.
  revert run; induction z as [|c z IH]; intros run H.
  - cbn [Urllib.unquote_runs]. apply unquote_run_nonempty.
    destruct H; congruence.
  - cbn [Urllib.unquote_runs]. destruct (c <? 128).
    + apply IH. left. destruct run; discriminate.
    + destruct (Urllib.unquote_run run); discriminate.
Qed.

(** A value that is not empty is not empty once unquoted. *)
Lemma unquote_plus_nonempty (x : str) : x <> [] -> Urllib.unquote_plus x <> [].
Proof.
  intros H. unfold Urllib.unquote_plus, Urllib.unquote.
  assert (H' : Py.replace_char Py.C_PLUS Py.C_SPACE x <> []).
  { destruct x; [congruence | discriminate]. }
  destruct (Py.contains _ _); auto.
  apply unquote_runs_nonempty. auto.
Qed.

Lemma quote_plus_nonempty (v qv : str) :
  Urllib.quote_plus v = Ok qv -> v <> [] -> qv <> [].
Proof.
  intros H Hv E. subst qv. apply unquote_quote_plus in H.
  apply Hv. rewrite <- H. reflexivity.
Qed.

(** Parsing an encoded dictionary whose values are not empty gives its
    entries back. *)
Lemma parse_qsl_urlencode (d : Dict.t) (q : str) :
  Urllib.urlencode d = Ok q ->
  Forall (fun kv => snd kv <> []) d ->
  Urllib.parse_qsl q = d.
Proof.
  intros H Hd. apply urlencode_inv in H as (l & Hl & ->).
  rewrite parse_qsl_join.
  2:{ clear Hd. induction Hl; constructor; auto. eapply encodes_no_amp; eauto. }
  induction Hl as [|[k v] f d l Hf Hl IH]; [reflexivity|].
  inversion Hd as [|? ? Hv Hd']; subst. cbn [flat_map].
  rewrite IH by auto.
  destruct Hf as (qk & qv & Hk & Hqv & ->). cbn [fst snd] in *.
  rewrite parse_field_value.
  - unfold Urllib.unquote_plus.
    rewrite (unquote_quote_plus _ _ Hk), (unquote_quote_plus _ _ Hqv).
    reflexivity.
  - eapply quote_plus_no; eauto.
  - eapply quote_plus_nonempty; eauto.
Qed.

Lemma set_same (k v : str) (d : Dict.t) :
  Dict.get k d = Some v -> Dict.set k v d = d.
Proof.
  induction d as [|[k0 v0] d IH]; simpl; [discriminate|].
  destruct (Py.eqb k0 k) eqn:E.
  - intros [= ->]. reflexivity.
  - intros H. rewrite IH; auto.
Qed.

Lemma update_same (d : Dict.t) (pairs : list (str * str)) :
  Forall (fun kv => Dict.get (fst kv) d = Some (snd kv)) pairs ->
  Dict.update d pairs = d.
Proof.
  unfold Dict.update. induction 1 as [|[k v] pairs Hkv _ IH]; simpl; auto.
  rewrite set_same; auto.
Qed.

Lemma merged_values (parsed : Urllib.ParseResult)
      (source medium campaign : str) :
  source <> [] -> medium <> [] -> campaign <> [] ->
  Forall (fun kv => snd kv <> [])
         (merged_params parsed source medium campaign).
Proof.
  intros Hs Hm Hc. apply Forall_forall. intros [k v] Hin. cbn [snd].
  apply merged_In in Hin as [Hin|Hin].
  - destruct Hin as [[= _ <-]|[[= _ <-]|[[= _ <-]|[]]]]; auto.
  - rewrite parse_qsl_eq in Hin. apply in_flat_map in Hin as (f & _ & Hin).
    apply parse_field_In in Hin as (name & value & _ & _ & Hv & _ & ->).
    apply unquote_plus_nonempty; auto.
Qed.

(** The merged parameters of the annotated URL are those of the URL. *)
Lemma merged_again (parsed : Urllib.ParseResult)
      (source medium campaign q : str) :
  source <> [] -> medium <> [] -> campaign <> [] ->
  Urllib.urlencode (merged_params parsed source medium campaign) = Ok q ->
  merged_params (Urllib.replace_query parsed q) source medium campaign
  = merged_params parsed source medium campaign.
Proof.
  intros Hs Hm Hc Hq.
  rewrite (merged_params_eq (Urllib.replace_query parsed q)).
  cbn [Urllib.replace_query Urllib.query].
  rewrite (parse_qsl_urlencode _ _ Hq) by (apply merged_values; auto).
  unfold Dict.of_pairs. rewrite update_nil_dict by apply merged_NoDup.
  apply update_same.
  destruct (merged_get_utm parsed source medium campaign) as (H1 & H2 & H3).
  repeat constructor; assumption.
Qed.

(** Annotating an annotated URL with the same values changes nothing. *)
Lemma add_utm_again (parsed : Urllib.ParseResult)
      (source medium campaign out : str) :
  parsed_wf parsed ->
  source <> [] -> medium <> [] -> campaign <> [] ->
  add_utm_to_url (UrlParsed parsed) source medium campaign = Ok out ->
  exists parsed',
    Urllib.urlparse out = Ok parsed'
    /\ Urllib.geturl parsed' = out
    /\ Urllib.path parsed' = Urllib.path parsed
    /\ add_utm_to_url (UrlParsed parsed') source medium campaign = Ok out.
Proof.
  intros W Hs Hm Hc H.
  apply add_utm_parsed in H as (q & Hq & _ & Hg & Hp); auto.
  exists (Urllib.replace_query parsed q). repeat split; auto.
  unfold add_utm_to_url. cbn [as_parsed bind].
  rewrite merged_again, Hq by auto. cbn [bind]. f_equal. exact Hg.
Qed.

End Idempotence.

Section IdempotenceText.

Lemma geturl_wf (p : Urllib.ParseResult) :
  parsed_wf p ->
  Urllib.geturl p
  = assemble (Urllib.scheme p) (Urllib.netloc p)
             (with_params (Urllib.path p) (Urllib.params p))
             (Urllib.query p) (Urllib.fragment p).
Proof.
  intros [W _]. rewrite geturl_eq. destruct W.
  apply urlunsplit_assemble; auto.
Qed.

Lemma scheme_wf_no_colon (s : str) : scheme_wf s -> ~ In Py.C_COLON s.
Proof.
  destruct s as [|c s]; [intros _ []|]. intros [_ H] Hin.
  rewrite Forall_forall in H. destruct (H _ Hin) as [Hc _]. discriminate Hc.
Qed.

(** A URL with an authority that starts with a token: its scheme is the
    token's, and the rest is the run after the token. *)
Lemma assemble_located (tok run s n u q f : str) :
  is_token tok -> scheme_wf s ->
  tok ++ run = assemble s n u q f ->
  s <> []
  /\ tok = s ++ lit "://"
  /\ run = n ++ u ++ (if Py.is_empty q then [] else Py.C_QUEST :: q)
             ++ (if Py.is_empty f then [] else Py.C_HASH :: f).
Proof.
  intros Htok Hs E.
  destruct (token_scheme tok Htok) as (ts & -> & Hwf & Htsne & Hts & _).
  destruct s as [|c s].
  - exfalso. unfold assemble in E. cbn [Py.is_empty app] in E.
    destruct ts as [|x ts]; [congruence|]. destruct Hwf as [Hx _].
    injection E as -> _. cbv in Hx. discriminate Hx.
  - rewrite assemble_token in E by discriminate.
    rewrite <- !app_assoc in E.
    change (lit "://" ++ ?x) with (Py.C_COLON :: lit "//" ++ x) in E.
    apply app_sep_inj in E as [<- E]; auto using scheme_wf_no_colon.
    injection E as E. repeat split; auto.
Qed.

End IdempotenceText.


(** ** Returning normally *)

Section Totality.

Lemma located_chars (text : str) (urls : list str) :
  Located text urls ->
  forall u c, In u urls -> In c u -> In c text.
Proof.
  induction 1 as [text H | pre tok run rest urls _ _ _ _ _ _ IH];
    intros u c Hu Hc; [destruct Hu|].
  destruct Hu as [<- | Hu].
  - apply in_or_app. right. rewrite app_assoc. apply in_or_app. left. exact Hc.
  - apply in_or_app. right. apply in_or_app. right. apply in_or_app. right.
    eapply IH; eauto.
Qed.

Lemma find_urls_chars (text u : str) (c : char) :
  In u (find_urls text) -> In c u -> In c text.
Proof.
  intros Hu Hc.
  exact (located_chars _ _ (find_urls_located text) u c Hu Hc).
Qed.

Lemma lstrip_In (strip : char -> bool) (s : str) (c : char) :
  In c (Py.lstrip strip s) -> In c s.
Proof.
  induction s as [|x s IH]; simpl; auto.
  destruct (strip x); auto.
Qed.

Lemma skipn_In {A : Type} (n : nat) (l : list A) (x : A) :
  In x (skipn n l) -> In x l.
Proof.
  intros H. rewrite <- (firstn_skipn n l). apply in_or_app. auto.
Qed.

Lemma split_scheme_In (url s rest : str) (c : char) :
  Urllib.split_scheme url = (s, rest) -> In c rest -> In c url.
Proof.
  unfold Urllib.split_scheme.
  destruct (Py.find Py.C_COLON url) as [i|]; [|intros [= _ <-]; auto].
  destruct url as [|x url]; [intros [= _ <-]; auto|].
  destruct (_ && _); intros [= _ <-]; auto.
  intros H. exact (skipn_In (S i) (x :: url) c H).
Qed.

(** The characters of the query are characters of the URL. *)
Lemma urlsplit_query_chars (url s n u q f : str) (c : char) :
  Urllib.urlsplit url = Ok (s, n, u, q, f) -> In c q -> In c url.
Proof.
  unfold Urllib.urlsplit.
  set (url2 := Py.remove Py.C_LF (Py.remove Py.C_CR (Py.remove Py.C_TAB
                 (Py.lstrip Urllib.c0_control_or_space url)))).
  assert (H2 : forall x, In x url2 -> In x url).
  { intros x Hx. unfold url2, Py.remove in Hx.
    apply filter_In in Hx as [Hx _]. apply filter_In in Hx as [Hx _].
    apply filter_In in Hx as [Hx _]. eapply lstrip_In; eauto. }
  destruct (Urllib.split_scheme url2) as [s' url3] eqn:Es.
  assert (H3 : forall x, In x url3 -> In x url).
  { intros x Hx. apply H2. eapply split_scheme_In; eauto. }
  set (nu := if Py.startswith [Py.C_SLASH; Py.C_SLASH] url3 then _ else _).
  assert (Hnu : forall n' rest, nu = Ok (n', rest) ->
                                forall x, In x rest -> In x url).
  { unfold nu. intros n' rest. destruct (Py.startswith _ url3).
    - destruct (Urllib.splitnetloc url3) as [n0 r0] eqn:Eb.
      unfold Urllib.splitnetloc in Eb. apply break_at_spec in Eb as (E & _ & _).
      destruct (_ || _); [discriminate|].
      destruct (_ && _); [discriminate|]. intros [= <- <-] x Hx.
      apply H3. apply (skipn_In 2). rewrite E. apply in_or_app. auto.
    - intros [= <- <-]. exact H3. }
  destruct nu as [[n' rest]|]; [|discriminate]. cbn [bind].
  specialize (Hnu n' rest eq_refl).
  set (r1 := if Py.contains Py.C_HASH rest then _ else _).
  assert (H1 : forall x, In x (fst r1) -> In x rest).
  { unfold r1. destruct (Py.contains Py.C_HASH rest); auto.
    destruct (Py.partition Py.C_HASH rest) as [[a fd] b] eqn:Ep.
    apply partition_spec in Ep as [_ Hb]. cbn [fst]. intros x Hx.
    destruct fd; [rewrite Hb; apply in_or_app; auto | destruct Hb; subst; auto]. }
  destruct r1 as [a frag]. cbn [fst] in H1.
  set (r2 := if Py.contains Py.C_QUEST a then _ else _).
  assert (Hq : forall x, In x (snd r2) -> In x a).
  { unfold r2. destruct (Py.contains Py.C_QUEST a); [|intros x []].
    destruct (Py.partition Py.C_QUEST a) as [[u0 fd] q0] eqn:Ep.
    apply partition_spec in Ep as [_ Hb]. cbn [snd]. intros x Hx.
    destruct fd; [rewrite Hb; apply in_or_app; right; right; auto
                 | destruct Hb; subst; destruct Hx]. }
  destruct r2 as [u0 q0]. cbn [snd] in Hq.
  destruct (Urllib.checknetloc_ok n'); [|discriminate].
  intros [= <- <- <- <- <-] Hc. auto.
Qed.

Lemma urlparse_query_chars (url : str) (p : Urllib.ParseResult) (c : char) :
  Urllib.urlparse url = Ok p -> In c (Urllib.query p) -> In c url.
Proof.
  rewrite urlparse_eq.
  destruct (Urllib.urlsplit url) as [[[[[s n] u] q] f]|] eqn:E; [|discriminate].
  cbn [bind]. destruct (split_params s u) as [path params].
  intros [= <-]. cbn [Urllib.query]. eapply urlsplit_query_chars; eauto.
Qed.

Lemma split_In (sep : char) (s f : str) (c : char) :
  In f (Py.split sep s) -> In c f -> In c s.
Proof.
  revert f; induction s as [|x s IH]; intros f; simpl.
  - intros [<-|[]] [].
  - destruct (x =? sep).
    + intros [<-|H] Hc; [destruct Hc | right; eauto].
    + pose proof (split_nonempty sep s).
      destruct (Py.split sep s) as [|h r]; [congruence|].
      intros [<-|H'] Hc.
      * destruct Hc as [<-|Hc]; auto. right. apply (IH h); auto. left; auto.
      * right. apply (IH f); auto. right; auto.
Qed.

Lemma replace_char_scalar (x : str) :
  well_formed x -> well_formed (Py.replace_char Py.C_PLUS Py.C_SPACE x).
Proof.
  intros H. unfold Py.replace_char. apply Forall_map.
  eapply Forall_impl; [|exact H]. intros c Hc. cbv beta.
  destruct (c =? Py.C_PLUS); auto. left. reflexivity.
Qed.

Lemma unquote_runs_scalar (run z : str) :
  well_formed z -> well_formed (Urllib.unquote_runs run z).
Proof.
  assert (Hrun : forall r, well_formed (Urllib.unquote_run r)).
  { intros r. unfold Urllib.unquote_run. destruct r; [constructor|].
    apply decode_scalar. }
  intros H. revert run. induction H as [|c z Hc _ IH]; intros run.
  - apply Hrun.
  - cbn [Urllib.unquote_runs]. destruct (c <? 128); [apply IH|].
    apply Forall_app; split; [apply Hrun | constructor; [exact Hc | apply IH]].
Qed.

(** Unquoting brings in no surrogate. *)
Lemma unquote_plus_scalar (x : str) :
  well_formed x -> well_formed (Urllib.unquote_plus x).
Proof.
  intros H. apply replace_char_scalar in H.
  unfold Urllib.unquote_plus, Urllib.unquote.
  destruct (Py.contains _ _); auto. apply unquote_runs_scalar; auto.
Qed.

Lemma parse_qsl_scalar (q : str) :
  well_formed q ->
  Forall (fun kv => well_formed (fst kv) /\ well_formed (snd kv))
         (Urllib.parse_qsl q).
Proof.
  intros H. apply Forall_forall. intros [k v] Hin.
  rewrite parse_qsl_eq in Hin. apply in_flat_map in Hin as (f & Hf & Hin).
  apply parse_field_In in Hin as (name & value & -> & _ & _ & -> & ->).
  assert (Hfs : well_formed (name ++ lit "=" ++ value)).
  { apply Forall_forall. intros c Hc. unfold well_formed in H.
    rewrite Forall_forall in H. apply H. eapply split_In; eauto. }
  apply Forall_app in Hfs as [Hn Hv]. apply Forall_app in Hv as [_ Hv].
  cbn [fst snd]. split; apply unquote_plus_scalar; auto.
Qed.

(** [add_utm_to_url] returns normally on a parsed URL whose query has no
    surrogates. *)
Lemma add_utm_total (p : Urllib.ParseResult) (source medium campaign : str) :
  well_formed (Urllib.query p) ->
  well_formed source -> well_formed medium -> well_formed campaign ->
  exists out, add_utm_to_url (UrlParsed p) source medium campaign = Ok out.
Proof.
  intros Hq Hs Hm Hc. unfold add_utm_to_url. cbn [as_parsed bind].
  destruct (urlencode_scalar (merged_params p source medium campaign))
    as [q ->]; [|cbn [bind]; eauto].
  apply Forall_forall. intros [k v] Hin.
  apply merged_In in Hin as [Hin|Hin].
  - destruct Hin as [[= <- <-]|[[= <- <-]|[[= <- <-]|[]]]]; cbn [fst snd];
      split;
      first [ assumption
            | repeat (apply Forall_cons; [left; reflexivity|]);
              apply Forall_nil ].
  - pose proof (parse_qsl_scalar _ Hq) as Hall.
    rewrite Forall_forall in Hall. apply (Hall (k, v)). exact Hin.
Qed.

End Totality.

(** C4, amended.  [add_utm_to_all_urls] returns normally whenever
    [urlparse] accepts every URL that [find_urls] locates in the text, and
    the text and the tracking values have no lone surrogates. *)
Theorem C4_returns_normally (text source medium campaign : str) :
  well_formed text ->
  well_formed source -> well_formed medium -> well_formed campaign ->
  (forall u, In u (find_urls text) -> exists p, Urllib.urlparse u = Ok p) ->
  exists out, add_utm_to_all_urls text source medium campaign = Ok out.
Proof.
  intros Ht Hs Hm Hc Hparse. unfold add_utm_to_all_urls.
  destruct (mapM_ok Urllib.urlparse (find_urls text)) as [urls Hurls].
  { apply Forall_forall. exact Hparse. }
  pose proof (mapM_inv _ _ _ Hurls) as HF. rewrite Hurls. cbn [bind].
  assert (Hq : Forall (fun p => well_formed (Urllib.query p)) urls).
  { apply Forall_forall. intros p Hp.
    destruct (Forall2_In_r _ _ _ _ HF Hp) as (u & Hu & Hup).
    apply Forall_forall. intros c Hcq. unfold well_formed in Ht.
    rewrite Forall_forall in Ht. apply Ht.
    apply (find_urls_chars text u c Hu).
    exact (urlparse_query_chars _ _ _ Hup Hcq). }
  match goal with
  | |- context [mapM ?f (filter ?g urls)] =>
      destruct (mapM_ok f (filter g urls)) as [entries ->]
  end.
  - apply Forall_forall. intros p Hp. apply filter_In in Hp as [Hp _].
    rewrite Forall_forall in Hq.
    destruct (add_utm_total p source medium campaign (Hq _ Hp) Hs Hm Hc)
      as [new ->]. cbn [bind]. eauto.
  - cbn [bind]. eauto.
Qed.


(** ** Concrete runs *)

(** The examples of the documentation. *)
Example example_annotated :
  add_utm_to_all_urls (lit "See https://example.com/post?ref=1")
                      (lit "newsletter") (lit "email") (lit "launch")
  = Ok (lit "See https://example.com/post?ref=1&utm_source=newsletter&utm_medium=email&utm_campaign=launch").
Proof. vm_compute. reflexivity. Qed.

Example example_image_untouched :
  add_utm_to_all_urls (lit "![img](https://cdn.example.com/a.png)")
                      (lit "newsletter") (lit "email") (lit "launch")
  = Ok (lit "![img](https://cdn.example.com/a.png)").
Proof. vm_compute. reflexivity. Qed.

Example example_duplicates :
  add_utm_to_all_urls (lit "http://a/x http://b/y http://a/x")
                      (lit "s") (lit "m") (lit "c")
  = Ok (lit "http://a/x?utm_source=s&utm_medium=m&utm_campaign=c http://b/y?utm_source=s&utm_medium=m&utm_campaign=c http://a/x?utm_source=s&utm_medium=m&utm_campaign=c").
Proof. vm_compute. reflexivity. Qed.

Example example_find_urls :
  find_urls (lit "a http://x.y/z (https://u/v) http:// w http://x.y/z")
  = [lit "http://x.y/z"; lit "https://u/v"; lit "http://x.y/z"].
Proof. vm_compute. reflexivity. Qed.

(** C1 fails on a URL with a fragment: the tracking parameters go before
    the fragment, not after the URL. *)
Lemma C1_counterexample :
  exists parsed out,
    Urllib.urlparse (lit "http://a/b#f") = Ok parsed
    /\ Urllib.query parsed = []
    /\ is_image (Urllib.path parsed) = false
    /\ add_utm_to_url (UrlStr (lit "http://a/b#f")) (lit "S") (lit "M") (lit "C")
       = Ok out
    /\ out = lit "http://a/b?utm_source=S&utm_medium=M&utm_campaign=C#f"
    /\ Py.startswith (lit "http://a/b#f?") out = false.
Proof.
  eexists. eexists. split; [vm_compute; reflexivity|].
  split; [reflexivity|]. split; [vm_compute; reflexivity|].
  split; [vm_compute; reflexivity|]. split; [reflexivity|].
  vm_compute. reflexivity.
Qed.

(** C2 fails where a URL of the text is the start of an image URL: the
    replacement of the first rewrites the second. *)
Lemma C2_image_url_rewritten :
  let text := lit "[home](https://example.com) ![logo](https://example.com/logo.png)" in
  find_urls text = [lit "https://example.com"; lit "https://example.com/logo.png"]
  /\ (exists parsed,
         Urllib.urlparse (lit "https://example.com/logo.png") = Ok parsed
         /\ is_image (Urllib.path parsed) = true)
  /\ add_utm_to_all_urls text (lit "S") (lit "M") (lit "C")
     = Ok (lit "[home](https://example.com?utm_source=S&utm_medium=M&utm_campaign=C) ![logo](https://example.com?utm_source=S&utm_medium=M&utm_campaign=C/logo.png)").
Proof.
  split; [vm_compute; reflexivity|]. split.
  - eexists. split; vm_compute; reflexivity.
  - vm_compute. reflexivity.
Qed.

(** C4 fails on a located URL that [urlparse] rejects. *)
Lemma C4_counterexample :
  well_formed (lit "see http://[::1")
  /\ add_utm_to_all_urls (lit "see http://[::1") (lit "S") (lit "M") (lit "C")
     = Raise ValueError.
Proof.
  split; [|vm_compute; reflexivity].
  repeat (apply Forall_cons; [left; reflexivity|]). apply Forall_nil.
Qed.

(** C5 fails where the name is given a value again: the last one wins. *)
Lemma C5_counterexample :
  exists parsed out parsed',
    Urllib.urlparse (lit "http://a/?foo=bar&foo=baz") = Ok parsed
    /\ In (lit "foo=bar") (Py.split Py.C_AMP (Urllib.query parsed))
    /\ add_utm_to_url (UrlStr (lit "http://a/?foo=bar&foo=baz"))
                      (lit "S") (lit "M") (lit "C") = Ok out
    /\ out = lit "http://a/?foo=baz&utm_source=S&utm_medium=M&utm_campaign=C"
    /\ Urllib.urlparse out = Ok parsed'
    /\ ~ In (lit "foo=bar") (Py.split Py.C_AMP (Urllib.query parsed'))
    /\ Dict.get (lit "foo") (Dict.of_pairs (Urllib.parse_qsl (Urllib.query parsed')))
       = Some (lit "baz").
Proof.
  eexists. eexists. eexists. split; [vm_compute; reflexivity|].
  split; [left; reflexivity|]. split; [vm_compute; reflexivity|].
  split; [reflexivity|]. split; [vm_compute; reflexivity|].
  split; [|vm_compute; reflexivity].
  intros H. apply mem_keys in H. vm_compute in H. discriminate H.
Qed.

(** C6 fails on a URL with an empty authority whose path starts with two
    slashes: [urlunsplit] (of CPython 3.11) writes [//x] after the scheme,
    and read back the start of the path is an authority. *)
Lemma C6_counterexample :
  exists parsed out parsed',
    Urllib.urlparse (lit "http:////x") = Ok parsed
    /\ add_utm_to_url (UrlStr (lit "http:////x")) (lit "S") (lit "M") (lit "C")
       = Ok out
    /\ out = lit "http://x?utm_source=S&utm_medium=M&utm_campaign=C"
    /\ Urllib.urlparse out = Ok parsed'
    /\ Urllib.netloc parsed = [] /\ Urllib.netloc parsed' = lit "x"
    /\ Urllib.path parsed = lit "//x" /\ Urllib.path parsed' = [].
Proof.
  eexists. eexists. eexists. split; [vm_compute; reflexivity|].
  split; [vm_compute; reflexivity|]. split; [reflexivity|].
  split; [vm_compute; reflexivity|]. repeat split; reflexivity.
Qed.

(** C7 fails where a token stands inside a URL: [http://a], at the eighth
    character of the text, is a token and the longest run after it, and
    it is not returned.  It fails also where nothing follows the token:
    [http://], with an empty run, is not returned either. *)
Lemma C7_counterexample :
  find_urls (lit "http://http://a") = [lit "http://http://a"]
  /\ lit "http://http://a" = lit "http://" ++ (lit "http://" ++ lit "a") ++ []
  /\ Forall (fun c => ~ ends_url c) (lit "a")
  /\ ~ In (lit "http://" ++ lit "a") (find_urls (lit "http://http://a"))
  /\ find_urls (lit "see http:// there") = [].
Proof.
  split; [vm_compute; reflexivity|]. split; [reflexivity|].
  split.
  - apply Forall_cons; [|apply Forall_nil]. apply url_char_not_ends.
    reflexivity.
  - split; [|vm_compute; reflexivity].
    intros H. vm_compute in H. destruct H as [H|[]]. discriminate H.
Qed.

(** C8 fails on a path that ends with ['/']: nothing follows the last
    ['/'] of [/a.png/], only the directory carries the suffix, and the
    path is an image; so is [/a.png/.], which ends with the segment
    ["."]. *)
Lemma C8_counterexample :
  is_image (lit "/a.png/") = true
  /\ lit "/a.png/" = lit "/a.png" ++ lit "/" ++ []
  /\ is_image (lit "/a.png/.") = true
  /\ lit "/a.png/." = lit "/a.png" ++ lit "/" ++ lit "."
  /\ forall suffix,
       In suffix (map lit ["png"; "jpg"; "jpeg"; "svg"; "webp"; "gif"]%string) ->
       Py.endswith (lit "." ++ suffix) [] = false
       /\ Py.endswith (lit "." ++ suffix) (lit ".") = false.
Proof.
  split; [reflexivity|]. split; [reflexivity|].
  split; [reflexivity|]. split; [reflexivity|].
  intros suffix H. cbn [map In] in H.
  repeat (destruct H as [<-|H]; [split; reflexivity|]). destruct H.
Qed.

(** C9.  The code fails the claim where one URL of the text is the start
    of another.  The first run replaces [http://a] in the whole text, so
    the tracking parameters are written into [http://a/b], in front of the
    rest of its path, and [http://a/b] is not annotated; the second run
    reads that rest as part of the campaign value and drops it. *)
Lemma C9_second_run_differs :
  let text := lit "http://a http://a/b" in
  find_urls text = [lit "http://a"; lit "http://a/b"]
  /\ add_utm_to_url (UrlStr (lit "http://a/b")) (lit "S") (lit "M") (lit "C")
     = Ok (lit "http://a/b?utm_source=S&utm_medium=M&utm_campaign=C")
  /\ exists out1 out2,
       add_utm_to_all_urls text (lit "S") (lit "M") (lit "C") = Ok out1
       /\ add_utm_to_all_urls out1 (lit "S") (lit "M") (lit "C") = Ok out2
       /\ out1 = lit "http://a?utm_source=S&utm_medium=M&utm_campaign=C http://a?utm_source=S&utm_medium=M&utm_campaign=C/b"
       /\ out2 = lit "http://a?utm_source=S&utm_medium=M&utm_campaign=C http://a?utm_source=S&utm_medium=M&utm_campaign=C"
       /\ out1 <> out2.
Proof.
  split; [vm_compute; reflexivity|]. split; [vm_compute; reflexivity|].
  eexists. eexists. split; [vm_compute; reflexivity|].
  split; [vm_compute; reflexivity|]. split; [reflexivity|].
  split; [reflexivity|]. intros H. apply eqb_eq in H. vm_compute in H.
  discriminate H.
Qed.

(** A second run also changes a URL that the first one did not leave the
    way [geturl] writes it: the ['?'] of an empty query stays behind the
    tracking parameters, and goes away in the second run. *)
Example example_empty_query_drift :
  add_utm_to_all_urls (lit "http://a/b?") (lit "S") (lit "M") (lit "C")
  = Ok (lit "http://a/b?utm_source=S&utm_medium=M&utm_campaign=C?")
  /\ add_utm_to_all_urls
       (lit "http://a/b?utm_source=S&utm_medium=M&utm_campaign=C?")
       (lit "S") (lit "M") (lit "C")
     = Ok (lit "http://a/b?utm_source=S&utm_medium=M&utm_campaign=C").
Proof. split; vm_compute; reflexivity. Qed.

(** ** Instances *)

Ltac not_in := apply contains_false; vm_compute; reflexivity.
Ltac all_chars :=
  repeat (apply Forall_cons; [vm_compute; first [reflexivity | repeat split; discriminate]|]);
  apply Forall_nil.

Lemma C3_witness :
  add_utm_to_url (UrlStr (lit "http://a/?utm_source=old&x=1"))
                 (lit "S") (lit "M") (lit "C")
  = Ok (lit "http://a/?utm_source=S&x=1&utm_medium=M&utm_campaign=C")
  /\ exists parsed q,
       as_parsed (UrlStr (lit "http://a/?utm_source=old&x=1")) = Ok parsed
       /\ lit "http://a/?utm_source=S&x=1&utm_medium=M&utm_campaign=C"
          = Urllib.geturl (Urllib.replace_query parsed q)
       /\ forall k v,
            In (k, v) [(lit "utm_source", lit "S"); (lit "utm_medium", lit "M");
                       (lit "utm_campaign", lit "C")] ->
            exists qv,
              Urllib.quote_plus v = Ok qv
              /\ In (k ++ lit "=" ++ qv) (Py.split Py.C_AMP q)
              /\ forall f, In f (Py.split Py.C_AMP q) ->
                           Py.startswith (k ++ lit "=") f = true ->
                           f = k ++ lit "=" ++ qv.
Proof.
  split; [vm_compute; reflexivity|].
  apply (C3_tracking_values_override
           (UrlStr (lit "http://a/?utm_source=old&x=1"))
           (lit "S") (lit "M") (lit "C")).
  vm_compute. reflexivity.
Defined.

Lemma C10_witness :
  let url := UrlStr (lit "http://a/?flag=&x=1&bare") in
  let parsed := Urllib.mkParseResult (lit "http") (lit "a") (lit "/") []
                                     (lit "flag=&x=1&bare") [] in
  let out := lit "http://a/?x=1&utm_source=S&utm_medium=M&utm_campaign=C" in
  as_parsed url = Ok parsed
  /\ add_utm_to_url url (lit "S") (lit "M") (lit "C") = Ok out
  /\ add_utm_to_url
       (UrlParsed (Urllib.replace_query parsed
                     (Py.join Py.C_AMP ([] ++ [lit "x=1"; lit "bare"]))))
       (lit "S") (lit "M") (lit "C") = Ok out.
Proof.
  intros url parsed out.
  assert (Hp : as_parsed url = Ok parsed) by (vm_compute; reflexivity).
  assert (Ho : add_utm_to_url url (lit "S") (lit "M") (lit "C") = Ok out)
    by (vm_compute; reflexivity).
  split; [exact Hp|]. split; [exact Ho|].
  destruct (C10_blank_parameters_omitted url parsed (lit "S") (lit "M")
              (lit "C") out Hp Ho) as [_ H].
  apply (H [] [lit "x=1"; lit "bare"] (lit "flag=")).
  - vm_compute. reflexivity.
  - repeat (apply Forall_cons; [not_in|]). apply Forall_nil.
  - right. exists (lit "flag"). split; [not_in | reflexivity].
Defined.

Lemma C5_witness :
  let url := UrlStr (lit "http://a/?foo=bar&z=1") in
  let parsed := Urllib.mkParseResult (lit "http") (lit "a") (lit "/") []
                                     (lit "foo=bar&z=1") [] in
  let out := lit "http://a/?foo=bar&z=1&utm_source=S&utm_medium=M&utm_campaign=C" in
  add_utm_to_url url (lit "S") (lit "M") (lit "C") = Ok out
  /\ exists q,
       out = Urllib.geturl (Urllib.replace_query parsed q)
       /\ (exists f, In f (Py.split Py.C_AMP q)
                     /\ encodes (Urllib.unquote_plus (lit "foo"),
                                 Urllib.unquote_plus (lit "bar")) f)
       /\ (forall k v, In (k, v) (utm_params (lit "S") (lit "M") (lit "C")) ->
                       exists f, In f (Py.split Py.C_AMP q) /\ encodes (k, v) f).
Proof.
  intros url parsed out.
  assert (Ho : add_utm_to_url url (lit "S") (lit "M") (lit "C") = Ok out)
    by (vm_compute; reflexivity).
  split; [exact Ho|].
  apply (C5_last_valued_parameter_retained url parsed (lit "S") (lit "M")
           (lit "C") out [] [lit "z=1"] (lit "foo") (lit "bar")).
  - vm_compute. reflexivity.
  - vm_compute. reflexivity.
  - not_in.
  - discriminate.
  - intros H. apply mem_keys in H. vm_compute in H. discriminate H.
  - intros f k v [<-|[]] H. vm_compute in H.
    destruct H as [H|[]]. injection H as <- _. intros E.
    apply eqb_eq in E. vm_compute in E. discriminate E.
  - exact Ho.
Defined.

Lemma C6_witness :
  let u := lit "https://example.com/a;p?x=1#top" in
  let parsed := Urllib.mkParseResult (lit "https") (lit "example.com")
                  (lit "/a") (lit "p") (lit "x=1") (lit "top") in
  let out := lit "https://example.com/a;p?x=1&utm_source=S&utm_medium=M&utm_campaign=C#top" in
  Urllib.urlparse u = Ok parsed
  /\ Urllib.netloc parsed <> []
  /\ add_utm_to_url (UrlStr u) (lit "S") (lit "M") (lit "C") = Ok out
  /\ exists parsed',
       Urllib.urlparse out = Ok parsed'
       /\ Urllib.scheme parsed' = Urllib.scheme parsed
       /\ Urllib.netloc parsed' = Urllib.netloc parsed
       /\ Urllib.path parsed' = Urllib.path parsed
       /\ Urllib.params parsed' = Urllib.params parsed
       /\ Urllib.fragment parsed' = Urllib.fragment parsed
       /\ Urllib.urlencode (merged_params parsed (lit "S") (lit "M") (lit "C"))
          = Ok (Urllib.query parsed').
Proof.
  intros u parsed out.
  assert (Hp : Urllib.urlparse u = Ok parsed) by (vm_compute; reflexivity).
  assert (Hn : Urllib.netloc parsed <> []) by discriminate.
  assert (Ho : add_utm_to_url (UrlStr u) (lit "S") (lit "M") (lit "C") = Ok out)
    by (vm_compute; reflexivity).
  split; [exact Hp|]. split; [exact Hn|]. split; [exact Ho|].
  exact (C6_components_preserved u parsed (lit "S") (lit "M") (lit "C") out
           Hp Hn Ho).
Defined.

Lemma C1_witness :
  add_utm_to_url (UrlStr (lit "https://" ++ lit "example.com" ++ lit "/post"))
                 (lit "news letter") (lit "email") (lit "launch")
  = Ok ((lit "https://" ++ lit "example.com" ++ lit "/post")
        ++ lit "?utm_source=" ++ lit "news+letter" ++ lit "&utm_medium="
        ++ lit "email" ++ lit "&utm_campaign=" ++ lit "launch")
  /\ add_utm_to_all_urls (lit "https://" ++ lit "example.com" ++ lit "/post")
                         (lit "news letter") (lit "email") (lit "launch")
     = Ok ((lit "https://" ++ lit "example.com" ++ lit "/post")
           ++ lit "?utm_source=" ++ lit "news+letter" ++ lit "&utm_medium="
           ++ lit "email" ++ lit "&utm_campaign=" ++ lit "launch").
Proof.
  assert (H : is_token (lit "https://")) by (right; reflexivity).
  destruct (C1_utm_appended (lit "https://") (lit "example.com") (lit "/post")
              (lit "news letter") (lit "email") (lit "launch")
              (lit "news+letter") (lit "email") (lit "launch")) as [H1 H2].
  - exact H.
  - discriminate.
  - all_chars.
  - vm_compute. reflexivity.
  - right. exists (lit "post"). reflexivity.
  - not_in.
  - not_in.
  - intros r E. change (lit ";") with [Py.C_SEMI] in E.
    apply (f_equal (fun l => last l 0)) in E.
    rewrite last_last in E. vm_compute in E. discriminate E.
  - all_chars.
  - vm_compute. reflexivity.
  - vm_compute. reflexivity.
  - vm_compute. reflexivity.
  - split; [exact H1|]. apply H2.
    + all_chars.
    + intros parsed Hp. vm_compute in Hp. injection Hp as <-.
      vm_compute. reflexivity.
Defined.

Lemma C4_witness :
  well_formed (lit "See https://example.com/post?ref=1")
  /\ exists out,
       add_utm_to_all_urls (lit "See https://example.com/post?ref=1")
                           (lit "S") (lit "M") (lit "C") = Ok out.
Proof.
  assert (Ht : well_formed (lit "See https://example.com/post?ref=1")).
  { repeat (apply Forall_cons; [left; reflexivity|]). apply Forall_nil. }
  split; [exact Ht|].
  apply (C4_returns_normally (lit "See https://example.com/post?ref=1")
           (lit "S") (lit "M") (lit "C")); auto.
  - repeat (apply Forall_cons; [left; reflexivity|]). apply Forall_nil.
  - repeat (apply Forall_cons; [left; reflexivity|]). apply Forall_nil.
  - repeat (apply Forall_cons; [left; reflexivity|]). apply Forall_nil.
  - intros u Hu. vm_compute in Hu. destruct Hu as [<-|[]].
    eexists. vm_compute. reflexivity.
Defined.

Lemma C7_witness :
  Occurrences (lit "a http://x.y/z (https://u/v) http:// w http://x.y/z")
              [lit "http://x.y/z"; lit "https://u/v"; lit "http://x.y/z"].
Proof.
  apply (proj2 (C7_find_urls_occurrences
                  (lit "a http://x.y/z (https://u/v) http:// w http://x.y/z")
                  [lit "http://x.y/z"; lit "https://u/v"; lit "http://x.y/z"])).
  vm_compute. reflexivity.
Defined.

Lemma C8_witness :
  is_image (lit "/img.d/a.png" ++ lit "/./") = true.
Proof.
  destruct C8_is_image_named_segment as [H _].
  apply (proj2 (H (lit "/img.d/a.png" ++ lit "/./"))).
  exists (lit "/img.d/"), (lit "a"), (lit "png"), (lit "/./").
  split; [left; reflexivity|]. split; [reflexivity|].
  split; [intros [E|[]]; discriminate E|].
  split; [right; exists (lit "/img.d"); reflexivity|].
  apply (Trailing_slash (lit "/.")). apply (Trailing_dot []).
  apply Trailing_nil.
Defined.

(** * Further properties *)

(** ** The URLs found in a text *)

Section UrlsFound.

Lemma located_shape (text : str) (urls : list str) :
  Located text urls ->
  forall u, In u urls ->
  exists tok run, is_token tok /\ run <> []
                  /\ Forall (fun c => url_char c = true) run
                  /\ u = tok ++ run.
Proof.
  induction 1 as [text H | pre tok run rest urls Htok Hne Hall Hstop Hleft _ IH].
  - intros u [].
  - intros u [<- | Hin]; [exists tok, run; auto | apply IH; exact Hin].
Qed.

Lemma located_part (text : str) (urls : list str) :
  Located text urls ->
  forall u, In u urls -> exists pre suf, text = pre ++ u ++ suf.
Proof.
  induction 1 as [text H | pre tok run rest urls Htok Hne Hall Hstop Hleft _ IH].
  - intros u [].
  - intros u [<- | Hin].
    + exists pre, rest. rewrite <- !app_assoc. reflexivity.
    + destruct (IH u Hin) as (p & s & ->).
      exists (pre ++ tok ++ run ++ p), s. rewrite <- !app_assoc. reflexivity.
Qed.


Lemma token_chars (tok : str) :
  is_token tok -> Forall (fun c => url_char c = true) tok.
Proof.
  intros [-> | ->];
    repeat (apply Forall_cons; [vm_compute; reflexivity|]); apply Forall_nil.
Qed.

(** A string of URL characters that starts [x ++ c :: y], where [c] is
    not one, ends inside [x]. *)
Lemma prefix_before (w rest x y : str) (c : char) :
  Forall (fun c => url_char c = true) w -> url_char c = false ->
  w ++ rest = x ++ c :: y -> exists r, x = w ++ r.
Proof.
  intros Hall Hc. revert x. induction Hall as [|a w Ha _ IH]; intros x E.
  - exists x. reflexivity.
  - destruct x as [|b x]; simpl in E.
    + injection E as <- _. congruence.
    + injection E as <- E. destruct (IH x E) as [r ->]. exists r. reflexivity.
Qed.

(** A separator cannot stand inside the start of a URL. *)
Lemma starts_url_before (x y : str) (c : char) :
  url_char c = false -> starts_url (x ++ c :: y) -> starts_url x.
Proof.
  intros Hc (tok & c' & rest & Htok & Hc' & E).
  destruct (prefix_before (tok ++ [c']) rest x y c) as [r ->]; auto.
  - apply Forall_app. split; [apply token_chars; exact Htok|].
    apply Forall_cons; [exact Hc' | apply Forall_nil].
  - rewrite <- app_assoc. symmetry. exact E.
  - exists tok, c', r. repeat split; auto.
    rewrite <- app_assoc. reflexivity.
Qed.

(** Cutting [a ++ c :: b] in two: the cut is in [a] or in [b]. *)
Lemma app_cons_split (a b p s : str) (c : char) :
  a ++ c :: b = p ++ s ->
  (exists a2, a = p ++ a2 /\ s = a2 ++ c :: b)
  \/ (exists b1, p = a ++ c :: b1 /\ b = b1 ++ s).
Proof.
  revert p. induction a as [|x a IH]; intros p E.
  - destruct p as [|y p]; simpl in E.
    + left. exists []. split; [reflexivity | symmetry; exact E].
    + injection E as <- E. right. exists p. split; [reflexivity | exact E].
  - destruct p as [|y p]; simpl in E.
    + left. exists (x :: a). split; [reflexivity | symmetry; exact E].
    + injection E as <- E.
      destruct (IH p E) as [(a2 & -> & ->) | (b1 & -> & ->)].
      * left. exists a2. split; reflexivity.
      * right. exists b1. split; reflexivity.
Qed.

Lemma located_after (a b : str) (c : char) (urls : list str) :
  (forall pre suf, a = pre ++ suf -> ~ starts_url suf) ->
  url_char c = false ->
  Located b urls -> Located (a ++ c :: b) urls.
Proof.
  intros Ha Hc Hb.
  destruct Hb as [b H | pre tok run rest urls Htok Hne Hall Hstop Hleft Hrest].
  - apply Located_nil. intros p s E.
    apply app_cons_split in E as [(a2 & Ea & ->) | (b1 & -> & Eb)].
    + intros Hs. apply starts_url_before in Hs; auto. exact (Ha _ _ Ea Hs).
    + exact (H _ _ Eb).
  - replace (a ++ c :: pre ++ tok ++ run ++ rest)
      with ((a ++ c :: pre) ++ tok ++ run ++ rest)
      by (rewrite <- app_assoc; reflexivity).
    apply Located_cons; auto.
    intros p s E Hs.
    apply app_cons_split in E as [(a2 & Ea & ->) | (b1 & -> & Eb)].
    + rewrite <- app_assoc. simpl. intros Hu.
      apply starts_url_before in Hu; auto. exact (Ha _ _ Ea Hu).
    + exact (Hleft _ _ Eb Hs).
Qed.

Lemma located_app (a b : str) (c : char) (ua ub : list str) :
  url_char c = false ->
  Located a ua -> Located b ub -> Located (a ++ c :: b) (ua ++ ub).
Proof.
  intros Hc Ha Hb.
  induction Ha as [a H | pre tok run rest urls Htok Hne Hall Hstop Hleft _ IH].
  - simpl. apply located_after; auto.
  - rewrite <- !app_assoc. simpl.
    apply Located_cons; auto.
    + intros c0 rest' E. destruct rest as [|r rest].
      * simpl in E. injection E as <- _. exact Hc.
      * simpl in E. injection E as <- _. apply (Hstop r rest). reflexivity.
    + intros p s E Hs Hu. apply (Hleft p s E Hs).
      apply (starts_url_before _ b c Hc).
      rewrite <- !app_assoc. exact Hu.
Qed.

End UrlsFound.

(** X1. Every URL that [find_urls] returns is [http://] or [https://]
    followed by at least one character, and none of its characters after
    the token is white space, ['('] or [')']. *)
Theorem X1_find_urls_shape (text u : str) :
  In u (find_urls text) ->
  exists tok run,
    is_token tok /\ run <> []
    /\ Forall (fun c => url_char c = true) run
    /\ u = tok ++ run.
Proof.
  intros H. exact (located_shape _ _ (find_urls_located text) u H).
Qed.

(** X2. Every URL that [find_urls] returns stands in the text as it is
    returned: the text is some prefix, the URL, and some suffix. *)
Theorem X2_find_urls_part_of_text (text u : str) :
  In u (find_urls text) -> exists pre suf, text = pre ++ u ++ suf.
Proof.
  intros H. exact (located_part _ _ (find_urls_located text) u H).
Qed.


(** X4. No URL runs across white space or a parenthesis: the URLs of
    [a ++ c :: b], for such a character [c], are those of [a] followed by
    those of [b]. *)
Theorem X4_find_urls_separator (a b : str) (c : char) :
  url_char c = false ->
  find_urls (a ++ c :: b) = find_urls a ++ find_urls b.
Proof.
  intros Hc. apply located_find_urls.
  apply located_app; auto using find_urls_located.
Qed.

(** ** Images *)

(** X5. A trailing ['/'] and a trailing ["/."] do not count as a path
    segment: [is_image] answers for the path without them. *)
Theorem X5_is_image_trailing_slash (p : str) :
  is_image (p ++ lit "/") = is_image p
  /\ is_image (p ++ lit "/.") = is_image p.
Proof.
  split.
  - apply (is_image_dropped p []); [intros [] | reflexivity].
  - apply (is_image_dropped p [Py.C_DOT]); [|reflexivity].
    intros [H|[]]. discriminate H.
Qed.

(** ** Texts that are left alone, and texts that are refused *)

Section Errors.

Lemma urlsplit_raises (url : str) (e : exn) :
  Urllib.urlsplit url = Raise e -> e = ValueError.
Proof.
  unfold Urllib.urlsplit.
  destruct (Urllib.split_scheme _) as [scheme rest].
  destruct (Py.startswith _ rest).
  - destruct (Urllib.splitnetloc rest) as [netloc rest'].
    destruct (_ || _); cbn [bind]; [congruence|].
    destruct (_ && _); cbn [bind]; [congruence|].
    destruct (Py.contains Py.C_HASH rest');
      [destruct (Py.partition Py.C_HASH rest') as [[a f] b]|];
      match goal with
      | |- context [Py.contains Py.C_QUEST ?x] =>
          destruct (Py.contains Py.C_QUEST x);
          [destruct (Py.partition Py.C_QUEST x) as [[a' f'] b']|]
      end;
      destruct (Urllib.checknetloc_ok netloc); congruence.
  - cbn [bind].
    destruct (Py.contains Py.C_HASH rest);
      [destruct (Py.partition Py.C_HASH rest) as [[a f] b]|];
      match goal with
      | |- context [Py.contains Py.C_QUEST ?x] =>
          destruct (Py.contains Py.C_QUEST x);
          [destruct (Py.partition Py.C_QUEST x) as [[a' f'] b']|]
      end;
      destruct (Urllib.checknetloc_ok []); congruence.
Qed.

Lemma urlparse_raises (url : str) (e : exn) :
  Urllib.urlparse url = Raise e -> e = ValueError.
Proof.
  rewrite urlparse_eq. destruct (Urllib.urlsplit url) as [r|e'] eqn:E.
  - cbn [bind]. destruct r as [[[[s n] u] q] f].
    destruct (split_params s u). discriminate.
  - cbn [bind]. intros [= <-]. eapply urlsplit_raises; eauto.
Qed.

(** The first exception wins. *)
Lemma mapM_raises {A B : Type} (f : A -> result B) (xs : list A)
      (x : A) (e : exn) :
  In x xs -> f x = Raise e ->
  exists x' e', In x' xs /\ f x' = Raise e' /\ mapM f xs = Raise e'.
Proof.
  induction xs as [|y xs IH]; intros Hin Hx; [destruct Hin|].
  cbn [mapM]. destruct (f y) as [b|e0] eqn:Ey.
  - destruct Hin as [-> | Hin]; [congruence|].
    destruct (IH Hin Hx) as (x' & e' & Hin' & Hx' & Hm).
    exists x', e'. cbn [bind]. rewrite Hm. cbn [bind].
    repeat split; auto. right; auto.
  - exists y, e0. cbn [bind]. repeat split; auto. left; auto.
Qed.

Lemma encode_raises (s : str) (e : exn) :
  Utf8.encode s = Raise e -> e = UnicodeEncodeError.
Proof.
  revert e. induction s as [|c s IH]; intros e; cbn [Utf8.encode];
    [discriminate|].
  unfold Utf8.encode_char.
  repeat match goal with
         | |- context [if ?b then _ else _] => destruct b
         end; cbn [bind];
    try congruence;
    destruct (Utf8.encode s) eqn:Es; cbn [bind]; try congruence;
    intros [= <-]; eapply IH; reflexivity.
Qed.

Lemma quote_plus_raises (s : str) (e : exn) :
  Urllib.quote_plus s = Raise e -> e = UnicodeEncodeError.
Proof.
  rewrite quote_plus_eq.
  destruct (Utf8.encode s) eqn:E; cbn [bind]; [discriminate|].
  intros [= <-]. eapply encode_raises; eauto.
Qed.

Lemma urlencode_raises (d : Dict.t) (e : exn) :
  Urllib.urlencode d = Raise e -> e = UnicodeEncodeError.
Proof.
  unfold Urllib.urlencode.
  match goal with |- context [mapM ?f d] => set (g := f) end.
  assert (G : forall e, mapM g d = Raise e -> e = UnicodeEncodeError).
  { induction d as [|[k v] d IH]; intros e0; cbn [mapM]; [discriminate|].
    unfold g at 1. cbn [fst snd].
    destruct (Urllib.quote_plus k) eqn:Ek; cbn [bind];
      [|intros [= <-]; eapply quote_plus_raises; eauto].
    destruct (Urllib.quote_plus v) eqn:Ev; cbn [bind];
      [|intros [= <-]; eapply quote_plus_raises; eauto].
    destruct (mapM g d) eqn:Em; cbn [bind]; [discriminate|].
    intros [= <-]. apply IH. reflexivity. }
  destruct (mapM g d) eqn:Em; cbn [bind]; [discriminate|].
  intros [= <-]. apply G. reflexivity.
Qed.

End Errors.

(** X6. A text whose URLs are all images, or that has no URL, is returned
    as it is, whatever the tracking values. *)
Theorem X6_images_only_unchanged (text source medium campaign : str) :
  (forall u, In u (find_urls text) ->
             exists p, Urllib.urlparse u = Ok p
                       /\ is_image (Urllib.path p) = true) ->
  add_utm_to_all_urls text source medium campaign = Ok text.
Proof.
  intros H. unfold add_utm_to_all_urls.
  destruct (mapM_ok Urllib.urlparse (find_urls text)) as [urls Hurls].
  { apply Forall_forall. intros u Hu.
    destruct (H u Hu) as (p & Hp & _). eauto. }
  pose proof (mapM_inv _ _ _ Hurls) as HF. rewrite Hurls. cbn [bind].
  assert (E : filter (fun url => negb (is_image (Urllib.path url))) urls = []).
  { clear Hurls. induction HF as [|u p us ps Hp _ IH]; [reflexivity|].
    cbn [filter]. destruct (H u (or_introl eq_refl)) as (p' & Hp' & Him).
    assert (p' = p) as -> by congruence. rewrite Him. cbn [negb].
    apply IH. intros u' Hu'. apply H. right. exact Hu'. }
  rewrite E. reflexivity.
Qed.

(** X7. When [urlparse] refuses one of the URLs found in the text, an
    image or not, [add_utm_to_all_urls] raises [ValueError]: nothing is
    annotated. *)
Theorem X7_rejected_url_raises (text u source medium campaign : str)
        (e : exn) :
  In u (find_urls text) -> Urllib.urlparse u = Raise e ->
  add_utm_to_all_urls text source medium campaign = Raise ValueError.
Proof.
  intros Hin Hu. unfold add_utm_to_all_urls.
  destruct (mapM_raises _ _ _ _ Hin Hu) as (x' & e' & _ & Hx' & ->).
  apply urlparse_raises in Hx' as ->. reflexivity.
Qed.

(** X8. A tracking value with a lone surrogate cannot be written into a
    URL: [add_utm_to_url] raises [UnicodeEncodeError]. *)
Theorem X8_surrogate_value_raises
        (url : url_arg) (parsed : Urllib.ParseResult)
        (source medium campaign v : str) (x : char) :
  as_parsed url = Ok parsed ->
  In v [source; medium; campaign] ->
  In x v -> 0xD800 <= x <= 0xDFFF ->
  add_utm_to_url url source medium campaign = Raise UnicodeEncodeError.
Proof.
  intros Hp Hv Hx Hr. unfold add_utm_to_url. rewrite Hp. cbn [bind].
  destruct (Urllib.urlencode (merged_params parsed source medium campaign))
    as [q|e] eqn:E.
  - exfalso. pose proof (merged_fields _ _ _ _ _ E) as HF.
    assert (exists k, In (k, v) (merged_params parsed source medium campaign))
      as [k Hk].
    { destruct (merged_get_utm parsed source medium campaign) as (H1 & H2 & H3).
      pose proof (merged_NoDup parsed source medium campaign) as Hnd.
      destruct Hv as [<- | [<- | [<- | []]]]; eexists;
        apply (In_get _ _ _ Hnd); eauto. }
    destruct (Forall2_In_l _ _ _ _ HF Hk) as (f & _ & qk & qv & _ & Hqv & _).
    cbn [snd] in Hqv. apply quote_plus_inv in Hqv as (bs & Hbs & _).
    apply encode_is_scalar in Hbs. rewrite Forall_forall in Hbs.
    specialize (Hbs x Hx). unfold scalar in Hbs. lia.
  - cbn [bind]. f_equal. eapply urlencode_raises; eauto.
Qed.

(** ** A URL that occurs several times *)

Section Repeated.

Lemma replace_from_skip_app (old new a rest : str) :
  Py.replace_from old new (length a) (a ++ rest)
  = Py.replace_from old new O rest.
Proof. induction a as [|x a IH]; simpl; auto. Qed.

(** After an occurrence the search goes on behind it. *)
Lemma replace_from_match (old new rest : str) :
  old <> [] ->
  Py.replace_from old new O (old ++ rest)
  = new ++ Py.replace_from old new O rest.
Proof.
  destruct old as [|x old]; [congruence|]. intros _.
  cbn [app Py.replace_from].
  change (x :: old ++ rest) with ((x :: old) ++ rest).
  rewrite startswith_app. f_equal.
  replace (length (x :: old) - 1)%nat with (length old) by (simpl; lia).
  apply replace_from_skip_app.
Qed.

Lemma replace_from_other (old new rest : str) (x y : char) :
  x <> y ->
  Py.replace_from (x :: old) new O (y :: rest)
  = y :: Py.replace_from (x :: old) new O rest.
Proof.
  intros H. cbn [Py.replace_from Py.startswith].
  apply N.eqb_neq in H. rewrite H. reflexivity.
Qed.

Lemma mapM_repeat {A B : Type} (f : A -> result B) (x : A) (y : B) (n : nat) :
  f x = Ok y -> mapM f (repeat x n) = Ok (repeat y n).
Proof.
  intros H. induction n as [|n IH]; [reflexivity|].
  cbn [repeat mapM]. rewrite H, IH. reflexivity.
Qed.

Lemma filter_repeat {A : Type} (f : A -> bool) (x : A) (n : nat) :
  f x = true -> filter f (repeat x n) = repeat x n.
Proof.
  intros H. induction n as [|n IH]; [reflexivity|].
  cbn [repeat filter]. rewrite H, IH. reflexivity.
Qed.

(** A key given several times is one entry of the dictionary. *)
Lemma of_pairs_repeat (k v : str) (n : nat) :
  Dict.of_pairs (repeat (k, v) (S n)) = [(k, v)].
Proof.
  unfold Dict.of_pairs, Dict.update. cbn [repeat fold_left fst snd Dict.set].
  induction n as [|n IH]; [reflexivity|].
  cbn [repeat fold_left fst snd Dict.set]. rewrite eqb_refl. exact IH.
Qed.

Variables (tok run : str) (sep : char).
Hypothesis Htok : is_token tok.
Hypothesis Hne : run <> [].
Hypothesis Hrun : Forall (fun c => url_char c = true) run.
Hypothesis Hsep : url_char sep = false.

Lemma join_repeat (u : list char) (n : nat) :
  Py.join sep (repeat u (S (S n))) = u ++ sep :: Py.join sep (repeat u (S n)).
Proof. reflexivity. Qed.

Lemma located_repeat (n : nat) :
  Located (Py.join sep (repeat (tok ++ run) (S n)))
          (repeat (tok ++ run) (S n)).
Proof.
  assert (L : Located (tok ++ run) [tok ++ run]).
  { pose proof (find_urls_located (tok ++ run)) as L.
    rewrite find_urls_single in L by auto. exact L. }
  induction n as [|n IH]; [exact L|].
  rewrite join_repeat.
  change (repeat (tok ++ run) (S (S n)))
    with ([tok ++ run] ++ repeat (tok ++ run) (S n)).
  apply located_app; auto.
Qed.

Lemma find_urls_repeat (n : nat) :
  find_urls (Py.join sep (repeat (tok ++ run) (S n)))
  = repeat (tok ++ run) (S n).
Proof. apply located_find_urls. apply located_repeat. Qed.

Lemma replace_repeat (new : str) (n : nat) :
  Py.replace (tok ++ run) new (Py.join sep (repeat (tok ++ run) (S n)))
  = Py.join sep (repeat new (S n)).
Proof.
  destruct (token_length tok Htok) as (h & tok' & Et).
  assert (Hh : h <> sep).
  { intros ->. pose proof (token_chars tok Htok) as Hall. rewrite Et in Hall.
    inversion Hall; subst. congruence. }
  induction n as [|n IH].
  - cbn [repeat Py.join]. apply replace_self. rewrite Et. discriminate.
  - rewrite !join_repeat. rewrite Et in *. cbn [app Py.replace] in *.
    change (h :: (tok' ++ run) ++ sep :: ?t)
      with ((h :: tok' ++ run) ++ sep :: t).
    rewrite replace_from_match by discriminate.
    rewrite replace_from_other by auto.
    rewrite IH. reflexivity.
Qed.

End Repeated.

(** X9. A URL that occurs several times is annotated at each occurrence,
    once: for a URL [u] that is not an image and is written the way
    [geturl] writes it, the text of [n] copies of [u], with white space
    or a parenthesis between them, becomes [n] copies of the annotated
    URL. *)
Theorem X9_repeated_url_annotated_once
        (tok run : str) (sep : char) (parsed : Urllib.ParseResult)
        (source medium campaign new : str) (n : nat) :
  is_token tok -> run <> [] ->
  Forall (fun c => url_char c = true) run ->
  url_char sep = false ->
  Urllib.urlparse (tok ++ run) = Ok parsed ->
  Urllib.geturl parsed = tok ++ run ->
  is_image (Urllib.path parsed) = false ->
  add_utm_to_url (UrlParsed parsed) source medium campaign = Ok new ->
  add_utm_to_all_urls (Py.join sep (repeat (tok ++ run) n))
                      source medium campaign
  = Ok (Py.join sep (repeat new n)).
Proof.
  intros Htok Hne Hrun Hsep Hp Hg Him Hnew. destruct n as [|n]; [reflexivity|].
  unfold add_utm_to_all_urls. rewrite find_urls_repeat by auto.
  rewrite (mapM_repeat _ _ _ _ Hp). cbn [bind].
  rewrite filter_repeat by (rewrite Him; reflexivity).
  rewrite (mapM_repeat _ _ (tok ++ run, new)).
  2:{ rewrite Hnew. cbn [bind]. rewrite Hg. reflexivity. }
  cbn [bind]. rewrite of_pairs_repeat. cbn [fold_left fst snd].
  rewrite replace_repeat by auto. reflexivity.
Qed.

(** ** Reading the annotated URL, and annotating it again *)

Section DictOrder.

Lemma set_set (k a b : str) (d : Dict.t) :
  Dict.set k b (Dict.set k a d) = Dict.set k b d.
Proof.
  induction d as [|[k0 v0] d IH]; simpl.
  - rewrite eqb_refl. reflexivity.
  - destruct (Py.eqb k0 k) eqn:E; simpl; rewrite E; [reflexivity|].
    rewrite IH. reflexivity.
Qed.

(** Setting a key that is present commutes with setting another key. *)
Lemma set_comm (k k' a b : str) (d : Dict.t) :
  k <> k' -> In k (Dict.keys d) ->
  Dict.set k b (Dict.set k' a d) = Dict.set k' a (Dict.set k b d).
Proof.
  intros Hk. induction d as [|[k0 v0] d IH]; simpl; [intros []|].
  intros Hin.
  destruct (Py.eqb k0 k') eqn:E'; destruct (Py.eqb k0 k) eqn:E; simpl;
    rewrite ?E, ?E'; try reflexivity.
  - apply eqb_eq in E, E'. congruence.
  - rewrite IH; auto. destruct Hin as [Hin|Hin]; auto.
    apply eqb_neq in E. congruence.
Qed.

Lemma In_keys_set (k v : str) (d : Dict.t) : In k (Dict.keys (Dict.set k v d)).
Proof.
  rewrite keys_set. destruct (existsb (Py.eqb k) (Dict.keys d)) eqn:E.
  - apply mem_keys. exact E.
  - apply in_or_app. right. left. reflexivity.
Qed.

Lemma In_keys_set_other (k k' v : str) (d : Dict.t) :
  In k (Dict.keys d) -> In k (Dict.keys (Dict.set k' v d)).
Proof.
  intros H. rewrite keys_set. destruct (existsb _ _); auto.
  apply in_or_app. left. exact H.
Qed.

(** Writing the tracking values twice: the second ones stay. *)
Lemma update_utm_twice (d : Dict.t) (s1 m1 c1 s2 m2 c2 : str) :
  Dict.update (Dict.update d (utm_params s1 m1 c1)) (utm_params s2 m2 c2)
  = Dict.update d (utm_params s2 m2 c2).
Proof.
  unfold Dict.update, utm_params. cbn [fold_left fst snd].
  set (ks := lit "utm_source"). set (km := lit "utm_medium").
  set (kc := lit "utm_campaign").
  assert (Hsm : ks <> km) by (intros H; apply eqb_eq in H; discriminate H).
  assert (Hsc : ks <> kc) by (intros H; apply eqb_eq in H; discriminate H).
  assert (Hmc : km <> kc) by (intros H; apply eqb_eq in H; discriminate H).
  rewrite (set_comm ks kc c1 s2) by auto using In_keys_set, In_keys_set_other.
  rewrite (set_comm ks km m1 s2) by auto using In_keys_set.
  rewrite set_set.
  rewrite (set_comm km kc c1 m2) by auto using In_keys_set.
  rewrite set_set, set_set. reflexivity.
Qed.

(** The keys after an update: the old ones, then the new ones in the
    order they are given. *)
Lemma keys_update (d : Dict.t) (pairs : list (str * str)) :
  NoDup (map fst pairs) ->
  Dict.keys (Dict.update d pairs)
  = Dict.keys d
    ++ filter (fun k => negb (Urllib.mem k (Dict.keys d))) (map fst pairs).
Proof.
  unfold Dict.update. revert d.
  induction pairs as [|[k v] pairs IH]; intros d Hnd;
    cbn [fold_left map filter fst snd].
  - rewrite app_nil_r. reflexivity.
  - inversion Hnd as [|? ? Hk Hnd']; subst. rewrite IH by auto.
    rewrite keys_set. unfold Urllib.mem.
    destruct (existsb (Py.eqb k) (Dict.keys d)) eqn:E; cbn [negb].
    + reflexivity.
    + rewrite <- app_assoc. cbn [app]. do 2 f_equal.
      apply filter_ext_in. intros x Hx. f_equal.
      rewrite existsb_app. cbn [existsb]. rewrite orb_false_r.
      destruct (Py.eqb x k) eqn:Exk; [|apply orb_false_r].
      apply eqb_eq in Exk. subst. contradiction.
Qed.

Lemma of_pairs_merged (parsed : Urllib.ParseResult)
      (source medium campaign : str) :
  Dict.of_pairs (merged_params parsed source medium campaign)
  = merged_params parsed source medium campaign.
Proof. apply update_nil_dict. apply merged_NoDup. Qed.

Lemma merged_overwrite (parsed : Urllib.ParseResult)
      (s1 m1 c1 s2 m2 c2 q : str) :
  s1 <> [] -> m1 <> [] -> c1 <> [] ->
  Urllib.urlencode (merged_params parsed s1 m1 c1) = Ok q ->
  merged_params (Urllib.replace_query parsed q) s2 m2 c2
  = merged_params parsed s2 m2 c2.
Proof.
  intros Hs Hm Hc Hq.
  rewrite (merged_params_eq (Urllib.replace_query parsed q)).
  cbn [Urllib.replace_query Urllib.query].
  rewrite (parse_qsl_urlencode _ _ Hq) by (apply merged_values; auto).
  rewrite of_pairs_merged, !merged_params_eq. apply update_utm_twice.
Qed.

Lemma utm_keys_NoDup (source medium campaign : str) :
  NoDup (map fst (utm_params source medium campaign)).
Proof.
  unfold utm_params. cbn [map fst].
  repeat (apply NoDup_cons;
          [intros Hin; cbn [In] in Hin;
           repeat (destruct Hin as [Hin|Hin];
                   [apply eqb_eq in Hin; discriminate Hin|]);
           exact Hin|]).
  apply NoDup_nil.
Qed.

End DictOrder.

(** X10. The query of the annotated URL reads back as the merged
    parameters: for a URL with an authority and tracking values that are
    not empty, [dict(parse_qsl(...))] of the query of the output is the
    dictionary [add_utm_to_url] encoded, so each tracking key gives the
    value the caller passed, whatever its characters. *)
Theorem X10_query_reads_back
        (u : str) (parsed : Urllib.ParseResult)
        (source medium campaign out : str) :
  Urllib.urlparse u = Ok parsed ->
  Urllib.netloc parsed <> [] ->
  source <> [] -> medium <> [] -> campaign <> [] ->
  add_utm_to_url (UrlStr u) source medium campaign = Ok out ->
  exists parsed',
    Urllib.urlparse out = Ok parsed'
    /\ let d := Dict.of_pairs (Urllib.parse_qsl (Urllib.query parsed')) in
       d = merged_params parsed source medium campaign
       /\ Dict.get (lit "utm_source") d = Some source
       /\ Dict.get (lit "utm_medium") d = Some medium
       /\ Dict.get (lit "utm_campaign") d = Some campaign.
Proof.
  intros Hp Hn Hs Hm Hc H. rewrite (add_utm_str_parsed _ _ _ _ _ Hp) in H.
  pose proof (urlparse_wf _ _ Hp Hn) as W.
  apply add_utm_parsed in H as (q & Hq & _ & _ & Hout); auto.
  exists (Urllib.replace_query parsed q). split; [exact Hout|].
  cbn [Urllib.replace_query Urllib.query]. cbv zeta.
  rewrite (parse_qsl_urlencode _ _ Hq) by (apply merged_values; auto).
  rewrite of_pairs_merged. split; [reflexivity|].
  apply merged_get_utm.
Qed.

(** X11. Annotating an annotated URL with other tracking values gives what
    annotating the first URL with them gives: the later values replace
    the earlier ones, and nothing else changes.  The URL has an
    authority, and the earlier values are not empty. *)
Theorem X11_later_values_replace_earlier
        (u : str) (parsed : Urllib.ParseResult)
        (s1 m1 c1 s2 m2 c2 out : str) :
  Urllib.urlparse u = Ok parsed ->
  Urllib.netloc parsed <> [] ->
  s1 <> [] -> m1 <> [] -> c1 <> [] ->
  add_utm_to_url (UrlStr u) s1 m1 c1 = Ok out ->
  add_utm_to_url (UrlStr out) s2 m2 c2 = add_utm_to_url (UrlStr u) s2 m2 c2.
Proof.
  intros Hp Hn Hs Hm Hc H. rewrite (add_utm_str_parsed _ _ _ _ _ Hp) in H.
  pose proof (urlparse_wf _ _ Hp Hn) as W.
  apply add_utm_parsed in H as (q & Hq & _ & _ & Hout); auto.
  rewrite (add_utm_str_parsed _ _ _ _ _ Hp), (add_utm_str_parsed _ _ _ _ _ Hout).
  unfold add_utm_to_url. cbn [as_parsed bind].
  rewrite (merged_overwrite _ _ _ _ _ _ _ _ Hs Hm Hc Hq).
  reflexivity.
Qed.

(** X12. The order of the parameters in the output: the fields of the new
    query encode, one by one, the parameters of the input in their order,
    each name once, and after them the tracking keys the input did not
    have, in the order [utm_source], [utm_medium], [utm_campaign].  A
    tracking key the input has keeps its place. *)
Theorem X12_parameter_order
        (url : url_arg) (parsed : Urllib.ParseResult)
        (source medium campaign out : str) :
  as_parsed url = Ok parsed ->
  add_utm_to_url url source medium campaign = Ok out ->
  let current := Dict.of_pairs (Urllib.parse_qsl (Urllib.query parsed)) in
  exists (q : str) (d : Dict.t),
    out = Urllib.geturl (Urllib.replace_query parsed q)
    /\ Forall2 encodes d (Py.split Py.C_AMP q)
    /\ NoDup (Dict.keys d)
    /\ Dict.keys d
       = Dict.keys current
         ++ filter (fun k => negb (Urllib.mem k (Dict.keys current)))
                   [lit "utm_source"; lit "utm_medium"; lit "utm_campaign"].
Proof.
  intros Hp H current.
  apply add_utm_inv in H as (parsed' & q & Hp' & Hq & ->).
  assert (parsed' = parsed) as -> by congruence.
  exists q, (merged_params parsed source medium campaign).
  split; [reflexivity|]. split; [apply merged_fields; exact Hq|].
  split; [apply merged_NoDup|].
  rewrite merged_params_eq. fold current.
  rewrite keys_update by apply utm_keys_NoDup. reflexivity.
Qed.

(** ** Looking for the configuration file *)

Section FindFile.

Variable fs : Os.filesystem.
Variable name : str.

Lemma ancestor_parent (d : Path.t) (k : nat) :
  ancestor (Path.parent d) k = ancestor d (S k).
Proof.
  unfold ancestor. induction k as [|k IH]; [reflexivity|].
  change (Path.parent (Nat.iter k Path.parent (Path.parent d))
          = Path.parent (Nat.iter (S k) Path.parent d)).
  rewrite IH. reflexivity.
Qed.

Lemma find_file_loop_found (todo : nat) (levels : Z) (last : option Z)
      (d p : Path.t) (lv : option Z) :
  find_file_loop fs name todo levels last d = Os.Return (Some p, lv) ->
  exists k : nat,
    (k < todo)%nat
    /\ lv = Some (levels + Z.of_nat k)%Z
    /\ Os.exists_ fs (Path.child (ancestor d k) name) = Os.Return true
    /\ Os.resolve fs (Path.child (ancestor d k) name) = Os.Return p
    /\ forall j : nat,
         (j < k)%nat ->
         Os.exists_ fs (Path.child (ancestor d j) name) = Os.Return false.
Proof.
  revert levels last d.
  induction todo as [|todo IH]; intros levels last d; cbn [find_file_loop].
  - discriminate.
  - destruct (Os.exists_ fs (Path.child d name)) as [[|]|e] eqn:E;
      cbn [Os.bind]; [| |discriminate].
    + destruct (Os.resolve fs (Path.child d name)) as [p'|e] eqn:R;
        cbn [Os.bind]; [|discriminate].
      intros [= -> <-]. exists O. rewrite Z.add_0_r.
      repeat split; auto; [lia|]. intros j Hj. lia.
    + intros H. apply IH in H as (k & Hk & -> & He & Hr & Hbefore).
      exists (S k). rewrite <- !ancestor_parent.
      repeat split; auto; [lia | f_equal; lia |].
      intros [|j] Hj; [exact E|].
      rewrite <- ancestor_parent. apply Hbefore. lia.
Qed.

Lemma find_file_loop_none (todo : nat) (levels : Z) (last : option Z)
      (d : Path.t) :
  (forall j : nat,
      (j < todo)%nat ->
      Os.exists_ fs (Path.child (ancestor d j) name) = Os.Return false) ->
  find_file_loop fs name todo levels last d
  = Os.Return (None, match todo with
                     | O => last
                     | S k => Some (levels + Z.of_nat k)%Z
                     end).
Proof.
  revert levels last d.
  induction todo as [|todo IH]; intros levels last d H; cbn [find_file_loop].
  - reflexivity.
  - pose proof (H O ltac:(lia)) as H0. change (ancestor d 0) with d in H0.
    rewrite H0. cbn [Os.bind].
    rewrite IH.
    + destruct todo as [|k]; do 3 f_equal; lia.
    + intros j Hj. rewrite ancestor_parent. apply H. lia.
Qed.

Lemma find_file_found (n : Z) (start : option str)
      (p : Path.t) (lv : option Z) :
  find_file_recursively fs name n start = Os.Return (Some p, lv) ->
  exists (c : str) (d0 : Path.t) (k : nat),
    or_getcwd fs start = Os.Return c
    /\ Os.resolve fs (Path.of_str c) = Os.Return d0
    /\ (Z.of_nat k < n)%Z
    /\ lv = Some (Z.of_nat k)
    /\ Os.exists_ fs (Path.child (ancestor d0 k) name) = Os.Return true
    /\ Os.resolve fs (Path.child (ancestor d0 k) name) = Os.Return p
    /\ forall j : nat,
         (j < k)%nat ->
         Os.exists_ fs (Path.child (ancestor d0 j) name) = Os.Return false.
Proof.
  unfold find_file_recursively.
  destruct (or_getcwd fs start) as [c|e]; cbn [Os.bind]; [|discriminate].
  destruct (Os.resolve fs (Path.of_str c)) as [d0|e] eqn:R;
    cbn [Os.bind]; [|discriminate].
  intros H. apply find_file_loop_found in H as (k & Hk & -> & He & Hr & Hb).
  exists c, d0, k. repeat split; auto. lia.
Qed.

Lemma find_file_none (n : Z) (start : option str) (c : str) (d0 : Path.t) :
  or_getcwd fs start = Os.Return c ->
  Os.resolve fs (Path.of_str c) = Os.Return d0 ->
  (forall j : nat,
      (Z.of_nat j < n)%Z ->
      Os.exists_ fs (Path.child (ancestor d0 j) name) = Os.Return false) ->
  find_file_recursively fs name n start
  = Os.Return (None, if (n <=? 0)%Z then None else Some (n - 1)%Z).
Proof.
  intros Hc Hd H. unfold find_file_recursively.
  rewrite Hc. cbn [Os.bind]. rewrite Hd. cbn [Os.bind].
  rewrite find_file_loop_none by (intros j Hj; apply H; lia).
  destruct (Z.leb_spec n 0) as [Hn|Hn].
  - replace (Z.to_nat n) with O by lia. reflexivity.
  - destruct (Z.to_nat n) as [|k] eqn:E; [lia|]. do 3 f_equal. lia.
Qed.

End FindFile.

(** X13. When [find_file_recursively] returns a file, it is the nearest
    one: the file exists [levels] directories above the starting
    directory, with [levels] below [max_levels_up], it exists in no
    directory nearer to the starting one, and the path returned is the
    resolved path of that file. *)
Theorem X13_find_file_nearest
        (fs : Os.filesystem) (name : str) (max_levels_up : Z)
        (starting_dir : option str) (path_to_file : Path.t)
        (levels : option Z) :
  find_file_recursively fs name max_levels_up starting_dir
  = Os.Return (Some path_to_file, levels) ->
  exists (c : str) (d0 : Path.t) (k : nat),
    or_getcwd fs starting_dir = Os.Return c
    /\ Os.resolve fs (Path.of_str c) = Os.Return d0
    /\ (Z.of_nat k < max_levels_up)%Z
    /\ levels = Some (Z.of_nat k)
    /\ Os.exists_ fs (Path.child (ancestor d0 k) name) = Os.Return true
    /\ Os.resolve fs (Path.child (ancestor d0 k) name)
       = Os.Return path_to_file
    /\ forall j : nat,
         (j < k)%nat ->
         Os.exists_ fs (Path.child (ancestor d0 j) name) = Os.Return false.
Proof. apply find_file_found. Qed.

(** X14. When the file is in none of the [max_levels_up] directories
    looked at, [find_file_recursively] returns no path, and the level of
    the last directory it looked at, [max_levels_up - 1]; the level is
    [None] only when no directory is looked at. *)
Theorem X14_find_file_not_found
        (fs : Os.filesystem) (name : str) (max_levels_up : Z)
        (starting_dir : option str) (c : str) (d0 : Path.t) :
  or_getcwd fs starting_dir = Os.Return c ->
  Os.resolve fs (Path.of_str c) = Os.Return d0 ->
  (forall j : nat,
      (Z.of_nat j < max_levels_up)%Z ->
      Os.exists_ fs (Path.child (ancestor d0 j) name) = Os.Return false) ->
  find_file_recursively fs name max_levels_up starting_dir
  = Os.Return (None, if (max_levels_up <=? 0)%Z then None
                     else Some (max_levels_up - 1)%Z).
Proof. apply find_file_none. Qed.

(** X15. [get_config] looks into the working directory and the five
    directories above it: when the file is in none of them, it raises
    [FileNotFoundError], and nothing is read. *)
Theorem X15_get_config_not_found
        (fs : Os.filesystem)
        (make_config : str -> str -> Os.outcome Config.t)
        (name c : str) (d0 : Path.t) :
  Os.getcwd fs = Os.Return c ->
  Os.resolve fs (Path.of_str c) = Os.Return d0 ->
  (forall j : nat,
      (j < 6)%nat ->
      Os.exists_ fs (Path.child (ancestor d0 j) name) = Os.Return false) ->
  get_config fs make_config name = Os.Throw Os.FileNotFoundError.
Proof.
  intros Hc Hd H. unfold get_config.
  rewrite (find_file_none fs name 6 None c d0); auto.
  intros j Hj. apply H. lia.
Qed.

(** X16. A configuration that [get_config] returns comes from the nearest
    file of that name, at most five directories above the working
    directory: it is built from the text of that file, with the directory
    of the file as its root, and its directories for posts and for static
    files both exist. *)
Theorem X16_get_config_returns
        (fs : Os.filesystem)
        (make_config : str -> str -> Os.outcome Config.t)
        (name : str) (cfg : Config.t) :
  get_config fs make_config name = Os.Return cfg ->
  exists (c : str) (d0 path : Path.t) (k : nat) (text : str),
    Os.getcwd fs = Os.Return c
    /\ Os.resolve fs (Path.of_str c) = Os.Return d0
    /\ (k < 6)%nat
    /\ Os.resolve fs (Path.child (ancestor d0 k) name) = Os.Return path
    /\ (forall j : nat,
           (j < k)%nat ->
           Os.exists_ fs (Path.child (ancestor d0 j) name) = Os.Return false)
    /\ Os.read_text fs (Path.of_path path) = Os.Return text
    /\ make_config text (Path.to_str (Path.parent path)) = Os.Return cfg
    /\ Os.is_dir fs (Config.path_to_posts_abs cfg) = Os.Return true
    /\ Os.is_dir fs (Config.path_to_static_abs cfg) = Os.Return true.
Proof.
  unfold get_config.
  destruct (find_file_recursively fs name 6 None) as [[[path|] lv]|e] eqn:F;
    cbn [Os.bind fst]; try discriminate.
  destruct (Os.read_text fs (Path.of_path path)) as [text|e] eqn:Et;
    cbn [Os.bind]; [|discriminate].
  destruct (make_config text _) as [cfg'|e] eqn:Em;
    cbn [Os.bind]; [|discriminate].
  destruct (Os.is_dir fs (Config.path_to_posts_abs cfg')) as [[|]|e] eqn:E1;
    cbn [Os.bind]; try discriminate.
  destruct (Os.is_dir fs (Config.path_to_static_abs cfg')) as [[|]|e] eqn:E2;
    cbn [Os.bind]; try discriminate.
  intros [= <-].
  apply find_file_found in F as (c & d0 & k & Hc & Hd & Hk & _ & _ & Hr & Hb).
  exists c, d0, path, k, text. repeat split; auto. lia.
Qed.

(** ** The directories of a configuration *)

Section Paths.

Lemma splitroot_root (s : str) :
  Py.is_empty (fst (Pathlib.splitroot s)) = negb (Py.startswith [Py.C_SLASH] s).
Proof.
  unfold Pathlib.splitroot. destruct s as [|c s]; [reflexivity|].
  cbn [Py.startswith]. rewrite (N.eqb_sym Py.C_SLASH c), andb_true_r.
  destruct (c =? Py.C_SLASH); [|reflexivity].
  destruct (Nat.eqb _ 2); reflexivity.
Qed.

(** [Path(a, b)]: [b] alone when it starts with ['/'], and the parts of
    [b] after those of [a] when it does not. *)
Lemma of_strs_pair (a b : str) :
  Path.of_strs [a; b]
  = if Py.startswith [Py.C_SLASH] b then Path.of_str b
    else Path.mk (Path.root (Path.of_str a))
                 (Path.parts (Path.of_str a) ++ Path.parts (Path.of_str b)).
Proof.
  unfold Path.of_str, Path.of_strs. cbn [rev app Path.parse_rev].
  destruct b as [|x b]; cbn [Py.is_empty Py.startswith].
  - destruct (Py.is_empty a).
    + reflexivity.
    + destruct (Pathlib.splitroot a) as [ra rela].
      destruct (Py.is_empty ra); cbn [Path.root Path.parts];
        rewrite ?app_nil_r; reflexivity.
  - pose proof (splitroot_root (x :: b)) as Hr.
    destruct (Pathlib.splitroot (x :: b)) as [rb relb]. cbn [fst] in Hr.
    cbn [Py.startswith] in Hr. rewrite Hr.
    destruct (Py.C_SLASH =? x); cbn [negb andb].
    + reflexivity.
    + destruct (Py.is_empty a).
      * reflexivity.
      * destruct (Pathlib.splitroot a) as [ra rela].
        destruct (Py.is_empty ra); cbn [Path.root Path.parts]; reflexivity.
Qed.

End Paths.

(** X17. [path_to_posts_abs] and [path_to_static_abs] are relative to the
    root only for a relative path: a path that starts with ['/'] is
    taken alone, and the root is ignored; otherwise its parts follow
    those of the root. *)
Theorem X17_absolute_path_ignores_root (cfg : Config.t) :
  let under (p : str) :=
    if Py.startswith (lit "/") p then Path.of_str p
    else Path.mk (Path.root (Path.of_str (Config.root cfg)))
                 (Path.parts (Path.of_str (Config.root cfg))
                  ++ Path.parts (Path.of_str p)) in
  Config.path_to_posts_abs cfg = under (Config.path_to_posts cfg)
  /\ Config.path_to_static_abs cfg = under (Config.path_to_static cfg).
Proof. split; apply of_strs_pair. Qed.

(** ** Loading a processor *)

Section Loading.

Context {module object : Type}.
Variable imp : Os.importer module object.

Lemma rpartition_dot_bare (p : str) :
  ~ In Py.C_DOT p -> Config.rpartition_dot p = ([], p).
Proof.
  intros H. unfold Config.rpartition_dot.
  pose proof (rsplit_last_spec Py.C_DOT p) as S.
  destruct (Urllib.rsplit_last Py.C_DOT p) as [[a b]|]; [|reflexivity].
  destruct S as [-> _]. exfalso. apply H. apply in_or_app. right. left.
  reflexivity.
Qed.

Lemma load_dotted_bare (p : str) :
  ~ In Py.C_DOT p ->
  Config._load_dotted_path imp p = Os.Throw Os.ValueError.
Proof.
  intros H. unfold Config._load_dotted_path.
  rewrite rpartition_dot_bare by exact H. reflexivity.
Qed.

Lemma load_dotted_last (mod_ attr : str) :
  ~ In Py.C_DOT attr ->
  Config._load_dotted_path imp (mod_ ++ Py.C_DOT :: attr)
  = (m <~ Os.import_module imp mod_ ;; Os.getattr imp m attr).
Proof.
  intros H. unfold Config._load_dotted_path, Config.rpartition_dot.
  rewrite rsplit_last_app by exact H. reflexivity.
Qed.

End Loading.

(** X18. A processor named without a dot cannot be loaded:
    [load_processor] raises [ValueError], whatever modules there are,
    since the module name is empty. *)
Theorem X18_bare_processor_name_raises
        {module object : Type} (imp : Os.importer module object)
        (cfg : Config.t) (p : str) :
  Config.processor cfg = Some p -> p <> [] -> ~ In Py.C_DOT p ->
  Config.load_processor imp cfg = Os.Throw Os.ValueError.
Proof.
  intros Hp Hne Hdot. unfold Config.load_processor. rewrite Hp.
  destruct p as [|c p]; [congruence|].
  rewrite load_dotted_bare by exact Hdot. reflexivity.
Qed.

(** X19. A dotted processor name is cut at its last dot: what is before
    it is the module that is imported, what is after it the attribute
    that is taken from the module. *)
Theorem X19_processor_cut_at_last_dot
        {module object : Type} (imp : Os.importer module object)
        (cfg : Config.t) (mod_ attr : str) :
  Config.processor cfg = Some (mod_ ++ lit "." ++ attr) ->
  ~ In Py.C_DOT attr ->
  Config.load_processor imp cfg
  = (m <~ Os.import_module imp mod_ ;;
     f <~ Os.getattr imp m attr ;;
     Os.Return (Some f)).
Proof.
  intros Hp Hdot. unfold Config.load_processor. rewrite Hp.
  change (mod_ ++ lit "." ++ attr) with (mod_ ++ Py.C_DOT :: attr).
  destruct (mod_ ++ Py.C_DOT :: attr) as [|c p] eqn:E.
  - destruct mod_; discriminate E.
  - rewrite <- E, load_dotted_last by exact Hdot.
    destruct (Os.import_module imp mod_); reflexivity.
Qed.

(** ** Texts whose URLs are whole words *)

Section Replace.

Lemma occursb_iff (k s : str) :
  occursb k s = true <-> exists a b, s = a ++ k ++ b.
Proof.
  induction s as [|x s IH]; cbn [occursb].
  - rewrite orb_false_r, startswith_iff. split.
    + intros [r E]. exists [], r. exact E.
    + intros (a & b & E). destruct a; [exists b; exact E | discriminate E].
  - rewrite orb_true_iff, startswith_iff, IH. split.
    + intros [[r E] | (a & b & E)].
      * exists [], r. exact E.
      * exists (x :: a), b. rewrite E. reflexivity.
    + intros (a & b & E). destruct a as [|y a].
      * left. exists b. exact E.
      * right. injection E as _ E. exists a, b. exact E.
Qed.

Lemma occursb_tail (k s : str) (x : char) :
  occursb k (x :: s) = false -> occursb k s = false.
Proof. cbn [occursb]. intros H. apply orb_false_iff in H as [_ H]. exact H. Qed.

(** A string that does not occur is not replaced. *)
Lemma replace_from_absent (k new s : str) :
  occursb k s = false -> Py.replace_from k new O s = s.
Proof.
  induction s as [|x s IH]; intros H; [reflexivity|].
  cbn [Py.replace_from]. pose proof H as H'. cbn [occursb] in H'.
  apply orb_false_iff in H' as [-> H']. rewrite IH by exact H'. reflexivity.
Qed.

Lemma replace_absent (k new s : str) :
  k <> [] -> occursb k s = false -> Py.replace k new s = s.
Proof.
  intros Hk H. destruct k as [|x k]; [congruence|].
  apply replace_from_absent. exact H.
Qed.

Lemma startswith_length (k s : str) :
  Py.startswith k s = true -> (length k <= length s)%nat.
Proof.
  intros H. apply startswith_iff in H as [r ->]. rewrite length_app. lia.
Qed.

(** A string without [c] starts [a ++ c :: b] only if it starts [a]. *)
Lemma startswith_sep (k a b : str) (c : char) :
  ~ In c k -> Py.startswith k (a ++ c :: b) = Py.startswith k a.
Proof.
  revert a. induction k as [|x k IH]; intros a H; [reflexivity|].
  destruct a as [|y a]; cbn [app Py.startswith].
  - destruct (N.eqb_spec x c) as [->|Hx]; [|reflexivity].
    exfalso. apply H. left. reflexivity.
  - rewrite IH; [reflexivity|]. intros Hin. apply H. right. exact Hin.
Qed.

(** Replacing goes word by word: an occurrence does not run across a
    character that the replaced string does not have. *)
Lemma replace_from_sep (k new a b : str) (c : char) (skip : nat) :
  k <> [] -> ~ In c k -> (skip <= length a)%nat ->
  Py.replace_from k new skip (a ++ c :: b)
  = Py.replace_from k new skip a ++ c :: Py.replace_from k new O b.
Proof.
  intros Hk Hc. revert skip.
  induction a as [|x a IH]; intros skip Hs.
  - destruct skip; [|simpl in Hs; lia].
    pose proof (startswith_sep k [] b c Hc) as E. cbn [app] in E.
    cbn [app Py.replace_from]. rewrite E.
    destruct k; [congruence | reflexivity].
  - destruct skip as [|n].
    + pose proof (startswith_sep k (x :: a) b c Hc) as E0. cbn [app] in E0.
      cbn [app Py.replace_from]. rewrite E0.
      destruct (Py.startswith k (x :: a)) eqn:E.
      * rewrite IH; [rewrite <- app_assoc; reflexivity|].
        apply startswith_length in E. simpl in E. lia.
      * rewrite IH by lia. reflexivity.
    + cbn [app Py.replace_from]. apply IH. simpl in Hs. lia.
Qed.

Lemma replace_sep (k new a b : str) (c : char) :
  k <> [] -> ~ In c k ->
  Py.replace k new (a ++ c :: b)
  = Py.replace k new a ++ c :: Py.replace k new b.
Proof.
  intros Hk Hc. destruct k as [|x k]; [congruence|].
  cbn [Py.replace]. apply replace_from_sep; auto. lia.
Qed.

End Replace.

Section Separated.

Lemma find_urls_sep (a b : str) (c : char) :
  url_char c = false ->
  find_urls (a ++ c :: b) = find_urls a ++ find_urls b.
Proof.
  intros Hc. apply located_find_urls.
  apply located_app; auto using find_urls_located.
Qed.

Lemma find_urls_spaced (items : list (str * char)) (last : str) :
  Forall (fun wc => url_char (snd wc) = false) items ->
  find_urls (spaced items last)
  = flat_map find_urls (map fst items ++ [last]).
Proof.
  induction 1 as [|[w c] items Hc _ IH]; cbn [spaced fold_right map app flat_map].
  - rewrite app_nil_r. reflexivity.
  - cbn [fst snd]. rewrite find_urls_sep by exact Hc.
    fold (spaced items last). rewrite IH. reflexivity.
Qed.

Lemma url_word_chars (w : str) :
  url_word w -> w <> [] /\ Forall (fun c => url_char c = true) w.
Proof.
  intros (tok & run & Htok & Hne & Hrun & ->). split.
  - destruct (token_length tok Htok) as (h & t & ->). discriminate.
  - apply Forall_app. split; [apply token_chars; exact Htok | exact Hrun].
Qed.

Lemma url_word_find_urls (w : str) : url_word w -> find_urls w = [w].
Proof.
  intros (tok & run & Htok & Hne & Hrun & ->). apply find_urls_single; auto.
Qed.

Lemma url_word_starts (w b : str) : url_word w -> starts_url (w ++ b).
Proof.
  intros (tok & run & Htok & Hne & Hrun & ->).
  destruct run as [|c run]; [congruence|]. inversion Hrun; subst.
  exists tok, c, (run ++ b). repeat split; auto.
  rewrite <- app_assoc. reflexivity.
Qed.

(** A URL does not occur in a word without a URL. *)
Lemma url_word_absent (k w : str) :
  url_word k -> find_urls w = [] -> occursb k w = false.
Proof.
  intros Hk Hw. destruct (occursb k w) eqn:E; [|reflexivity].
  apply occursb_iff in E as (a & b & ->).
  pose proof (find_urls_located (a ++ k ++ b)) as L. rewrite Hw in L.
  inversion L as [text H|]; subst.
  exfalso. apply (H a (k ++ b) eq_refl). apply url_word_starts. exact Hk.
Qed.

Lemma replace_all_absent (mapping : Dict.t) (w : str) :
  Forall (fun kv => fst kv <> [] /\ occursb (fst kv) w = false) mapping ->
  replace_all mapping w = w.
Proof.
  unfold replace_all. induction 1 as [|[k v] m [Hk Ho] _ IH]; [reflexivity|].
  cbn [fold_left fst snd] in *. rewrite replace_absent by auto. exact IH.
Qed.

Lemma replace_spaced (k new : str) (items : list (str * char)) (last : str) :
  k <> [] ->
  Forall (fun wc => ~ In (snd wc) k) items ->
  Py.replace k new (spaced items last)
  = spaced (map (fun wc => (Py.replace k new (fst wc), snd wc)) items)
           (Py.replace k new last).
Proof.
  intros Hk. induction 1 as [|[w c] items Hc _ IH]; [reflexivity|].
  cbn [spaced fold_right map fst snd] in *.
  rewrite replace_sep by auto. fold (spaced items last). rewrite IH.
  reflexivity.
Qed.

Lemma replace_all_spaced (mapping : Dict.t) (items : list (str * char))
      (last : str) :
  Forall (fun kv => fst kv <> []
                    /\ Forall (fun wc => ~ In (snd wc) (fst kv)) items)
         mapping ->
  replace_all mapping (spaced items last)
  = spaced (map (fun wc => (replace_all mapping (fst wc), snd wc)) items)
           (replace_all mapping last).
Proof.
  unfold replace_all. revert items last.
  induction mapping as [|[k v] m IH]; intros items last H.
  - cbn [fold_left]. rewrite map_ext with (g := fun wc => wc).
    + rewrite map_id. reflexivity.
    + intros [w c]. reflexivity.
  - inversion H as [|? ? [Hk Hsep] Hm]; subst. cbn [fst snd] in *.
    cbn [fold_left fst snd]. rewrite replace_spaced by auto.
    rewrite IH.
    + rewrite map_map. reflexivity.
    + eapply Forall_impl; [|exact Hm]. intros [k' v'] [Hk' Hs']. split; auto.
      apply Forall_map. exact Hs'.
Qed.

(** The entries of the mapping, for URLs that parse. *)
Lemma mapping_entries (source medium campaign : str) (g : str -> str)
      (us : list str) :
  Forall (fun u => is_image_url u = true
                   \/ (is_image_url u = false
                       /\ exists p, Urllib.urlparse u = Ok p
                                    /\ Urllib.geturl p = u
                                    /\ add_utm_to_url (UrlParsed p) source
                                                      medium campaign
                                       = Ok (g u))) us ->
  exists ps,
    mapM Urllib.urlparse us = Ok ps
    /\ mapM (fun url =>
               new <- add_utm_to_url (UrlParsed url) source medium campaign ;;
               Ok (Urllib.geturl url, new))
            (filter (fun url => negb (is_image (Urllib.path url))) ps)
       = Ok (map (fun u => (u, g u))
                 (filter (fun u => negb (is_image_url u)) us)).
Proof.
  induction 1 as [|u us Hu _ (ps & Hps & He)].
  - exists []. split; reflexivity.
  - destruct Hu as [Hi | (Hi & p & Hp & Hg & Hn)].
    + unfold is_image_url in Hi.
      destruct (Urllib.urlparse u) as [p|e] eqn:Hp; [|discriminate].
      exists (p :: ps). cbn [mapM filter]. rewrite Hp, Hps. cbn [bind].
      unfold is_image_url at 1. rewrite Hp, Hi. cbn [negb].
      split; [reflexivity | exact He].
    + exists (p :: ps). cbn [mapM filter]. rewrite Hp, Hps. cbn [bind].
      rewrite Hi. unfold is_image_url in Hi. rewrite Hp in Hi. rewrite Hi.
      cbn [negb mapM map]. rewrite Hn. cbn [bind]. rewrite He, Hg.
      split; reflexivity.
Qed.

Lemma get_update_fun (g : str -> str) (us : list str) (d : Dict.t) (k : str) :
  In k us ->
  Dict.get k (Dict.update d (map (fun u => (u, g u)) us)) = Some (g k).
Proof.
  revert d. induction us as [|u us IH]; intros d; [intros []|].
  intros Hin. unfold Dict.update. cbn [map fold_left fst snd].
  fold (Dict.update (Dict.set u (g u) d) (map (fun u => (u, g u)) us)).
  destruct (in_dec (list_eq_dec N.eq_dec) k us) as [Hk|Hk].
  - apply IH. exact Hk.
  - destruct Hin as [->|Hin]; [|contradiction].
    rewrite get_update_skip.
    + apply get_set_same.
    + rewrite map_map. cbn [fst]. rewrite map_id. exact Hk.
Qed.

Variables (source medium campaign : str) (g : str -> str).
Variables (items : list (str * char)) (last : str).

Hypothesis Hsep : Forall (fun wc => url_char (snd wc) = false) items.
Hypothesis Hwords :
  forall w, In w (words items last) -> word_rewritten source medium campaign w (g w).
Hypothesis Hapart :
  forall k u,
    In k (words items last) -> In u (words items last) ->
    url_word k -> is_image_url k = false -> url_word u -> k <> u ->
    occursb k u = false /\ occursb k (g u) = false.

(** The URLs of the text are its words that are URLs. *)
Lemma spaced_urls (u : str) :
  In u (find_urls (spaced items last)) -> In u (words items last) /\ url_word u.
Proof.
  rewrite find_urls_spaced by exact Hsep. fold (words items last).
  intros H. apply in_flat_map in H as (w & Hw & Hu).
  destruct (Hwords w Hw) as [[E _] | [(Hu' & _) | (Hu' & _)]].
  - rewrite E in Hu. destruct Hu.
  - rewrite (url_word_find_urls w Hu') in Hu. destruct Hu as [<-|[]]. auto.
  - rewrite (url_word_find_urls w Hu') in Hu. destruct Hu as [<-|[]]. auto.
Qed.

Lemma word_urls (w : str) :
  In w (words items last) -> url_word w -> In w (find_urls (spaced items last)).
Proof.
  intros Hw Hu. rewrite find_urls_spaced by exact Hsep. fold (words items last).
  apply in_flat_map. exists w. split; [exact Hw|].
  rewrite (url_word_find_urls w Hu). left. reflexivity.
Qed.

Lemma spaced_urls_ok :
  Forall (fun u => is_image_url u = true
                   \/ (is_image_url u = false
                       /\ exists p, Urllib.urlparse u = Ok p
                                    /\ Urllib.geturl p = u
                                    /\ add_utm_to_url (UrlParsed p) source
                                                      medium campaign
                                       = Ok (g u)))
         (find_urls (spaced items last)).
Proof.
  apply Forall_forall. intros u Hu.
  destruct (spaced_urls u Hu) as [Hw Huw].
  destruct (Hwords u Hw) as [[E _] | [(_ & Hi & _) | (_ & Hi & Hp)]]; auto.
  rewrite (url_word_find_urls u Huw) in E. discriminate E.
Qed.

Lemma mapping_key (k v : str) :
  In (k, v) (url_mapping g (spaced items last)) ->
  v = g k /\ In k (words items last) /\ url_word k /\ is_image_url k = false.
Proof.
  intros H. unfold url_mapping, Dict.of_pairs in H.
  apply In_update in H as [[] | H].
  apply in_map_iff in H as (u & [= <- <-] & Hu).
  apply filter_In in Hu as [Hu Hi]. apply negb_true_iff in Hi.
  destruct (spaced_urls u Hu). auto.
Qed.

Lemma mapping_has (u : str) :
  In u (words items last) -> url_word u -> is_image_url u = false ->
  In (u, g u) (url_mapping g (spaced items last)).
Proof.
  intros Hw Hu Hi. apply (In_get u (g u) (url_mapping g (spaced items last))).
  - apply of_pairs_NoDup.
  - apply get_update_fun. apply filter_In. split.
    + apply word_urls; auto.
    + rewrite Hi. reflexivity.
Qed.

Lemma key_chars (k v : str) (c : char) :
  In (k, v) (url_mapping g (spaced items last)) -> url_char c = false -> k <> [] /\ ~ In c k.
Proof.
  intros H Hc. apply mapping_key in H as (_ & _ & Hu & _).
  apply url_word_chars in Hu as [Hne Hall]. split; [exact Hne|].
  intros Hin. rewrite Forall_forall in Hall. specialize (Hall c Hin).
  congruence.
Qed.

(** Part of the mapping leaves a word alone when none of its keys is the
    word. *)
Lemma part_absent (m : Dict.t) (u w : str) :
  (forall kv, In kv m -> In kv (url_mapping g (spaced items last))) ->
  ~ In u (Dict.keys m) ->
  In u (words items last) -> url_word u -> (w = u \/ w = g u) ->
  replace_all m w = w.
Proof.
  intros Hm Hnot Hu Huw Hw. apply replace_all_absent.
  apply Forall_forall. intros [k v] Hkv. cbn [fst].
  destruct (mapping_key k v (Hm _ Hkv)) as (_ & Hk & Hkw & Hki).
  split; [apply (url_word_chars k Hkw)|].
  assert (Hne : k <> u).
  { intros ->. apply Hnot. apply in_map_iff. exists (u, v). auto. }
  destruct (Hapart k u Hk Hu Hkw Hki Huw Hne) as [H1 H2].
  destruct Hw as [-> | ->]; assumption.
Qed.

Lemma word_replaced (w : str) : In w (words items last) -> replace_all (url_mapping g (spaced items last)) w = g w.
Proof.
  intros Hw.
  destruct (Hwords w Hw) as [[E ->] | [(Hu & Hi & ->) | (Hu & Hi & _)]].
  - apply replace_all_absent. apply Forall_forall. intros [k v] Hkv. cbn [fst].
    destruct (mapping_key k v Hkv) as (_ & _ & Hkw & _).
    split; [apply (url_word_chars k Hkw)|].
    apply url_word_absent; auto.
  - apply (part_absent (url_mapping g (spaced items last)) w w); auto.
    intros Hin. apply in_map_iff in Hin as ([k v] & Ek & Hkv).
    cbn [fst] in Ek. subst k.
    destruct (mapping_key w v Hkv) as (_ & _ & _ & Hi'). congruence.
  - pose proof (mapping_has w Hw Hu Hi) as Hin.
    pose proof (of_pairs_NoDup
                  (map (fun u => (u, g u))
                       (filter (fun u => negb (is_image_url u))
                               (find_urls (spaced items last))))) as Hnd.
    fold (url_mapping g (spaced items last)) in Hnd.
    destruct (in_split _ _ Hin) as (l1 & l2 & E).
    assert (Hsub1 : forall kv, In kv l1 -> In kv (url_mapping g (spaced items last)))
      by (intros kv H; rewrite E; apply in_or_app; left; exact H).
    assert (Hsub2 : forall kv, In kv l2 -> In kv (url_mapping g (spaced items last)))
      by (intros kv H; rewrite E; apply in_or_app; right; right; exact H).
    unfold Dict.keys in Hnd. rewrite E, map_app in Hnd. cbn [map fst] in Hnd.
    apply NoDup_remove in Hnd as [_ Hnot].
    rewrite E. unfold replace_all. rewrite fold_left_app. cbn [fold_left fst snd].
    fold (replace_all l1 w).
    rewrite (part_absent l1 w w); auto.
    2:{ intros H. apply Hnot. apply in_or_app. left. exact H. }
    rewrite replace_self by (apply (url_word_chars w Hu)).
    fold (replace_all l2 (g w)).
    apply (part_absent l2 w (g w)); auto.
    intros H. apply Hnot. apply in_or_app. right. exact H.
Qed.

End Separated.

(** A text of separated URLs, annotated. *)
Lemma add_all_spaced
        (source medium campaign : str) (g : str -> str)
        (items : list (str * char)) (last : str) :
  Forall (fun wc => url_char (snd wc) = false) items ->
  (forall w, In w (words items last) ->
             word_rewritten source medium campaign w (g w)) ->
  (forall k u,
      In k (words items last) -> In u (words items last) ->
      url_word k -> is_image_url k = false -> url_word u -> k <> u ->
      occursb k u = false /\ occursb k (g u) = false) ->
  add_utm_to_all_urls (spaced items last) source medium campaign
  = Ok (spaced (map (fun wc => (g (fst wc), snd wc)) items) (g last)).
Proof.
  intros Hsep Hwords Hapart. unfold add_utm_to_all_urls.
  destruct (mapping_entries
              source medium campaign g _
              (spaced_urls_ok source medium campaign g items last
                              Hsep Hwords))
    as (ps & -> & He).
  cbn [bind]. rewrite He. cbn [bind].
  fold (url_mapping g (spaced items last)).
  fold (replace_all (url_mapping g (spaced items last)) (spaced items last)).
  assert (Hw : forall w, In w (words items last) ->
                         replace_all (url_mapping g (spaced items last)) w
                         = g w)
    by (intros w; apply (word_replaced source medium campaign); assumption).
  rewrite replace_all_spaced.
  - f_equal. rewrite Hw by (apply in_or_app; right; left; reflexivity).
    f_equal. apply map_ext_in. intros [w c] Hin. cbn [fst snd].
    rewrite Hw; [reflexivity|].
    apply in_or_app. left. apply in_map_iff. exists (w, c). auto.
  - apply Forall_forall. intros [k v] Hkv. cbn [fst].
    pose proof (key_chars source medium campaign g items last Hsep Hwords
                          k v) as Hc.
    split; [apply (Hc Py.C_SPACE Hkv); reflexivity|].
    pose proof Hsep as Hs. rewrite Forall_forall in Hs.
    apply Forall_forall. intros wc Hwc.
    apply (Hc (snd wc) Hkv). apply Hs. exact Hwc.
Qed.

(** X20. In a text whose URLs are whole words, with white space or a
    parenthesis after each word, every URL is replaced by its annotated
    form and nothing else changes, when no URL of the text that is to be
    annotated occurs in another URL of the text or in the annotated form
    of another one.  Images and words without a URL stay as they are. *)
Theorem X20_separated_urls_annotated
        (source medium campaign : str) (g : str -> str)
        (items : list (str * char)) (last : str) :
  Forall (fun wc => url_char (snd wc) = false) items ->
  (forall w, In w (words items last) ->
             word_rewritten source medium campaign w (g w)) ->
  (forall k u,
      In k (words items last) -> In u (words items last) ->
      url_word k -> is_image_url k = false -> url_word u -> k <> u ->
      occursb k u = false /\ occursb k (g u) = false) ->
  add_utm_to_all_urls (spaced items last) source medium campaign
  = Ok (spaced (map (fun wc => (g (fst wc), snd wc)) items) (g last)).
Proof. apply add_all_spaced. Qed.

(** ** Running twice *)

Section SecondRun.

(** The annotated form of a URL that starts with a token starts with that
    token, and is a run of URL characters after it. *)
Lemma annotated_word (w : str) (parsed : Urllib.ParseResult)
      (source medium campaign new : str) :
  url_word w ->
  parsed_wf parsed ->
  Urllib.geturl parsed = w ->
  add_utm_to_url (UrlParsed parsed) source medium campaign = Ok new ->
  url_word new.
Proof.
  intros (tok & run & Htok & Hne & Hrun & ->) W Hg Hnew.
  apply add_utm_parsed in Hnew as (q & Hq & Enew & _ & _); auto.
  rewrite geturl_wf in Hg by auto. symmetry in Hg.
  destruct W as [W _].
  destruct (assemble_located _ _ _ _ _ _ _ Htok (wf_scheme _ _ _ _ _ W) Hg)
    as (Hsne & Etok & Erun).
  destruct (urlencode_clean _ _ Hq) as (_ & _ & Hqc).
  rewrite Erun in Hrun.
  apply Forall_app in Hrun as [R1 Hrun]. apply Forall_app in Hrun as [R2 Hrun].
  apply Forall_app in Hrun as [_ R4].
  exists tok,
    (Urllib.netloc parsed
     ++ with_params (Urllib.path parsed) (Urllib.params parsed)
     ++ (if Py.is_empty q then [] else Py.C_QUEST :: q)
     ++ (if Py.is_empty (Urllib.fragment parsed) then []
         else Py.C_HASH :: Urllib.fragment parsed)).
  split; [exact Htok|]. split; [|split].
  - intros E. apply app_eq_nil in E as [E _].
    exact (wf_netloc_nonempty _ _ _ _ _ W E).
  - repeat (apply Forall_app; split); auto.
    destruct (Py.is_empty q); constructor; auto.
  - rewrite Enew, assemble_token, Etok by auto. reflexivity.
Qed.

Lemma is_image_url_path (u v : str) (p p' : Urllib.ParseResult) :
  Urllib.urlparse u = Ok p -> Urllib.urlparse v = Ok p' ->
  Urllib.path p' = Urllib.path p ->
  is_image_url v = is_image_url u.
Proof.
  intros Hu Hv E. unfold is_image_url. rewrite Hu, Hv, E. reflexivity.
Qed.

Lemma words_map (g : str -> str) (items : list (str * char)) (last : str) :
  words (map (fun wc => (g (fst wc), snd wc)) items) (g last)
  = map g (words items last).
Proof.
  unfold words. rewrite map_app, !map_map. reflexivity.
Qed.

Variables (source medium campaign : str) (g : str -> str).
Variables (items : list (str * char)) (last : str).

Hypothesis Hs : source <> [].
Hypothesis Hm : medium <> [].
Hypothesis Hc : campaign <> [].
Hypothesis Hwords :
  forall w, In w (words items last) ->
            word_rewritten source medium campaign w (g w).
Hypothesis Hauth :
  forall w p,
    In w (words items last) -> url_word w -> is_image_url w = false ->
    Urllib.urlparse w = Ok p -> Urllib.netloc p <> [].

(** What the first run leaves is a word the second run leaves alone. *)
Lemma word_settled (w : str) :
  In w (words items last) ->
  word_rewritten source medium campaign (g w) (g w).
Proof.
  intros Hw.
  destruct (Hwords w Hw)
    as [[E ->] | [(Hu & Hi & ->) | (Hu & Hi & p & Hp & Hg & Hnew)]].
  - left. auto.
  - right. left. auto.
  - right. right.
    pose proof (urlparse_wf _ _ Hp (Hauth w p Hw Hu Hi Hp)) as W.
    destruct (add_utm_again p _ _ _ _ W Hs Hm Hc Hnew)
      as (p' & Hp' & Hg' & Hpath & Hnew').
    split; [exact (annotated_word w p _ _ _ _ Hu W Hg Hnew)|].
    split; [rewrite (is_image_url_path w (g w) p p'); auto|].
    exists p'. auto.
Qed.

(** An annotated URL is neither a word without a URL nor an image. *)
Lemma settled_key (w : str) :
  In w (words items last) ->
  url_word (g w) -> is_image_url (g w) = false ->
  url_word w /\ is_image_url w = false.
Proof.
  intros Hw Hu Hi.
  destruct (Hwords w Hw)
    as [[E Eg] | [(Hu' & Hi' & Eg) | (Hu' & Hi' & _)]].
  - rewrite Eg in Hu. rewrite (url_word_find_urls w Hu) in E. discriminate E.
  - rewrite Eg in Hi. congruence.
  - auto.
Qed.

End SecondRun.

(** X21. Running [add_utm_to_all_urls] again on its own output, with the
    same tracking values, returns that output, for a text whose URLs are
    whole words, each to be annotated one written the way [geturl] writes
    it and with an authority, when the tracking values are not empty and
    no URL to be annotated occurs in another URL of the text or in the
    annotated form of another one, nor its annotated form in that of
    another one. *)
Theorem X21_separated_text_idempotent
        (source medium campaign : str) (g : str -> str)
        (items : list (str * char)) (last : str) :
  source <> [] -> medium <> [] -> campaign <> [] ->
  Forall (fun wc => url_char (snd wc) = false) items ->
  (forall w, In w (words items last) ->
             word_rewritten source medium campaign w (g w)) ->
  (forall w p,
      In w (words items last) -> url_word w -> is_image_url w = false ->
      Urllib.urlparse w = Ok p -> Urllib.netloc p <> []) ->
  (forall k u,
      In k (words items last) -> In u (words items last) ->
      url_word k -> is_image_url k = false -> url_word u -> k <> u ->
      occursb k u = false /\ occursb k (g u) = false) ->
  (forall k u,
      In k (words items last) -> In u (words items last) ->
      url_word k -> is_image_url k = false -> url_word u -> g k <> g u ->
      occursb (g k) (g u) = false) ->
  exists out,
    add_utm_to_all_urls (spaced items last) source medium campaign = Ok out
    /\ add_utm_to_all_urls out source medium campaign = Ok out.
Proof.
  intros Hs Hm Hc Hsep Hwords Hauth Hapart Hapart2.
  exists (spaced (map (fun wc => (g (fst wc), snd wc)) items) (g last)).
  split; [apply add_all_spaced; assumption|].
  rewrite (add_all_spaced source medium campaign (fun w => w)).
  - f_equal. f_equal. rewrite map_map. apply map_ext. intros [w c]. reflexivity.
  - apply Forall_map. exact Hsep.
  - intros w' Hw'. rewrite words_map in Hw'.
    apply in_map_iff in Hw' as (w & <- & Hw).
    apply (word_settled source medium campaign g items last); assumption.
  - intros k' u' Hk' Hu' Hkw Hki Huw Hne. rewrite words_map in Hk', Hu'.
    apply in_map_iff in Hk' as (k & <- & Hk).
    apply in_map_iff in Hu' as (u & <- & Hu).
    destruct (settled_key source medium campaign g items last Hwords
                          k Hk Hkw Hki) as [Hkw0 Hki0].
    assert (Huw0 : url_word u).
    { destruct (Hwords u Hu) as [[E Eg] | [(H & _) | (H & _)]]; auto.
      rewrite Eg in Huw. rewrite (url_word_find_urls u Huw) in E.
      discriminate E. }
    split; apply (Hapart2 k u); assumption.
Qed.

(** ** Further instances *)

Lemma X1_witness :
  In (lit "https://u/v") (find_urls (lit "a http://x.y/z (https://u/v)"))
  /\ exists tok run,
       is_token tok /\ run <> []
       /\ Forall (fun c => url_char c = true) run
       /\ lit "https://u/v" = tok ++ run.
Proof.
  assert (Hin : In (lit "https://u/v")
                   (find_urls (lit "a http://x.y/z (https://u/v)")))
    by (vm_compute; right; left; reflexivity).
  split; [exact Hin|].
  exact (X1_find_urls_shape _ _ Hin).
Defined.

Lemma X2_witness :
  In (lit "https://u/v") (find_urls (lit "a http://x.y/z (https://u/v)"))
  /\ exists pre suf,
       lit "a http://x.y/z (https://u/v)" = pre ++ lit "https://u/v" ++ suf.
Proof.
  assert (Hin : In (lit "https://u/v")
                   (find_urls (lit "a http://x.y/z (https://u/v)")))
    by (vm_compute; right; left; reflexivity).
  split; [exact Hin|].
  exact (X2_find_urls_part_of_text _ _ Hin).
Defined.

Lemma X4_witness :
  url_char Py.C_SPACE = false
  /\ find_urls (lit "see http://a/b" ++ Py.C_SPACE :: lit "and (https://c)")
     = find_urls (lit "see http://a/b") ++ find_urls (lit "and (https://c)").
Proof.
  split; [reflexivity|].
  apply (X4_find_urls_separator (lit "see http://a/b") (lit "and (https://c)")
                                Py.C_SPACE).
  reflexivity.
Defined.

Lemma X6_witness :
  add_utm_to_all_urls (lit "![img](https://cdn.example.com/a.png) and text")
                      (lit "S") (lit "M") (lit "C")
  = Ok (lit "![img](https://cdn.example.com/a.png) and text").
Proof.
  apply (X6_images_only_unchanged
           (lit "![img](https://cdn.example.com/a.png) and text")).
  intros u Hu. vm_compute in Hu. destruct Hu as [<-|[]].
  eexists. split; vm_compute; reflexivity.
Defined.

Lemma X7_witness :
  In (lit "http://[::1") (find_urls (lit "see http://[::1 and http://a"))
  /\ Urllib.urlparse (lit "http://[::1") = Raise ValueError
  /\ add_utm_to_all_urls (lit "see http://[::1 and http://a")
                         (lit "S") (lit "M") (lit "C")
     = Raise ValueError.
Proof.
  assert (Hin : In (lit "http://[::1")
                   (find_urls (lit "see http://[::1 and http://a")))
    by (vm_compute; left; reflexivity).
  assert (Hu : Urllib.urlparse (lit "http://[::1") = Raise ValueError)
    by (vm_compute; reflexivity).
  split; [exact Hin|]. split; [exact Hu|].
  exact (X7_rejected_url_raises _ _ (lit "S") (lit "M") (lit "C") _ Hin Hu).
Defined.

Lemma X8_witness :
  add_utm_to_url (UrlStr (lit "http://a/b")) (lit "S") [0xD800] (lit "C")
  = Raise UnicodeEncodeError.
Proof.
  apply (X8_surrogate_value_raises
           (UrlStr (lit "http://a/b"))
           (Urllib.mkParseResult (lit "http") (lit "a") (lit "/b") [] [] [])
           (lit "S") [0xD800] (lit "C") [0xD800] 0xD800).
  - vm_compute. reflexivity.
  - right. left. reflexivity.
  - left. reflexivity.
  - lia.
Defined.

Lemma X9_witness :
  add_utm_to_all_urls
    (Py.join Py.C_SPACE
             (repeat (lit "https://" ++ lit "example.com/post") 3))
    (lit "S") (lit "M") (lit "C")
  = Ok (Py.join Py.C_SPACE
          (repeat (lit "https://example.com/post?utm_source=S&utm_medium=M&utm_campaign=C") 3)).
Proof.
  apply (X9_repeated_url_annotated_once
           (lit "https://") (lit "example.com/post") Py.C_SPACE
           (Urllib.mkParseResult (lit "https") (lit "example.com")
                                 (lit "/post") [] [] [])).
  - right. reflexivity.
  - discriminate.
  - all_chars.
  - reflexivity.
  - vm_compute. reflexivity.
  - vm_compute. reflexivity.
  - vm_compute. reflexivity.
  - vm_compute. reflexivity.
Defined.

Lemma X10_witness :
  let out := lit "https://example.com/post?ref=1&utm_source=a+b%26c%3D%C3%A9&utm_medium=M&utm_campaign=C" in
  add_utm_to_url (UrlStr (lit "https://example.com/post?ref=1"))
                 (lit "a b&c=" ++ [233]) (lit "M") (lit "C") = Ok out
  /\ exists parsed',
       Urllib.urlparse out = Ok parsed'
       /\ let d := Dict.of_pairs (Urllib.parse_qsl (Urllib.query parsed')) in
          d = merged_params
                (Urllib.mkParseResult (lit "https") (lit "example.com")
                                      (lit "/post") [] (lit "ref=1") [])
                (lit "a b&c=" ++ [233]) (lit "M") (lit "C")
          /\ Dict.get (lit "utm_source") d = Some (lit "a b&c=" ++ [233])
          /\ Dict.get (lit "utm_medium") d = Some (lit "M")
          /\ Dict.get (lit "utm_campaign") d = Some (lit "C").
Proof.
  intros out.
  assert (Ho : add_utm_to_url (UrlStr (lit "https://example.com/post?ref=1"))
                 (lit "a b&c=" ++ [233]) (lit "M") (lit "C") = Ok out)
    by (vm_compute; reflexivity).
  split; [exact Ho|].
  apply (X10_query_reads_back (lit "https://example.com/post?ref=1")).
  - vm_compute. reflexivity.
  - discriminate.
  - discriminate.
  - discriminate.
  - discriminate.
  - exact Ho.
Defined.

Lemma X11_witness :
  add_utm_to_url
    (UrlStr (lit "https://example.com/post?ref=1&utm_source=S&utm_medium=M&utm_campaign=C"))
    (lit "T") (lit "N") (lit "D")
  = add_utm_to_url (UrlStr (lit "https://example.com/post?ref=1"))
                   (lit "T") (lit "N") (lit "D").
Proof.
  apply (X11_later_values_replace_earlier
           (lit "https://example.com/post?ref=1")
           (Urllib.mkParseResult (lit "https") (lit "example.com")
                                 (lit "/post") [] (lit "ref=1") [])
           (lit "S") (lit "M") (lit "C")).
  - vm_compute. reflexivity.
  - discriminate.
  - discriminate.
  - discriminate.
  - discriminate.
  - vm_compute. reflexivity.
Defined.

Lemma X12_witness :
  let parsed := Urllib.mkParseResult (lit "http") (lit "a") (lit "/") []
                                     (lit "utm_medium=x&b=1") [] in
  let current := Dict.of_pairs (Urllib.parse_qsl (Urllib.query parsed)) in
  exists (q : str) (d : Dict.t),
    lit "http://a/?utm_medium=M&b=1&utm_source=S&utm_campaign=C"
    = Urllib.geturl (Urllib.replace_query parsed q)
    /\ Forall2 encodes d (Py.split Py.C_AMP q)
    /\ NoDup (Dict.keys d)
    /\ Dict.keys d
       = Dict.keys current
         ++ filter (fun k => negb (Urllib.mem k (Dict.keys current)))
                   [lit "utm_source"; lit "utm_medium"; lit "utm_campaign"].
Proof.
  intros parsed.
  apply (X12_parameter_order (UrlStr (lit "http://a/?utm_medium=x&b=1"))
                             parsed (lit "S") (lit "M") (lit "C")).
  - vm_compute. reflexivity.
  - vm_compute. reflexivity.
Defined.

Lemma X13_witness :
  find_file_recursively demo_fs (lit "jupyblog.yaml") 6 None
  = Os.Return (Some (Path.of_str (lit "/home/u/blog/jupyblog.yaml")),
               Some 2%Z)
  /\ exists (c : str) (d0 : Path.t) (k : nat),
       or_getcwd demo_fs None = Os.Return c
       /\ Os.resolve demo_fs (Path.of_str c) = Os.Return d0
       /\ (Z.of_nat k < 6)%Z
       /\ Some 2%Z = Some (Z.of_nat k)
       /\ Os.exists_ demo_fs (Path.child (ancestor d0 k) (lit "jupyblog.yaml"))
          = Os.Return true
       /\ Os.resolve demo_fs (Path.child (ancestor d0 k) (lit "jupyblog.yaml"))
          = Os.Return (Path.of_str (lit "/home/u/blog/jupyblog.yaml"))
       /\ forall j : nat,
            (j < k)%nat ->
            Os.exists_ demo_fs (Path.child (ancestor d0 j) (lit "jupyblog.yaml"))
            = Os.Return false.
Proof.
  assert (H : find_file_recursively demo_fs (lit "jupyblog.yaml") 6 None
              = Os.Return (Some (Path.of_str (lit "/home/u/blog/jupyblog.yaml")),
                           Some 2%Z))
    by (vm_compute; reflexivity).
  split; [exact H|].
  exact (X13_find_file_nearest demo_fs (lit "jupyblog.yaml") 6 None _ _ H).
Defined.

Lemma X14_witness :
  find_file_recursively demo_fs (lit "missing.md") 3 (Some (lit "/home/u"))
  = Os.Return (None, Some 2%Z).
Proof.
  apply (X14_find_file_not_found demo_fs (lit "missing.md") 3
                                 (Some (lit "/home/u")) (lit "/home/u")
                                 (Path.of_str (lit "/home/u"))).
  - reflexivity.
  - reflexivity.
  - intros j Hj. destruct j as [|[|[|j]]]; [vm_compute; reflexivity ..|lia].
Defined.

Lemma X15_witness :
  get_config demo_fs demo_make_config (lit "missing.yaml")
  = Os.Throw Os.FileNotFoundError.
Proof.
  apply (X15_get_config_not_found demo_fs demo_make_config
           (lit "missing.yaml") (lit "/home/u/blog/posts/draft")
           (Path.of_str (lit "/home/u/blog/posts/draft"))).
  - reflexivity.
  - reflexivity.
  - intros j Hj.
    destruct j as [|[|[|[|[|[|j]]]]]]; [vm_compute; reflexivity ..|lia].
Defined.

Lemma X16_witness :
  let cfg := Config.mk (lit "/home/u/blog") (lit "posts") (lit "static") []
                       None false None None in
  get_config demo_fs demo_make_config (lit "jupyblog.yaml") = Os.Return cfg
  /\ exists (c : str) (d0 path : Path.t) (k : nat) (text : str),
       Os.getcwd demo_fs = Os.Return c
       /\ Os.resolve demo_fs (Path.of_str c) = Os.Return d0
       /\ (k < 6)%nat
       /\ Os.resolve demo_fs (Path.child (ancestor d0 k) (lit "jupyblog.yaml"))
          = Os.Return path
       /\ (forall j : nat,
              (j < k)%nat ->
              Os.exists_ demo_fs
                         (Path.child (ancestor d0 j) (lit "jupyblog.yaml"))
              = Os.Return false)
       /\ Os.read_text demo_fs (Path.of_path path) = Os.Return text
       /\ demo_make_config text (Path.to_str (Path.parent path))
          = Os.Return cfg
       /\ Os.is_dir demo_fs (Config.path_to_posts_abs cfg) = Os.Return true
       /\ Os.is_dir demo_fs (Config.path_to_static_abs cfg) = Os.Return true.
Proof.
  intros cfg.
  assert (H : get_config demo_fs demo_make_config (lit "jupyblog.yaml")
              = Os.Return cfg) by (vm_compute; reflexivity).
  split; [exact H|].
  exact (X16_get_config_returns demo_fs demo_make_config
                                (lit "jupyblog.yaml") cfg H).
Defined.

Lemma X18_witness :
  Config.load_processor
    demo_importer
    (Config.mk (lit ".") (lit "output") (lit "output") [] None false
               (Some (lit "process")) None)
  = Os.Throw Os.ValueError.
Proof.
  apply (X18_bare_processor_name_raises demo_importer _ (lit "process")).
  - reflexivity.
  - discriminate.
  - not_in.
Defined.

Lemma X19_witness :
  Config.load_processor
    demo_importer
    (Config.mk (lit ".") (lit "output") (lit "output") [] None false
               (Some (lit "pkg.mod.process")) None)
  = (m <~ Os.import_module demo_importer (lit "pkg.mod") ;;
     f <~ Os.getattr demo_importer m (lit "process") ;;
     Os.Return (Some f)).
Proof.
  apply (X19_processor_cut_at_last_dot demo_importer _ (lit "pkg.mod")
                                       (lit "process")).
  - reflexivity.
  - not_in.
Defined.

Lemma X20_witness :
  let u1 := lit "https://example.com/home" in
  let u2 := lit "https://example.org/a?b=1" in
  let g := fun w : str =>
             if Py.eqb w u1
             then lit "https://example.com/home?utm_source=S&utm_medium=M&utm_campaign=C"
             else if Py.eqb w u2
             then lit "https://example.org/a?b=1&utm_source=S&utm_medium=M&utm_campaign=C"
             else w in
  let items := [(lit "[home]", Py.C_LPAR); (u1, Py.C_RPAR);
                (lit " and ![logo]", Py.C_LPAR);
                (lit "https://cdn.example.com/logo.png", Py.C_RPAR);
                (lit " see", Py.C_SPACE)] in
  add_utm_to_all_urls (spaced items u2) (lit "S") (lit "M") (lit "C")
  = Ok (spaced (map (fun wc => (g (fst wc), snd wc)) items) (g u2)).
Proof.
  intros u1 u2 g items.
  apply (X20_separated_urls_annotated (lit "S") (lit "M") (lit "C") g items u2).
  - repeat (apply Forall_cons; [reflexivity|]). apply Forall_nil.
  - intros w Hw. cbn [words items map app In fst] in Hw.
    destruct Hw as [<-|[<-|[<-|[<-|[<-|[<-|[]]]]]]].
    + left. split; vm_compute; reflexivity.
    + right. right. split; [|split; [vm_compute; reflexivity|]].
      * exists (lit "https://"), (lit "example.com/home").
        split; [right; reflexivity|]. split; [discriminate|].
        split; [all_chars | reflexivity].
      * eexists. split; [vm_compute; reflexivity|].
        split; vm_compute; reflexivity.
    + left. split; vm_compute; reflexivity.
    + right. left. split; [|split; vm_compute; reflexivity].
      exists (lit "https://"), (lit "cdn.example.com/logo.png").
      split; [right; reflexivity|]. split; [discriminate|].
      split; [all_chars | reflexivity].
    + left. split; vm_compute; reflexivity.
    + right. right. split; [|split; [vm_compute; reflexivity|]].
      * exists (lit "https://"), (lit "example.org/a?b=1").
        split; [right; reflexivity|]. split; [discriminate|].
        split; [all_chars | reflexivity].
      * eexists. split; [vm_compute; reflexivity|].
        split; vm_compute; reflexivity.
  - intros k u Hk Hu _ _ _ Hne. cbn [words items map app In fst] in Hk, Hu.
    destruct Hk as [<-|[<-|[<-|[<-|[<-|[<-|[]]]]]]];
      destruct Hu as [<-|[<-|[<-|[<-|[<-|[<-|[]]]]]]];
      try (exfalso; apply Hne; reflexivity);
      split; vm_compute; reflexivity.
Defined.

Lemma X21_witness :
  let u1 := lit "https://example.com/home" in
  let u2 := lit "https://example.org/a?b=1" in
  let g := fun w : str =>
             if Py.eqb w u1
             then lit "https://example.com/home?utm_source=S&utm_medium=M&utm_campaign=C"
             else if Py.eqb w u2
             then lit "https://example.org/a?b=1&utm_source=S&utm_medium=M&utm_campaign=C"
             else w in
  let items := [(lit "[home]", Py.C_LPAR); (u1, Py.C_RPAR);
                (lit " and ![logo]", Py.C_LPAR);
                (lit "https://cdn.example.com/logo.png", Py.C_RPAR);
                (lit " see", Py.C_SPACE)] in
  exists out,
    add_utm_to_all_urls (spaced items u2) (lit "S") (lit "M") (lit "C")
    = Ok out
    /\ add_utm_to_all_urls out (lit "S") (lit "M") (lit "C") = Ok out.
Proof.
  intros u1 u2 g items.
  apply (X21_separated_text_idempotent (lit "S") (lit "M") (lit "C")
                                       g items u2).
  - discriminate.
  - discriminate.
  - discriminate.
  - repeat (apply Forall_cons; [reflexivity|]). apply Forall_nil.
  - intros w Hw. cbn [words items map app In fst] in Hw.
    destruct Hw as [<-|[<-|[<-|[<-|[<-|[<-|[]]]]]]].
    + left. split; vm_compute; reflexivity.
    + right. right. split; [|split; [vm_compute; reflexivity|]].
      * exists (lit "https://"), (lit "example.com/home").
        split; [right; reflexivity|]. split; [discriminate|].
        split; [all_chars | reflexivity].
      * eexists. split; [vm_compute; reflexivity|].
        split; vm_compute; reflexivity.
    + left. split; vm_compute; reflexivity.
    + right. left. split; [|split; vm_compute; reflexivity].
      exists (lit "https://"), (lit "cdn.example.com/logo.png").
      split; [right; reflexivity|]. split; [discriminate|].
      split; [all_chars | reflexivity].
    + left. split; vm_compute; reflexivity.
    + right. right. split; [|split; [vm_compute; reflexivity|]].
      * exists (lit "https://"), (lit "example.org/a?b=1").
        split; [right; reflexivity|]. split; [discriminate|].
        split; [all_chars | reflexivity].
      * eexists. split; [vm_compute; reflexivity|].
        split; vm_compute; reflexivity.
  - intros w p Hw Huw Hi Hp. cbn [words items map app In fst] in Hw.
    destruct Hw as [<-|[<-|[<-|[<-|[<-|[<-|[]]]]]]];
      first [ vm_compute in Hi; discriminate Hi
            | destruct Huw as (tok & run & [-> | ->] & _ & _ & E);
              vm_compute in E; discriminate E
            | vm_compute in Hp; injection Hp as <-;
              intros E; vm_compute in E; discriminate E ].
  - intros k u Hk Hu _ _ _ Hne. cbn [words items map app In fst] in Hk, Hu.
    destruct Hk as [<-|[<-|[<-|[<-|[<-|[<-|[]]]]]]];
      destruct Hu as [<-|[<-|[<-|[<-|[<-|[<-|[]]]]]]];
      try (exfalso; apply Hne; reflexivity);
      split; vm_compute; reflexivity.
  - intros k u Hk Hu _ Hi _ Hne. cbn [words items map app In fst] in Hk, Hu.
    destruct Hk as [<-|[<-|[<-|[<-|[<-|[<-|[]]]]]]];
      destruct Hu as [<-|[<-|[<-|[<-|[<-|[<-|[]]]]]]];
      try (exfalso; apply Hne; reflexivity);
      try (vm_compute; reflexivity);
      vm_compute in Hi; discriminate Hi.
Defined.
